(** * TwitamaModoki: navigation, rate-limit and content-filter core

  A shallow embedding of the synchronisation core of the TwitamaModoki
  browser extension:

  - [src/types/index.ts]            ([shouldRecordUrl], [getTitleFromUrl]),
  - [utils/columnType]              ([getColumnTypeFromUrl]),
  - [src/background/index.ts]       (the rate-limit monitor),
  - [src/config/xSelectors.ts]      (name extraction from the page),
  - [src/hooks/useIframeUrlSync.ts] (the navigation watcher),
  - [hooks/useIframeInit]           ([applyFilters], [matchesFilter]).

  Strings are Rocq byte strings; a JavaScript string literal of the source
  is written as its UTF-8 encoding.  The services of the browser that the
  source calls but does not define (the [URL] constructor, the [RegExp]
  constructor on a pattern held in a variable, [Number] on a header value,
  [toLowerCase] on the text of a link or of a rule) are the fields of the
  class [Platform]. *)

From Stdlib Require Import ZArith Ascii String List Bool Lia.
From stdpp Require Import base option list strings functions gmap.

Local Open Scope Z_scope.

(** ** Strings of the host language *)

Module JsString.

(** [forallb] over the characters of a string. *)
Fixpoint all (p : ascii → bool) (s : string) : bool :=
  match s with
  | "" => true
  | String c s' => p c && all p s'
  end.

(** [s.startsWith(p)] *)
Fixpoint startsWith (p s : string) : bool :=
  match p, s with
  | "", _ => true
  | String a p', String b s' => Ascii.eqb a b && startsWith p' s'
  | String _ _, "" => false
  end.

(** [s.includes(p)] *)
Fixpoint includes (p s : string) : bool :=
  startsWith p s ||
  match s with
  | "" => false
  | String _ s' => includes p s'
  end.

(** [s.indexOf(c)] for a one-character needle; [None] stands for [-1]. *)
Fixpoint indexOf (c : ascii) (s : string) : option nat :=
  match s with
  | "" => None
  | String d s' => if Ascii.eqb d c then Some 0%nat else S <$> indexOf c s'
  end.

(** [s.substring(0, n)] and [s.substring(n)] *)
Fixpoint take (n : nat) (s : string) : string :=
  match n, s with
  | S n', String c s' => String c (take n' s')
  | _, _ => ""
  end.

Fixpoint drop (n : nat) (s : string) : string :=
  match n, s with
  | S n', String _ s' => drop n' s'
  | _, _ => s
  end.

(** The white space and line terminators that [trim] removes.  Those of one
    byte: tab, line feed, vertical tab, form feed, carriage return, space. *)
Definition isSpace (c : ascii) : bool :=
  match c with
  | "009" | "010" | "011" | "012" | "013" | " " => true
  | _ => false
  end%char.

(** The third byte of U+2000 to U+200A, U+2028, U+2029 and U+202F, whose
    first two bytes are 226 and 128. *)
Definition isPunctuationSpace (c : ascii) : bool :=
  let n := N_of_ascii c in
  ((128 <=? n) && (n <=? 138) || (n =? 168) || (n =? 169) || (n =? 175))%N.

(** [s.trimStart()]; the longer ones are U+00A0, U+1680, those above,
    U+205F, U+3000 and U+FEFF. *)
Fixpoint trimStart (s : string) : string :=
  match s with
  | "" => ""
  | String c s1 =>
      if isSpace c then trimStart s1
      else
        match c, s1 with
        | "194", String "160" s2 => trimStart s2
        | "225", String "154" (String "128" s3) => trimStart s3
        | "226", String "128" (String d s3) =>
            if isPunctuationSpace d then trimStart s3 else s
        | "226", String "129" (String "159" s3) => trimStart s3
        | "227", String "128" (String "128" s3) => trimStart s3
        | "239", String "187" (String "191" s3) => trimStart s3
        | _, _ => s
        end%char
  end.

(** The same on a reversed string. *)
Fixpoint trimStartReversed (s : string) : string :=
  match s with
  | "" => ""
  | String c s1 =>
      if isSpace c then trimStartReversed s1
      else
        match c, s1 with
        | "160", String "194" s2 => trimStartReversed s2
        | "128", String "154" (String "225" s3) => trimStartReversed s3
        | "159", String "129" (String "226" s3) => trimStartReversed s3
        | "128", String "128" (String "227" s3) => trimStartReversed s3
        | "191", String "187" (String "239" s3) => trimStartReversed s3
        | d, String "128" (String "226" s3) =>
            if isPunctuationSpace d then trimStartReversed s3 else s
        | _, _ => s
        end%char
  end.

Fixpoint reverseOnto (s acc : string) : string :=
  match s with
  | "" => acc
  | String c s' => reverseOnto s' (String c acc)
  end.
Definition reverse (s : string) : string := reverseOnto s "".

(** [s.trimEnd()] *)
Definition trimEnd (s : string) : string :=
  reverse (trimStartReversed (reverse s)).

(** [s.trim()] *)
Definition trim (s : string) : string := trimEnd (trimStart s).

Definition lowerChar (c : ascii) : ascii :=
  let n := N_of_ascii c in
  if ((65 <=? n) && (n <=? 90))%N then ascii_of_N (n + 32) else c.

(** [s.toLowerCase()] on a string of ASCII characters, as the names of
    response headers are, and the folding of the [i] flag of a pattern
    without the [u] flag: the letters A-Z are lowered and every other byte
    is kept.  On text that may hold any letter, [toLowerCase] is the
    service [String_toLowerCase] of the platform. *)
Fixpoint toLowerCase (s : string) : string :=
  match s with
  | "" => ""
  | String c s' => String (lowerChar c) (toLowerCase s')
  end.

(** A value used as a condition: the empty string is falsy. *)
Definition truthy (s : string) : bool :=
  match s with "" => false | _ => true end.

End JsString.

(** ** Regular expressions

  The regular-expression literals of the source are written as terms of
  [regex]; [test] decides them with Brzozowski derivatives, and [lang] is
  the language they denote. *)

Module Regex.

Inductive regex : Type :=
| Void
| Eps
| Chr (p : ascii → bool)
| Cat (r1 r2 : regex)
| Alt (r1 r2 : regex)
| Star (r : regex).

Fixpoint nullable (r : regex) : bool :=
  match r with
  | Void | Chr _ => false
  | Eps | Star _ => true
  | Cat r1 r2 => nullable r1 && nullable r2
  | Alt r1 r2 => nullable r1 || nullable r2
  end.

Fixpoint deriv (c : ascii) (r : regex) : regex :=
  match r with
  | Void | Eps => Void
  | Chr p => if p c then Eps else Void
  | Cat r1 r2 =>
      if nullable r1
      then Alt (Cat (deriv c r1) r2) (deriv c r2)
      else Cat (deriv c r1) r2
  | Alt r1 r2 => Alt (deriv c r1) (deriv c r2)
  | Star r1 => Cat (deriv c r1) (Star r1)
  end.

(** The whole of [s] matches [r]. *)
Fixpoint matchb (r : regex) (s : string) : bool :=
  match s with
  | "" => nullable r
  | String c s' => matchb (deriv c r) s'
  end.

Inductive lang : regex → string → Prop :=
| lang_eps : lang Eps ""
| lang_chr p c : p c = true → lang (Chr p) (String c "")
| lang_cat r1 r2 s1 s2 : lang r1 s1 → lang r2 s2 → lang (Cat r1 r2) (s1 +:+ s2)
| lang_alt_l r1 r2 s : lang r1 s → lang (Alt r1 r2) s
| lang_alt_r r1 r2 s : lang r2 s → lang (Alt r1 r2) s
| lang_star_nil r : lang (Star r) ""
| lang_star_app r s1 s2 : lang r s1 → lang (Star r) s2 → lang (Star r) (s1 +:+ s2).

(** *** Building blocks of the literals *)

(** A literal character, and the same under the [i] flag.  Without the [u]
    flag a letter A-Z or a-z is only ever equal, up to case, to its own
    other case. *)
Definition char (c : ascii) : regex := Chr (Ascii.eqb c).
Definition char_i (c : ascii) : regex :=
  Chr (fun x => Ascii.eqb (JsString.lowerChar x) (JsString.lowerChar c)).

Fixpoint lit (s : string) : regex :=
  match s with
  | "" => Eps
  | String c s' => Cat (char c) (lit s')
  end.

Fixpoint lit_i (s : string) : regex :=
  match s with
  | "" => Eps
  | String c s' => Cat (char_i c) (lit_i s')
  end.

(** [.] matches any character but a line terminator.  The terminators of one
    byte are listed; U+2028 and U+2029 take three bytes and do not occur in
    the paths that the literals with [.] are tested on. *)
Definition isLineTerminator (c : ascii) : bool :=
  match c with
  | "010" | "013" => true
  | _ => false
  end%char.
Definition dot : regex := Chr (fun c => negb (isLineTerminator c)).
Definition any : regex := Chr (fun _ => true).

(** [[a-zA-Z0-9_]] *)
Definition isWordChar (c : ascii) : bool :=
  let n := N_of_ascii c in
  ((97 <=? n) && (n <=? 122) || (65 <=? n) && (n <=? 90)
   || (48 <=? n) && (n <=? 57) || (n =? 95))%N.
Definition word : regex := Chr isWordChar.

(** [[^/]] *)
Definition notSlash : regex := Chr (fun c => negb (Ascii.eqb c "/")).

Definition opt (r : regex) : regex := Alt Eps r.
Definition plus (r : regex) : regex := Cat r (Star r).

(** [r{n}], [r{0,n}] and [r{lo,hi}] *)
Fixpoint times (n : nat) (r : regex) : regex :=
  match n with
  | O => Eps
  | S n' => Cat r (times n' r)
  end.
Fixpoint upto (n : nat) (r : regex) : regex :=
  match n with
  | O => Eps
  | S n' => opt (Cat r (upto n' r))
  end.
Definition range (lo hi : nat) (r : regex) : regex :=
  Cat (times lo r) (upto (hi - lo) r).

(** A regular-expression literal: [/^r$/] or [/r/]. *)
Inductive RegExp : Type :=
| Anchored (r : regex)
| Unanchored (r : regex).

(** [pattern.test(s)] *)
Definition test (re : RegExp) (s : string) : bool :=
  match re with
  | Anchored r => matchb r s
  | Unanchored r => matchb (Cat (Star any) (Cat r (Star any))) s
  end.

End Regex.


(** ** Services of the browser *)

(** What the source reads from a [URL] object: [urlObj.pathname] and
    [urlObj.searchParams.get(name)], where [None] is [null]. *)
Record URL : Type := {
  pathname : string;
  searchParams_get : string → option string;
}.

Class Platform : Type := {
  (** [new URL(url)]; [None] when the constructor throws. *)
  URL_new : string → option URL;
  (** [new RegExp(pattern)] and the [test] method of the result; [None] when
      the constructor throws. *)
  RegExp_new : string → option (string → bool);
  (** [Number(value)]; [None] when the result is [NaN].  The rate-limit
      headers carry integer counters and epoch seconds. *)
  Number_parse : string → option Z;
  (** [s.toLowerCase()] on any text: the case mapping of the host. *)
  String_toLowerCase : string → string;
}.

(** [try { body } catch { handler }] for a body that either returns or throws
    ([None]). *)
Definition try_catch {A : Type} (body : option A) (handler : A) : A :=
  match body with
  | Some a => a
  | None => handler
  end.

(** [a ?? b] *)
Definition nullish {A : Type} (a b : option A) : option A :=
  match a with
  | Some _ => a
  | None => b
  end.

(** ** [src/types/index.ts] and [utils/columnType]: classifying a URL *)

Section UrlClassifiers.
Context `{Platform}.
Import Regex.

(** The optional sub-path of [/messages] and [/explore]: a slash and then any
    run of [.], the whole group under [?]. *)
Definition subPath : regex := opt (Cat (char "/") (Star dot)).

Definition allowedPatterns : list RegExp := [
  Anchored (lit "/home");                           (* /^\/home$/ *)
  Anchored (lit "/notifications");                  (* /^\/notifications$/ *)
  Anchored (Cat (lit "/messages") subPath);         (* /^\/messages<subPath>$/ *)
  Anchored (lit "/search");                         (* /^\/search$/ *)
  Anchored (Cat (lit "/i/lists/") (plus dot));      (* /^\/i\/lists\/.+$/ *)
  Anchored (Cat (lit "/explore") subPath);          (* /^\/explore<subPath>$/ *)
  Anchored (lit "/i/bookmarks");                    (* /^\/i\/bookmarks$/ *)
  Anchored (Cat (lit "/i/communities/") (plus dot)); (* /^\/i\/communities\/.+$/ *)
  Anchored (Cat (char "/") (range 1 15 word))       (* /^\/[a-zA-Z0-9_]{1,15}$/ *)
].

Definition shouldRecordUrl (url : string) : bool :=
  try_catch
    (urlObj ← URL_new url;
     let pathname := pathname urlObj in
     Some (existsb (fun pattern => test pattern pathname) allowedPatterns))
    false.

Definition getTitleFromUrl (url : string) : string :=
  try_catch
    (urlObj ← URL_new url;
     let pathname := pathname urlObj in
     Some
       (if String.eqb pathname "/home" then "Home"
        else if String.eqb pathname "/notifications" then "Notifications"
        else if String.eqb pathname "/messages"
                || JsString.startsWith "/messages/" pathname then "DM"
        else if String.eqb pathname "/search" then
          match searchParams_get urlObj "q" with
          | Some keyword =>
              if JsString.truthy keyword then "🔍" +:+ keyword else "🔍Search"
          | None => "🔍Search"
          end
        else if JsString.includes "/i/lists/" pathname then "List"
        else if String.eqb pathname "/explore"
                || JsString.startsWith "/explore/" pathname then "Explore"
        else if test (Anchored (Cat (char "/") (plus notSlash))) pathname
        then "@" +:+ JsString.drop 1 pathname
        else "X"))
    "X".

End UrlClassifiers.

Module ColumnType.
Inductive t : Type :=
| home | notifications | messages | search | list | explore | bookmarks
| community | user_profile | unknown.

#[global] Instance eq_dec : EqDecision t.
Proof. solve_decision. Defined.
End ColumnType.

Section ColumnTypeOfUrl.
Context `{Platform}.
Import Regex.

Definition getColumnTypeFromUrl (url : string) : ColumnType.t :=
  try_catch
    (urlObj ← URL_new url;
     let pathname := pathname urlObj in
     Some
       (if String.eqb pathname "/home" then ColumnType.home
        else if String.eqb pathname "/notifications" then ColumnType.notifications
        else if String.eqb pathname "/messages"
                || JsString.startsWith "/messages/" pathname
        then ColumnType.messages
        else if String.eqb pathname "/search" then ColumnType.search
        else if test (Anchored (Cat (lit "/i/lists/") (plus dot))) pathname
        then ColumnType.list
        else if String.eqb pathname "/explore"
                || JsString.startsWith "/explore/" pathname
        then ColumnType.explore
        else if String.eqb pathname "/i/bookmarks" then ColumnType.bookmarks
        else if test (Anchored (Cat (lit "/i/communities/") (plus dot))) pathname
        then ColumnType.community
        else if test (Anchored (Cat (char "/") (range 1 15 word))) pathname
        then ColumnType.user_profile
        else ColumnType.unknown))
    ColumnType.unknown.

End ColumnTypeOfUrl.

(** ** [src/background/index.ts]: the rate-limit monitor *)

Inductive RateLimitCategory : Type :=
| tweetPost | userTimeline | homeLatestTimeline | listTweets
| searchLatest | dmFetch | accountSettings | badgeCount.

#[global] Instance RateLimitCategory_eq_dec : EqDecision RateLimitCategory.
Proof. solve_decision. Defined.

Module RateLimitInfo.
Record t : Type := {
  limit : option Z;
  remaining : option Z;
  resetAt : option Z;
  lastUpdated : option Z;
}.
End RateLimitInfo.

(** [Record<RateLimitCategory, RateLimitInfo>]: every category has a record. *)
Abbreviation RateLimitState := (RateLimitCategory → RateLimitInfo.t).

Definition DEFAULT_RATE_LIMIT_STATE : RateLimitState :=
  fun _ => {| RateLimitInfo.limit := None;
              RateLimitInfo.remaining := None;
              RateLimitInfo.resetAt := None;
              RateLimitInfo.lastUpdated := None |}.

Record RateLimitPattern : Type := {
  category : RateLimitCategory;
  patterns : list Regex.RegExp;
}.

Definition RATE_LIMIT_PATTERNS : list RateLimitPattern :=
  let re (s : string) := Regex.Unanchored (Regex.lit_i s) in
  [ {| category := tweetPost;
       patterns := [re "CreateTweet"; re "TweetCreate"] |};
    {| category := userTimeline;
       patterns := [re "UserTweets"; re "UserTweetsAndReplies"] |};
    {| category := homeLatestTimeline;
       patterns := [re "HomeLatestTimeline"] |};
    {| category := listTweets;
       patterns := [re "ListLatestTweetsTimeline"; re "ListTweets"] |};
    {| category := searchLatest;
       patterns := [re "SearchTimeline"] |};
    {| category := dmFetch;
       patterns := [re "DmInbox"; re "DmConversation"; re "DmHistory"] |};
    {| category := accountSettings;
       patterns := [re "/account/settings.json"] |};
    {| category := badgeCount;
       patterns := [re "badge_count/badge_count.json"] |} ].

Definition detectRateLimitCategory (url : string) : option RateLimitCategory :=
  let entry :=
    find (fun rule => existsb (fun pattern => Regex.test pattern url) (patterns rule))
         RATE_LIMIT_PATTERNS in
  match entry with
  | Some entry => Some (category entry)
  | None => None
  end.

Module HttpHeader.
Record t : Type := {
  name : string;
  value : option string;
}.
End HttpHeader.

(** The [details] of a completed request that the listener reads. *)
Record Details : Type := {
  url : string;
  responseHeaders : option (list HttpHeader.t);
}.

(** The service worker: the module-level [rateLimitState] and what
    [chrome.storage.local.set] was given under [RATE_LIMIT_STORAGE_KEY], the
    latest write first. *)
Record Background : Type := {
  rateLimitState : RateLimitState;
  storageWrites : list RateLimitState;
}.

Definition initialBackground : Background :=
  {| rateLimitState := DEFAULT_RATE_LIMIT_STATE; storageWrites := [] |}.

Definition isNull {A : Type} (a : option A) : bool :=
  match a with
  | None => true
  | Some _ => false
  end.

(** [a === b] on [number | null] *)
Definition strictEq (a b : option Z) : bool := bool_decide (a = b).

Section RateLimitMonitor.
Context `{Platform}.

Definition getHeaderValue (headers : option (list HttpHeader.t)) (name : string)
  : option Z :=
  match headers with
  | None => None
  | Some headers =>
      match find (fun header =>
                    String.eqb (JsString.toLowerCase (HttpHeader.name header)) name)
                 headers with
      | None => None
      | Some found =>
          match HttpHeader.value found with
          | None => None
          | Some value =>
              if JsString.truthy value then Number_parse value else None
          end
      end
  end.

(** The listener given to [chrome.webRequest.onHeadersReceived]; [now] is
    what [Date.now()] returns during the call. *)
Definition onHeadersReceived (now : Z) (details : Details) (bg : Background)
  : Background :=
  match detectRateLimitCategory (url details) with
  | None => bg
  | Some category =>
      let limit := getHeaderValue (responseHeaders details) "x-rate-limit-limit" in
      let remaining := getHeaderValue (responseHeaders details) "x-rate-limit-remaining" in
      let resetAt := getHeaderValue (responseHeaders details) "x-rate-limit-reset" in
      if isNull limit && isNull remaining && isNull resetAt then bg
      else
        let previous := rateLimitState bg category in
        let newLimit := nullish limit (RateLimitInfo.limit previous) in
        let newRemaining := nullish remaining (RateLimitInfo.remaining previous) in
        let newResetAt := nullish resetAt (RateLimitInfo.resetAt previous) in
        if strictEq (RateLimitInfo.limit previous) newLimit
           && strictEq (RateLimitInfo.remaining previous) newRemaining
           && strictEq (RateLimitInfo.resetAt previous) newResetAt
        then bg
        else
          let rateLimitState' :=
            <[category := {| RateLimitInfo.limit := newLimit;
                             RateLimitInfo.remaining := newRemaining;
                             RateLimitInfo.resetAt := newResetAt;
                             RateLimitInfo.lastUpdated := Some now |}]>
              (rateLimitState bg) in
          {| rateLimitState := rateLimitState';
             storageWrites := rateLimitState' :: storageWrites bg |}
  end.

End RateLimitMonitor.

(** ** [src/config/xSelectors.ts]: names read from the embedded page *)

(** The element a selector looks for, by its [data-testid]:
    [*[data-testid=TopNavBar]] and [div[data-testid=UserName]]. *)
Inductive Selector : Type := TopNavBar | UserName.

(** [doc.querySelector(selector)]: it throws, finds nothing, or finds an
    element, of which only [textContent] is read. *)
Inductive QueryResult : Type :=
| QueryThrows
| NoElement
| Element (textContent : string).

(** The embedded document at one instant, as far as the selectors see it. *)
Abbreviation Document := (Selector → QueryResult).

Definition getListName (doc : Document) : option string :=
  match doc TopNavBar with
  | QueryThrows => None
  | NoElement => None
  | Element textContent =>
      if negb (JsString.truthy textContent) then None
      else
        let text := JsString.trim textContent in
        match JsString.indexOf "@" text with
        | Some atIndex => Some (JsString.trim (JsString.take atIndex text))
        | None => Some text
        end
  end.

Definition getCommunityName (doc : Document) : option string :=
  match doc TopNavBar with
  | QueryThrows => None
  | NoElement => None
  | Element textContent =>
      if negb (JsString.truthy textContent) then None
      else
        let text := JsString.trim textContent in
        match JsString.indexOf "@" text with
        | Some atIndex => Some (JsString.trim (JsString.take atIndex text))
        | None => Some text
        end
  end.

Definition getUserName (doc : Document) : option string :=
  match doc UserName with
  | QueryThrows => None
  | NoElement => None
  | Element textContent =>
      if negb (JsString.truthy textContent) then None
      else
        let text := JsString.trim textContent in
        match JsString.indexOf "@" text with
        | None => None
        | Some atIndex => Some (JsString.trim (JsString.drop atIndex text))
        end
  end.

(** ** [src/hooks/useIframeUrlSync.ts]: the navigation watcher *)

Module Column.
Record t : Type := {
  id : string;
  title : string;
  currentUrl : string;
  isSettings : bool;   (* config.type is settings rather than column *)
}.
End Column.

(** The three blocks of [checkUrl] that resolve a name from the page; they
    differ in their guard, their placeholder title and their extractor. *)
Inductive NameKind : Type := ListName | CommunityName | ProfileName.

Definition guard (kind : NameKind) (currentUrl : string) : bool :=
  match kind with
  | ListName => JsString.includes "/i/lists/" currentUrl
  | CommunityName => JsString.includes "/i/communities/" currentUrl
  | ProfileName =>
      (* /^https:\/\/x\.com\/[a-zA-Z0-9_]{1,15}$/ *)
      Regex.test
        (Regex.Anchored
           (Regex.Cat (Regex.lit "https://x.com/") (Regex.range 1 15 Regex.word)))
        currentUrl
  end.

(** The title the stored column must differ from to be reused. *)
Definition placeholder (kind : NameKind) : string :=
  match kind with
  | ListName => "リスト"
  | CommunityName => "コミュニティ"
  | ProfileName => "ユーザープロフィール"
  end.

Definition extractor (kind : NameKind) : Document → option string :=
  match kind with
  | ListName => getListName
  | CommunityName => getCommunityName
  | ProfileName => getUserName
  end.

Definition selectorOf (kind : NameKind) : Selector :=
  match kind with
  | ListName | CommunityName => TopNavBar
  | ProfileName => UserName
  end.

(** What the watcher does to the outside, in the order it does it. *)
Inductive Effect : Type :=
| OnUrlChange (url title : string)     (* onUrlChange(url, title) *)
| SetTimeout (ms : nat)                (* setTimeout(callback, ms) *)
| QuerySelector (selector : Selector). (* doc.querySelector(selector) *)

(** A callback given to [setTimeout]: [tryGetListName(attempt, maxAttempts)]
    or its community or profile twin, with the [currentUrl] and [title] of its
    closure. *)
Module Retry.
Record t : Type := {
  kind : NameKind;
  currentUrl : string;
  title : string;
  attempt : nat;
  maxAttempts : nat;
}.
End Retry.

(** The refs of one hook instance, its pending timers and its effects so far,
    the latest first. *)
Record Watcher : Type := {
  lastUrlRef : string;
  lastRecordedUrlRef : string;
  resolvedNamesRef : gmap string string;
  timers : list (nat * Retry.t);
  effects : list Effect;
}.

Definition initialWatcher : Watcher :=
  {| lastUrlRef := ""; lastRecordedUrlRef := ""; resolvedNamesRef := ∅;
     timers := []; effects := [] |}.

(** Reading a property of the embedded window: the access throws, the
    optional chain yields [undefined], or there is a value. *)
Inductive Access (A : Type) : Type :=
| Denied
| Absent
| Present (a : A).
Arguments Denied {A}.
Arguments Absent {A}.
Arguments Present {A} a.

(** What one run of [checkUrl] sees: [iframe.contentWindow?.location.href],
    [iframe.contentWindow?.document], and the [columnId] and [columns] of the
    effect's closure. *)
Record View : Type := {
  href : Access string;
  document : Access unit;
  columnId : option string;
  columns : list Column.t;
}.

Definition perform (e : Effect) (w : Watcher) : Watcher :=
  {| lastUrlRef := lastUrlRef w; lastRecordedUrlRef := lastRecordedUrlRef w;
     resolvedNamesRef := resolvedNamesRef w; timers := timers w;
     effects := e :: effects w |}.

(** [onUrlChange(url, title)] *)
Definition onUrlChange (url title : string) : Watcher → Watcher :=
  perform (OnUrlChange url title).

(** [resolvedNamesRef.current.set(url, name)] *)
Definition setResolvedName (url name : string) (w : Watcher) : Watcher :=
  {| lastUrlRef := lastUrlRef w; lastRecordedUrlRef := lastRecordedUrlRef w;
     resolvedNamesRef := <[url := name]> (resolvedNamesRef w);
     timers := timers w; effects := effects w |}.

(** [setTimeout(callback, ms)] *)
Definition setTimeout (callback : Retry.t) (ms : nat) (w : Watcher) : Watcher :=
  perform (SetTimeout ms)
    {| lastUrlRef := lastUrlRef w; lastRecordedUrlRef := lastRecordedUrlRef w;
       resolvedNamesRef := resolvedNamesRef w;
       timers := timers w ++ [(ms, callback)]; effects := effects w |}.

(** A string or [null] used as a condition. *)
Definition whenTruthy (o : option string) : option string :=
  match o with
  | Some s => if JsString.truthy s then Some s else None
  | None => None
  end.

(** The body of [tryGetListName] and its twins, run against what the captured
    document shows when the timer fires. *)
Definition tryGetName (doc : Document) (r : Retry.t) (w : Watcher) : Watcher :=
  let w := perform (QuerySelector (selectorOf (Retry.kind r))) w in
  match whenTruthy (extractor (Retry.kind r) doc) with
  | Some name =>
      onUrlChange (Retry.currentUrl r) name
        (setResolvedName (Retry.currentUrl r) name w)
  | None =>
      if (Retry.attempt r <? Retry.maxAttempts r)%nat then
        let delay := (Retry.attempt r * 300)%nat in
        setTimeout
          {| Retry.kind := Retry.kind r; Retry.currentUrl := Retry.currentUrl r;
             Retry.title := Retry.title r; Retry.attempt := Retry.attempt r + 1;
             Retry.maxAttempts := Retry.maxAttempts r |} delay w
      else onUrlChange (Retry.currentUrl r) (Retry.title r) w
  end.

(** Step 2 of a block: the title of the stored column, when it may be used. *)
Definition storedTitle (kind : NameKind) (v : View) (currentUrl : string)
  : option string :=
  match whenTruthy (columnId v) with
  | None => None
  | Some columnId =>
      match find (fun c => String.eqb (Column.id c) columnId) (columns v) with
      | None => None
      | Some currentColumn =>
          if negb (String.eqb (Column.title currentColumn) (placeholder kind))
             && String.eqb (Column.currentUrl currentColumn) currentUrl
          then Some (Column.title currentColumn)
          else None
      end
  end.

(** One of the three blocks of [checkUrl]; [None] when control leaves the
    block and goes on to the next statement. *)
Definition resolveBlock (kind : NameKind) (v : View) (currentUrl title : string)
    (w : Watcher) : option Watcher :=
  if negb (guard kind currentUrl) then None
  else
    match whenTruthy (resolvedNamesRef w !! currentUrl) with
    | Some cachedName => Some (onUrlChange currentUrl cachedName w)
    | None =>
        match storedTitle kind v currentUrl with
        | Some storedName =>
            Some (onUrlChange currentUrl storedName
                    (setResolvedName currentUrl storedName w))
        | None =>
            match document v with
            | Denied => Some w   (* thrown, and caught at the end of checkUrl *)
            | Absent => None
            | Present _ =>
                Some (setTimeout
                        {| Retry.kind := kind; Retry.currentUrl := currentUrl;
                           Retry.title := title; Retry.attempt := 1;
                           Retry.maxAttempts := 5 |} 500 w)
            end
        end
    end.

Section NavigationWatcher.
Context `{Platform}.

Definition checkUrl (v : View) (w : Watcher) : Watcher :=
  match href v with
  | Denied => w
  | Absent => w
  | Present currentUrl =>
      if negb (JsString.truthy currentUrl) || String.eqb currentUrl (lastUrlRef w)
      then w
      else
        let w :=
          {| lastUrlRef := currentUrl; lastRecordedUrlRef := lastRecordedUrlRef w;
             resolvedNamesRef := resolvedNamesRef w; timers := timers w;
             effects := effects w |} in
        if shouldRecordUrl currentUrl then
          if negb (String.eqb currentUrl (lastRecordedUrlRef w)) then
            let w :=
              {| lastUrlRef := lastUrlRef w; lastRecordedUrlRef := currentUrl;
                 resolvedNamesRef := resolvedNamesRef w; timers := timers w;
                 effects := effects w |} in
            let title := getTitleFromUrl currentUrl in
            match resolveBlock ListName v currentUrl title w with
            | Some w' => w'
            | None =>
            match resolveBlock CommunityName v currentUrl title w with
            | Some w' => w'
            | None =>
            match resolveBlock ProfileName v currentUrl title w with
            | Some w' => w'
            | None => onUrlChange currentUrl title w
            end end end
          else w
        else w
  end.

(** What happens to a hook instance: one of its triggers (load, popstate,
    hashchange, the poll) runs [checkUrl], or its [i]-th pending timer fires
    while the captured document shows [doc]. *)
Inductive Event : Type :=
| Trigger (v : View)
| TimerFires (i : nat) (doc : Document).

Definition step (w : Watcher) (e : Event) : Watcher :=
  match e with
  | Trigger v => checkUrl v w
  | TimerFires i doc =>
      match timers w !! i with
      | None => w
      | Some (_, callback) =>
          tryGetName doc callback
            {| lastUrlRef := lastUrlRef w;
               lastRecordedUrlRef := lastRecordedUrlRef w;
               resolvedNamesRef := resolvedNamesRef w;
               timers := delete i (timers w); effects := effects w |}
      end
  end.

Definition run (events : list Event) (w : Watcher) : Watcher :=
  foldl step w events.

End NavigationWatcher.

(** ** [hooks/useIframeInit]: the content filter *)

Module FilterRule.
Record t : Type := {
  id : string;
  name : string;
  enabled : bool;
  screenName : option string;
  textPattern : option string;
  isRetweet : option bool;
  hasMedia : option bool;
}.
End FilterRule.

(** An [article] element of the timeline, as far as the filter reads or
    writes it. *)
Module Post.
Record t : Type := {
  (* getAttribute of data-twitama-modoki-filtered *)
  processed : option string;
  (* style.display *)
  display : string;
  (* an element with data-testid socialContext exists *)
  socialContext : bool;
  (* href of the first link whose href starts with a slash *)
  firstLink : option string;
  (* href of the first such link inside the User-Name block *)
  userNameLink : option string;
  (* textContent of the element with data-testid tweetText *)
  tweetText : option string;
  (* a tweetPhoto, videoPlayer or card.wrapper element exists *)
  media : bool;
}.
End Post.

(** [href.replace] of one leading slash by the empty string *)
Definition dropLeadingSlash (href : string) : string :=
  match href with
  | String "/" rest => rest
  | _ => href
  end.

(** The first element of [s.split] at the slashes *)
Fixpoint firstSegment (s : string) : string :=
  match s with
  | "" => ""
  | String c s' => if Ascii.eqb c "/" then "" else String c (firstSegment s')
  end.

Section ContentFilter.
Context `{Platform}.

Definition screenNameMatches (post : Post.t) (wanted : string) : bool :=
  let isRetweet := Post.socialContext post in
  let userLink := if isRetweet then Post.firstLink post else Post.userNameLink post in
  match userLink with
  | Some href =>
      let screenName := firstSegment (dropLeadingSlash href) in
      String.eqb (String_toLowerCase screenName) (String_toLowerCase wanted)
  | None => false
  end.

Definition textPatternMatches (post : Post.t) (pattern : string) : bool :=
  try_catch
    (regex ← RegExp_new pattern;
     Some match Post.tweetText post with
          | Some text => regex text
          | None => false
          end)
    false.

Definition matchesFilter (post : Post.t) (filter : FilterRule.t) : bool :=
  if match whenTruthy (FilterRule.screenName filter) with
     | Some wanted => negb (screenNameMatches post wanted)
     | None => false
     end
  then false
  else if match whenTruthy (FilterRule.textPattern filter) with
          | Some pattern => negb (textPatternMatches post pattern)
          | None => false
          end
  then false
  else if match FilterRule.isRetweet filter with
          | Some wanted => negb (Bool.eqb wanted (Post.socialContext post))
          | None => false
          end
  then false
  else if match FilterRule.hasMedia filter with
          | Some wanted => negb (Bool.eqb wanted (Post.media post))
          | None => false
          end
  then false
  else true.

Definition hide (post : Post.t) : Post.t :=
  {| Post.processed := Post.processed post; Post.display := "none";
     Post.socialContext := Post.socialContext post;
     Post.firstLink := Post.firstLink post;
     Post.userNameLink := Post.userNameLink post;
     Post.tweetText := Post.tweetText post; Post.media := Post.media post |}.

Definition markProcessed (post : Post.t) : Post.t :=
  {| Post.processed := Some "1"; Post.display := Post.display post;
     Post.socialContext := Post.socialContext post;
     Post.firstLink := Post.firstLink post;
     Post.userNameLink := Post.userNameLink post;
     Post.tweetText := Post.tweetText post; Post.media := Post.media post |}.

(** The body of the [forEach] of [filterPosts]. *)
Definition filterPost (activeFilters : list FilterRule.t) (post : Post.t) : Post.t :=
  if bool_decide (Post.processed post = Some "1") then post
  else
    let matchedFilter := find (matchesFilter post) activeFilters in
    markProcessed (if isNull matchedFilter then post else hide post).

(** [filterPosts]; [posts] is what [querySelectorAll] returns. *)
Definition filterPosts (activeFilters : list FilterRule.t) (posts : list Post.t)
  : list Post.t :=
  map (filterPost activeFilters) posts.

(** [applyFilters], up to the end of its first [filterPosts]; when it gets
    that far, the observer runs [filterPosts] again on every mutation. *)
Definition applyFilters (posts : list Post.t) (filters : list FilterRule.t)
  : list Post.t :=
  let activeFilters := List.filter FilterRule.enabled filters in
  if (length activeFilters =? 0)%nat then posts
  else filterPosts activeFilters posts.

End ContentFilter.

(** ** A small platform

    An instance of [Platform] to run the model on: URLs of the shape
    [scheme://authority/path?query#fragment] without percent-encoding or
    dot-segment handling, patterns made of literal characters, [.], groups,
    [|] and the quantifiers [*], [+] and [?], numbers written in decimal
    digits, and a case mapping that lowers the letters A-Z.  It is used for
    the examples only. *)

Module Small.
Import Regex.

(** The part of [s] before the first character satisfying [p], and the rest
    starting at that character. *)
Fixpoint break (p : ascii → bool) (s : string) : string * string :=
  match s with
  | "" => ("", "")
  | String c s' =>
      if p c then ("", s)
      else let '(a, b) := break p s' in (String c a, b)
  end.

Fixpoint removeChars (p : ascii → bool) (s : string) : string :=
  match s with
  | "" => ""
  | String c s' => if p c then removeChars p s' else String c (removeChars p s')
  end.

Definition isTabOrNewline (c : ascii) : bool :=
  match c with
  | "009" | "010" | "013" => true
  | _ => false
  end%char.

Definition isLetter (c : ascii) : bool :=
  let n := N_of_ascii c in
  ((97 <=? n) && (n <=? 122) || (65 <=? n) && (n <=? 90))%N.

Definition isSchemeChar (c : ascii) : bool :=
  let n := N_of_ascii c in
  (isLetter c || (48 <=? n) && (n <=? 57) || (n =? 43) || (n =? 45) || (n =? 46))%N.

Definition isOneOf (cs : string) (c : ascii) : bool :=
  negb (JsString.all (fun d => negb (Ascii.eqb c d)) cs).

(** [key=value] pairs of a query string, in order. *)
Fixpoint pairs (fuel : nat) (query : string) : list (string * string) :=
  match fuel with
  | O => []
  | S fuel' =>
      match query with
      | "" => []
      | _ =>
          let '(item, rest) := break (Ascii.eqb "&") query in
          let '(key, value) := break (Ascii.eqb "=") item in
          (key, JsString.drop 1 value) :: pairs fuel' (JsString.drop 1 rest)
      end
  end.

Definition lookupParam (query name : string) : option string :=
  snd <$> find (fun kv => String.eqb (fst kv) name)
               (pairs (S (String.length query)) query).

Definition parseUrl (input : string) : option URL :=
  let input := JsString.trim (removeChars isTabOrNewline input) in
  let '(scheme, rest) := break (Ascii.eqb ":") input in
  match scheme, rest with
  | String c _, String ":" afterColon =>
      if isLetter c && JsString.all isSchemeChar scheme then
        if JsString.startsWith "//" afterColon then
          let '(authority, fromPath) :=
            break (isOneOf "/?#") (JsString.drop 2 afterColon) in
          let '(path, fromQuery) := break (isOneOf "?#") fromPath in
          let '(query, _) := break (Ascii.eqb "#") (JsString.drop 1 fromQuery) in
          let query := if JsString.startsWith "?" fromQuery then query else "" in
          if JsString.truthy authority then
            Some {| pathname := if JsString.truthy path then path else "/";
                    searchParams_get := lookupParam query |}
          else None
        else
          let '(path, fromQuery) := break (isOneOf "?#") afterColon in
          let '(query, _) := break (Ascii.eqb "#") (JsString.drop 1 fromQuery) in
          let query := if JsString.startsWith "?" fromQuery then query else "" in
          Some {| pathname := path; searchParams_get := lookupParam query |}
      else None
  | _, _ => None
  end.

(** The pattern parser: alternatives of sequences of quantified atoms. *)
Definition isMeta (c : ascii) : bool := isOneOf "()|*+?[]{}\^$." c.

Definition quantified (r : regex) (s : string) : regex * string :=
  match s with
  | String "*" s' => (Star r, s')
  | String "+" s' => (plus r, s')
  | String "?" s' => (opt r, s')
  | _ => (r, s)
  end.

Fixpoint parseAlt (fuel : nat) (s : string) : option (regex * string) :=
  match fuel with
  | O => None
  | S fuel' =>
      match parseSeq fuel' s with
      | Some (r1, String "|" s') =>
          match parseAlt fuel' s' with
          | Some (r2, s'') => Some (Alt r1 r2, s'')
          | None => None
          end
      | other => other
      end
  end
with parseSeq (fuel : nat) (s : string) : option (regex * string) :=
  match fuel with
  | O => None
  | S fuel' =>
      match s with
      | "" | String "|" _ | String ")" _ => Some (Eps, s)
      | _ =>
          match parseAtom fuel' s with
          | Some (r1, s') =>
              let '(r1, s') := quantified r1 s' in
              match parseSeq fuel' s' with
              | Some (r2, s'') => Some (Cat r1 r2, s'')
              | None => None
              end
          | None => None
          end
      end
  end
with parseAtom (fuel : nat) (s : string) : option (regex * string) :=
  match fuel with
  | O => None
  | S fuel' =>
      match s with
      | String "(" s' =>
          match parseAlt fuel' s' with
          | Some (r, String ")" s'') => Some (r, s'')
          | _ => None
          end
      | String "." s' => Some (dot, s')
      | String "\" (String c s') => if isMeta c then Some (char c, s') else None
      | String c s' => if isMeta c then None else Some (char c, s')
      | "" => None
      end
  end.

Definition compile (pattern : string) : option (string → bool) :=
  match parseAlt (3 * String.length pattern + 3) pattern with
  | Some (r, "") => Some (test (Unanchored r))
  | _ => None
  end.

Fixpoint digits (acc : Z) (s : string) : option Z :=
  match s with
  | "" => Some acc
  | String c s' =>
      let n := N_of_ascii c in
      if ((48 <=? n) && (n <=? 57))%N
      then digits (10 * acc + Z.of_N (n - 48)) s'
      else None
  end.

Definition parseNumber (value : string) : option Z :=
  match value with
  | "" => None
  | _ => digits 0 value
  end.

#[global] Instance platform : Platform :=
  {| URL_new := parseUrl; RegExp_new := compile; Number_parse := parseNumber;
     String_toLowerCase := JsString.toLowerCase |}.

End Small.

(** ** Notions used to state the properties *)

(** A string that [.] accepts throughout. *)
Definition noLineTerminator (s : string) : bool :=
  JsString.all (fun c => negb (Regex.isLineTerminator c)) s.

(** The path that the URL parser returns for [url] holds no raw line
    terminator: parsers drop tabs and newlines from their input and
    percent-encode what is not printable. *)
Definition printablePath `{Platform} (url : string) : Prop :=
  match URL_new url with
  | Some urlObj => noLineTerminator (pathname urlObj) = true
  | None => True
  end.

(** The shapes of path that are recorded, as the specification lists them. *)
Inductive RecordedShape : string → Prop :=
| shape_home : RecordedShape "/home"
| shape_notifications : RecordedShape "/notifications"
| shape_search : RecordedShape "/search"
| shape_bookmarks : RecordedShape "/i/bookmarks"
| shape_messages : RecordedShape "/messages"
| shape_messages_sub rest : RecordedShape ("/messages/" +:+ rest)
| shape_explore : RecordedShape "/explore"
| shape_explore_sub rest : RecordedShape ("/explore/" +:+ rest)
| shape_list id : id ≠ "" → RecordedShape ("/i/lists/" +:+ id)
| shape_community id : id ≠ "" → RecordedShape ("/i/communities/" +:+ id)
| shape_profile handle :
    (1 ≤ String.length handle ≤ 15)%nat →
    JsString.all Regex.isWordChar handle = true →
    RecordedShape ("/" +:+ handle).

(** Some pattern of an entry of the rate-limit table matches the target. *)
Definition entryMatches (target : string) (entry : RateLimitPattern) : bool :=
  existsb (fun pattern => Regex.test pattern target) (patterns entry).

(** The number of [onUrlChange] calls made so far for [url], and the number
    of pending retries that will call it for [url]. *)
Definition isCallFor (url : string) (e : Effect) : bool :=
  match e with
  | OnUrlChange u _ => String.eqb u url
  | _ => false
  end.
Definition callsFor (url : string) (w : Watcher) : nat :=
  length (List.filter (isCallFor url) (effects w)).
Definition isRetryFor (url : string) (timer : nat * Retry.t) : bool :=
  String.eqb (Retry.currentUrl (snd timer)) url.
Definition retriesFor (url : string) (w : Watcher) : nat :=
  length (List.filter (isRetryFor url) (timers w)).

(** An event during which the embedded view is still at [url]: a timer
    firing, or a trigger that reads [url] if it can read the location. *)
Definition observes `{Platform} (url : string) (e : Event) : Prop :=
  match e with
  | Trigger v => ∀ other, href v = Present other → other = url
  | TimerFires _ _ => True
  end.

(** Every call made and every retry pending is for a whitelisted URL. *)
Definition whitelistedOnly `{Platform} (w : Watcher) : Prop :=
  (∀ url title, OnUrlChange url title ∈ effects w → shouldRecordUrl url = true)
  ∧ (∀ timer, timer ∈ timers w → shouldRecordUrl (Retry.currentUrl (snd timer)) = true).

(** Projections of a list of effects, the latest first: the delays given to
    [setTimeout], the [onUrlChange] calls, the number of page queries. *)
Definition timeoutsOf (es : list Effect) : list nat :=
  omap (fun e => match e with SetTimeout ms => Some ms | _ => None end) es.
Definition callsOf (es : list Effect) : list (string * string) :=
  omap (fun e => match e with OnUrlChange u t => Some (u, t) | _ => None end) es.
Definition queriesOf (es : list Effect) : nat :=
  length (omap (fun e => match e with QuerySelector s => Some s | _ => None end) es).

(** No [@] in a string. *)
Definition noAt (s : string) : bool :=
  JsString.all (fun c => negb (Ascii.eqb c "@")) s.

(** The name in the text of a landmark: the trimmed text when it holds no
    [@], and otherwise the part of the trimmed text before its first [@],
    trimmed. *)
Definition nameBeforeAt (text name : string) : Prop :=
  let text := JsString.trim text in
  (noAt text = true ∧ name = text)
  ∨ ∃ before after,
      text = before +:+ "@" +:+ after
      ∧ noAt before = true
      ∧ name = JsString.trim before.

(** No slash in a string. *)
Definition noSlash (s : string) : bool :=
  JsString.all (fun c => negb (Ascii.eqb c "/")) s.

(** The handle that a link to an account, or to something of an account,
    names: what stands between the leading slash of the [href], if it has
    one, and the next slash or the end. *)
Definition isHandleOf (handle href : string) : Prop :=
  noSlash handle = true
  ∧ ∃ lead rest,
      href = lead +:+ handle +:+ rest
      ∧ (lead = "/" ∨ (lead = "" ∧ (handle ≠ "" ∨ rest = "")))
      ∧ (rest = "" ∨ ∃ tail, rest = "/" +:+ tail).

(** An extraction attempt that yields no usable list name. *)
Definition listNameMissing (doc : Document) : Prop :=
  whenTruthy (getListName doc) = None.

(** The pending retry of the list block at its [attempt]-th attempt. *)
Definition listRetry (currentUrl title : string) (attempt : nat) : Retry.t :=
  {| Retry.kind := ListName; Retry.currentUrl := currentUrl;
     Retry.title := title; Retry.attempt := attempt; Retry.maxAttempts := 5 |}.

(** ** Example data *)

Module Example.

Definition listUrl : string := "https://x.com/i/lists/12345".

(** A column whose stored title is the title derived from its list URL. *)
Definition storedDefaultColumn : Column.t :=
  {| Column.id := "column-1"; Column.title := "List";
     Column.currentUrl := listUrl; Column.isSettings := false |}.

Definition viewWithStoredDefault : View :=
  {| href := Present listUrl; document := Present ();
     columnId := Some "column-1"; columns := [storedDefaultColumn] |}.

Definition freshView : View :=
  {| href := Present listUrl; document := Present ();
     columnId := None; columns := [] |}.

Definition homeView : View :=
  {| href := Present "https://x.com/home"; document := Present ();
     columnId := None; columns := [] |}.

Definition bookmarksView : View :=
  {| href := Present "https://x.com/i/bookmarks"; document := Present ();
     columnId := None; columns := [] |}.

Definition nothingYet : Document := fun _ => NoElement.
Definition myList : Document := fun _ => Element "My List@someuser".

Definition homeTimelineTarget : string :=
  "https://x.com/i/api/graphql/q/HomeLatestTimeline".

(** A target that names the home timeline and, in its query, a post creation. *)
Definition twoPatternsTarget : string :=
  "https://x.com/i/api/graphql/q/HomeLatestTimeline?ref=CreateTweet".

(** A response that carries the remaining count only. *)
Definition remainingOnly : Details :=
  {| url := homeTimelineTarget;
     responseHeaders :=
       Some [ {| HttpHeader.name := "content-type";
                 HttpHeader.value := Some "application/json" |};
              {| HttpHeader.name := "X-Rate-Limit-Remaining";
                 HttpHeader.value := Some "5" |} ] |}.

(** A response without rate-limit headers. *)
Definition noQuota : Details :=
  {| url := homeTimelineTarget;
     responseHeaders :=
       Some [ {| HttpHeader.name := "content-type";
                 HttpHeader.value := Some "application/json" |} ] |}.

(** A response that repeats the stored remaining count. *)
Definition sameRemaining : Details :=
  {| url := homeTimelineTarget;
     responseHeaders :=
       Some [ {| HttpHeader.name := "x-rate-limit-remaining";
                 HttpHeader.value := Some "50" |} ] |}.

Definition priorBackground : Background :=
  {| rateLimitState :=
       <[homeLatestTimeline :=
           {| RateLimitInfo.limit := Some 100;
              RateLimitInfo.remaining := Some 50;
              RateLimitInfo.resetAt := Some 1700000000;
              RateLimitInfo.lastUpdated := Some 1699999000000 |}]>
         DEFAULT_RATE_LIMIT_STATE;
     storageWrites := [] |}.

Definition spamRule : FilterRule.t :=
  {| FilterRule.id := "filter-1"; FilterRule.name := "spam";
     FilterRule.enabled := true; FilterRule.screenName := None;
     FilterRule.textPattern := Some "(spam|ad)";
     FilterRule.isRetweet := None; FilterRule.hasMedia := None |}.

Definition invalidRule : FilterRule.t :=
  {| FilterRule.id := "filter-2"; FilterRule.name := "broken";
     FilterRule.enabled := true; FilterRule.screenName := None;
     FilterRule.textPattern := Some "((";
     FilterRule.isRetweet := None; FilterRule.hasMedia := None |}.

(** A rule for one account, written with capitals. *)
Definition accountRule : FilterRule.t :=
  {| FilterRule.id := "filter-3"; FilterRule.name := "someone";
     FilterRule.enabled := true; FilterRule.screenName := Some "SomeUser";
     FilterRule.textPattern := None;
     FilterRule.isRetweet := None; FilterRule.hasMedia := None |}.

(** A post whose author link leads to one of the author's posts. *)
Definition postOf (href : string) : Post.t :=
  {| Post.processed := None; Post.display := "";
     Post.socialContext := false; Post.firstLink := Some "/other";
     Post.userNameLink := Some href; Post.tweetText := Some "hello";
     Post.media := false |}.

Definition post (text : string) : Post.t :=
  {| Post.processed := None; Post.display := "";
     Post.socialContext := false; Post.firstLink := Some "/someuser";
     Post.userNameLink := Some "/someuser"; Post.tweetText := Some text;
     Post.media := false |}.

End Example.

(** * Further parts of the sources

  What the parts above call or are called by:

  - [src/store/index.ts]              (the column and filter actions),
  - [components/RateLimitPanel]       ([getRelevantCategories], the rows),
  - [components/columns/GenericColumn]  ([handleUrlChange]),
  - [components/columns/SettingsColumn] ([handleDragEnd], [handleSaveFilter]),
  - [src/content/index.tsx]           (mounting on the launch page),

  and runs of the rate-limit listener over several requests. *)

(** ** [src/background/index.ts]: the listener over a series of requests *)

Section RateLimitRuns.
Context `{Platform}.

(** The listener called once for each completed request, in their order;
    each request comes with what [Date.now()] returns while it is handled. *)
Definition handleAll (requests : list (Z * Details)) (bg : Background) : Background :=
  foldl (fun bg request => onHeadersReceived (fst request) (snd request) bg)
        bg requests.

End RateLimitRuns.

(** A header list with every name written in lower case. *)
Definition lowerCaseNames (headers : list HttpHeader.t) : list HttpHeader.t :=
  map (fun header =>
         {| HttpHeader.name := JsString.toLowerCase (HttpHeader.name header);
            HttpHeader.value := HttpHeader.value header |})
      headers.

(** A record of which nothing has been observed. *)
Definition neverObserved (info : RateLimitInfo.t) : Prop :=
  RateLimitInfo.limit info = None
  ∧ RateLimitInfo.remaining info = None
  ∧ RateLimitInfo.resetAt info = None.

(** ** [src/hooks/useIframeUrlSync.ts]: the three blocks side by side *)

(** The block of [checkUrl] that a URL enters: the first whose guard holds. *)
Definition blockOf (currentUrl : string) : option NameKind :=
  if guard ListName currentUrl then Some ListName
  else if guard CommunityName currentUrl then Some CommunityName
  else if guard ProfileName currentUrl then Some ProfileName
  else None.

(** The pending retry of a block at its [attempt]-th attempt. *)
Definition retryOf (kind : NameKind) (currentUrl title : string) (attempt : nat)
  : Retry.t :=
  {| Retry.kind := kind; Retry.currentUrl := currentUrl;
     Retry.title := title; Retry.attempt := attempt; Retry.maxAttempts := 5 |}.

(** An attempt of a block that yields no usable name. *)
Definition nameMissing (kind : NameKind) (doc : Document) : Prop :=
  whenTruthy (extractor kind doc) = None.

(** A trigger that reads a URL outside the whitelist, or no URL at all. *)
Definition offList `{Platform} (v : View) : Prop :=
  ∀ currentUrl, href v = Present currentUrl → shouldRecordUrl currentUrl = false.

(** ** [components/RateLimitPanel]: which quotas a column shows *)

Record RateLimitItem : Type := {
  key : RateLimitCategory;
  label : string;
  icon : string;
  shortLabel : string;
}.

Definition RATE_LIMIT_ITEMS : list RateLimitItem :=
  [ {| key := homeLatestTimeline; label := "ホーム時系列"; icon := "🏠";
       shortLabel := "Home" |};
    {| key := userTimeline; label := "ユーザーTL"; icon := "👤";
       shortLabel := "User" |};
    {| key := listTweets; label := "リスト"; icon := "📋"; shortLabel := "List" |};
    {| key := searchLatest; label := "検索"; icon := "🔍"; shortLabel := "Search" |};
    {| key := dmFetch; label := "DM"; icon := "💬"; shortLabel := "DM" |};
    {| key := accountSettings; label := "アカウント設定"; icon := "⚙️";
       shortLabel := "Account" |};
    {| key := badgeCount; label := "バッジ"; icon := "🔔"; shortLabel := "Badge" |};
    {| key := tweetPost; label := "投稿"; icon := "✏️"; shortLabel := "Post" |} ].

(** [array.includes(x)] *)
Definition Array_includes {A : Type} `{EqDecision A} (xs : list A) (x : A) : bool :=
  bool_decide (x ∈ xs).

Section RateLimitPanel.
Context `{Platform}.

(** The [Set] of the function is a list without repetition, in insertion
    order; at most one category is added to it, and [delete] filters. *)
Definition getRelevantCategories (url : string)
    (excludeCategories : list RateLimitCategory) : list RateLimitCategory :=
  let columnType := getColumnTypeFromUrl url in
  let categories :=
    match columnType with
    | ColumnType.home => [homeLatestTimeline]
    | ColumnType.notifications => []
    | ColumnType.messages => [dmFetch]
    | ColumnType.search => [searchLatest]
    | ColumnType.list => [listTweets]
    | ColumnType.explore => [searchLatest]
    | ColumnType.bookmarks => []
    | ColumnType.community => []
    | ColumnType.user_profile => [userTimeline]
    | ColumnType.unknown => []
    end in
  foldl (fun categories category =>
           List.filter (fun kept => negb (bool_decide (kept = category))) categories)
        categories excludeCategories.

(** The entries of [RATE_LIMIT_ITEMS] that the panel turns into rows;
    [excludeCategories] is the prop or its default. *)
Definition items (currentUrl : string)
    (excludeCategories : list RateLimitCategory)
    (includeCategories : option (list RateLimitCategory)) : list RateLimitItem :=
  let relevantCategories :=
    match includeCategories with
    | Some includeCategories => includeCategories
    | None => getRelevantCategories currentUrl excludeCategories
    end in
  List.filter (fun item => Array_includes relevantCategories (key item)) RATE_LIMIT_ITEMS.

End RateLimitPanel.

(** The default of the [excludeCategories] prop. *)
Definition defaultExcludeCategories : list RateLimitCategory :=
  [badgeCount; accountSettings; tweetPost].

(** ** [src/store/index.ts]: the columns and filters of the store *)

(** [array.findIndex(p)], with -1 for no such element *)
Definition findIndex {A : Type} (p : A → bool) (xs : list A) : Z :=
  match list_find (fun x => p x = true) xs with
  | Some (i, _) => Z.of_nat i
  | None => -1
  end.

(** Where [array.splice(start, ...)] starts on an array of [len] elements. *)
Definition spliceStart (len : nat) (start : Z) : nat :=
  Z.to_nat (if start <? 0 then Z.max (Z.of_nat len + start) 0
            else Z.min start (Z.of_nat len)).

(** [array.slice(0, end)] and [array.slice(start)] for an index that
    [findIndex] found. *)
Definition sliceTo {A : Type} (xs : list A) (index : Z) : list A :=
  take (Z.to_nat index) xs.
Definition sliceFrom {A : Type} (xs : list A) (index : Z) : list A :=
  drop (Z.to_nat index) xs.

(** The [columns] that [addColumn] sets. *)
Definition addColumn (column : Column.t) (columns : list Column.t) : list Column.t :=
  let settingsIndex := findIndex Column.isSettings columns in
  if negb (settingsIndex =? -1)
  then sliceTo columns settingsIndex ++ column :: sliceFrom columns settingsIndex
  else columns ++ [column].

(** The [columns] and the [currentColumnIndex] that [removeColumn] sets. *)
Definition removeColumn (columnId : string) (columns : list Column.t)
    (currentColumnIndex : Z) : list Column.t * Z :=
  let newColumns :=
    List.filter (fun c => negb (String.eqb (Column.id c) columnId)) columns in
  let deletedIndex := findIndex (fun c => String.eqb (Column.id c) columnId) columns in
  let newIndex :=
    if (deletedIndex <=? currentColumnIndex) && (0 <? currentColumnIndex)
    then currentColumnIndex - 1
    else currentColumnIndex in
  (newColumns, newIndex).

(** The [columns] that [updateColumnUrl] sets; [title] is optional. *)
Definition updateColumnUrl (columnId url : string) (title : option string)
    (columns : list Column.t) : list Column.t :=
  map (fun c =>
         if String.eqb (Column.id c) columnId then
           {| Column.id := Column.id c;
              Column.title := match whenTruthy title with
                              | Some title => title
                              | None => Column.title c
                              end;
              Column.currentUrl := url;
              Column.isSettings := Column.isSettings c |}
         else c)
      columns.

(** The [columns] that [moveColumn] sets.  When the first [splice] removes
    nothing, the second inserts [undefined] and the result is no list of
    columns: [None]. *)
Definition moveColumn (fromIndex toIndex : Z) (columns : list Column.t)
  : option (list Column.t) :=
  let from := spliceStart (length columns) fromIndex in
  match columns !! from with
  | None => None
  | Some movedColumn =>
      let newColumns := delete from columns in
      let to := spliceStart (length newColumns) toIndex in
      Some (take to newColumns ++ movedColumn :: drop to newColumns)
  end.




(** The [currentColumnIndex] that [loadFromStorage] sets, from the stored
    index, if any, and the stored columns. *)
Definition restoredColumnIndex (currentColumnIndex : option Z)
    (columns : list Column.t) : Z :=
  let restoredColumnIndex :=
    match currentColumnIndex with
    | Some currentColumnIndex => currentColumnIndex
    | None => 0
    end in
  if Z.of_nat (length columns) <=? restoredColumnIndex then 0
  else restoredColumnIndex.

(** [handleUrlChange] of a column, which its watcher gets as [onUrlChange]:
    the [columns] it leaves in the store. *)
Definition handleUrlChange (columnId url title : string)
    (columns : list Column.t) : list Column.t :=
  updateColumnUrl columnId url (Some title) columns.

(** The ids of the columns are pairwise different. *)
Definition distinctIds (columns : list Column.t) : Prop :=
  NoDup (Column.id <$> columns).

(** [handleDragEnd] of the settings column: the [columns] it leaves in the
    store when the dragged item [activeId] is dropped over [overId]. *)
Definition handleDragEnd (activeId : string) (overId : option string)
    (columns : list Column.t) : option (list Column.t) :=
  match overId with
  | Some overId =>
      if negb (String.eqb activeId overId) then
        let oldIndex := findIndex (fun col => String.eqb (Column.id col) activeId) columns in
        let newIndex := findIndex (fun col => String.eqb (Column.id col) overId) columns in
        if negb (oldIndex =? -1) && negb (newIndex =? -1)
        then moveColumn oldIndex newIndex columns
        else Some columns
      else Some columns
  | None => Some columns
  end.

(** The columns of the store once the [onUrlChange] calls among the effects
    of a column's watcher, the latest first, have gone through
    [handleUrlChange]. *)
Definition afterCalls (columnId : string) (effects : list Effect)
    (columns : list Column.t) : list Column.t :=
  foldr (fun effect columns =>
           match effect with
           | OnUrlChange url title => handleUrlChange columnId url title columns
           | _ => columns
           end)
        columns effects.

(** ** [String.prototype.trim]: what it may remove *)

(** A byte of a white-space character: one of the six of one byte, or a
    byte of a longer sequence. *)
Definition blankByte (c : ascii) : bool :=
  JsString.isSpace c || (128 <=? N_of_ascii c)%N.

(** ** [src/content/index.tsx]: mounting on the launch page *)

(** [window.location], as far as the content script reads it. *)
Module Location.
Record t : Type := {
  href : string;
  pathname : string;
}.
End Location.

(** The module-level variables of the content script and what it has done
    to the page. *)
Record ContentScript : Type := {
  lastUrl : string;
  (* an element with the id twitama-modoki-root is in the body *)
  rootElement : bool;
  (* the body has the class twitama-modoki-active *)
  bodyActive : bool;
  (* titleObserver is not null *)
  titleObserver : bool;
  (* the style elements appended to the head *)
  styleElements : nat;
}.

Definition shouldActivate (location : Location.t) : bool :=
  JsString.startsWith "/run-twitama-modoki" (Location.pathname location).

Definition initTwitamaModoki (location : Location.t) (s : ContentScript)
  : ContentScript :=
  if negb (shouldActivate location) then s
  else
    {| lastUrl := lastUrl s; rootElement := true; bodyActive := true;
       titleObserver := true; styleElements := S (styleElements s) |}.

Definition destroyTwitamaModoki (s : ContentScript) : ContentScript :=
  {| lastUrl := lastUrl s; rootElement := false; bodyActive := false;
     titleObserver := false; styleElements := styleElements s |}.

(** The body of the module: [loading] tells whether [document.readyState]
    is loading, in which case the initialisation waits for the
    DOMContentLoaded event. *)
Definition startContentScript (loading : bool) (location : Location.t)
  : ContentScript :=
  let s := {| lastUrl := ""; rootElement := false; bodyActive := false;
              titleObserver := false; styleElements := 0 |} in
  let s := if loading then s else initTwitamaModoki location s in
  {| lastUrl := Location.href location; rootElement := rootElement s;
     bodyActive := bodyActive s; titleObserver := titleObserver s;
     styleElements := styleElements s |}.

(** The callback of the observer of the document. *)
Definition onMutation (location : Location.t) (s : ContentScript) : ContentScript :=
  let url := Location.href location in
  if negb (String.eqb url (lastUrl s)) then
    let s := {| lastUrl := url; rootElement := rootElement s;
                bodyActive := bodyActive s; titleObserver := titleObserver s;
                styleElements := styleElements s |} in
    if shouldActivate location then
      if negb (rootElement s) then initTwitamaModoki location s else s
    else
      if rootElement s then destroyTwitamaModoki s else s
  else s.

Inductive PageEvent : Type :=
| Mutation (location : Location.t)
| DOMContentLoaded (location : Location.t).

Definition onPageEvent (s : ContentScript) (e : PageEvent) : ContentScript :=
  match e with
  | Mutation location => onMutation location s
  | DOMContentLoaded location => initTwitamaModoki location s
  end.

(** The path of a location is determined by its [href]. *)
Definition samePathForSameHref (locations : list Location.t) : Prop :=
  ∀ l1 l2, l1 ∈ locations → l2 ∈ locations →
    Location.href l1 = Location.href l2 →
    Location.pathname l1 = Location.pathname l2.

(** ** [components/columns/SettingsColumn]: saving a filter *)

Module FilterForm.
Record t : Type := {
  name : string;
  screenName : string;
  textPattern : string;
  isRetweet : option bool;
  hasMedia : option bool;
}.
End FilterForm.

(** [s || undefined] *)
Definition orUndefined (s : string) : option string :=
  if JsString.truthy s then Some s else None.

(** What [handleSaveFilter] asks of the store: nothing, after an alert, or
    [updateFilter] with the five keys of the form, or [addFilter]. *)
Inductive SaveRequest : Type :=
| Alerted
| UpdateFilter (filterId name : string) (screenName textPattern : option string)
    (isRetweet hasMedia : option bool)
| AddFilter (filter : FilterRule.t).

Section SaveFilter.
Context `{Platform}.

(** [newId] is what the template filter-[Date.now()] evaluates to. *)
Definition handleSaveFilter (filterForm : FilterForm.t)
    (editingFilterId : option string) (newId : string) : SaveRequest :=
  if negb (JsString.truthy (JsString.trim (FilterForm.name filterForm)))
  then Alerted
  else if JsString.truthy (FilterForm.textPattern filterForm)
          && isNull (RegExp_new (FilterForm.textPattern filterForm))
  then Alerted
  else if negb (JsString.truthy (FilterForm.screenName filterForm))
          && negb (JsString.truthy (FilterForm.textPattern filterForm))
          && isNull (FilterForm.isRetweet filterForm)
          && isNull (FilterForm.hasMedia filterForm)
  then Alerted
  else
    match whenTruthy editingFilterId with
    | Some editingFilterId =>
        UpdateFilter editingFilterId
          (JsString.trim (FilterForm.name filterForm))
          (orUndefined (JsString.trim (FilterForm.screenName filterForm)))
          (orUndefined (JsString.trim (FilterForm.textPattern filterForm)))
          (FilterForm.isRetweet filterForm)
          (FilterForm.hasMedia filterForm)
    | None =>
        AddFilter
          {| FilterRule.id := newId;
             FilterRule.name := JsString.trim (FilterForm.name filterForm);
             FilterRule.enabled := true;
             FilterRule.screenName :=
               orUndefined (JsString.trim (FilterForm.screenName filterForm));
             FilterRule.textPattern :=
               orUndefined (JsString.trim (FilterForm.textPattern filterForm));
             FilterRule.isRetweet := FilterForm.isRetweet filterForm;
             FilterRule.hasMedia := FilterForm.hasMedia filterForm |}
    end.

End SaveFilter.

(** ** Further example data *)

Module Sample.

Definition homeColumn : Column.t :=
  {| Column.id := "column-1"; Column.title := "Home";
     Column.currentUrl := "https://x.com/home"; Column.isSettings := false |}.

Definition listColumn : Column.t :=
  {| Column.id := "column-2"; Column.title := "List";
     Column.currentUrl := Example.listUrl; Column.isSettings := false |}.

Definition settingsColumn : Column.t :=
  {| Column.id := "settings"; Column.title := "設定";
     Column.currentUrl := ""; Column.isSettings := true |}.

Definition threeColumns : list Column.t :=
  [homeColumn; listColumn; settingsColumn].

Definition profileUrl : string := "https://x.com/someuser".

Definition profileView : View :=
  {| href := Present profileUrl; document := Present ();
     columnId := None; columns := [] |}.

(** A profile page once its user-name block is there. *)
Definition profilePage : Document :=
  fun selector =>
    match selector with
    | UserName => Element "Some User@someuser"
    | TopNavBar => NoElement
    end.

(** The view while a single post is open. *)
Definition postView : View :=
  {| href := Present "https://x.com/someuser/status/1"; document := Present ();
     columnId := None; columns := [] |}.

(** A response whose header names are in capitals. *)
Definition capitalHeaders : list HttpHeader.t :=
  [ {| HttpHeader.name := "X-RATE-LIMIT-LIMIT"; HttpHeader.value := Some "100" |} ].

Definition homeLocation : Location.t :=
  {| Location.href := "https://x.com/home"; Location.pathname := "/home" |}.

Definition launchLocation : Location.t :=
  {| Location.href := "https://x.com/run-twitama-modoki";
     Location.pathname := "/run-twitama-modoki" |}.

(** A form with a name and one blank as screen name. *)
Definition blankForm : FilterForm.t :=
  {| FilterForm.name := "everything"; FilterForm.screenName := " ";
     FilterForm.textPattern := ""; FilterForm.isRetweet := None;
     FilterForm.hasMedia := None |}.

End Sample.
(** * Properties *)

(** ** Strings *)

Lemma str_app_nil_l (s : string) : "" +:+ s = s.
Proof. reflexivity. Qed.

Lemma str_app_cons (c : ascii) (s t : string) :
  String c s +:+ t = String c (s +:+ t).
Proof. reflexivity. Qed.

Lemma str_app_nil_r (s : string) : s +:+ "" = s.
Proof. induction s as [|c s IH]; [done | by rewrite str_app_cons, IH]. Qed.

Lemma str_app_assoc (s1 s2 s3 : string) : (s1 +:+ s2) +:+ s3 = s1 +:+ s2 +:+ s3.
Proof. induction s1 as [|c s1 IH]; [done | by rewrite !str_app_cons, IH]. Qed.

Lemma str_app_length (s1 s2 : string) :
  String.length (s1 +:+ s2) = (String.length s1 + String.length s2)%nat.
Proof.
  induction s1 as [|c s1 IH]; [done |].
  rewrite str_app_cons. simpl. by rewrite IH.
Qed.

Lemma str_app_eq_nil (s1 s2 : string) : s1 +:+ s2 = "" → s1 = "" ∧ s2 = "".
Proof. by destruct s1. Qed.

Lemma all_app p s1 s2 :
  JsString.all p (s1 +:+ s2) = JsString.all p s1 && JsString.all p s2.
Proof.
  induction s1 as [|c s1 IH]; [done |].
  rewrite str_app_cons. simpl. by rewrite IH, andb_assoc.
Qed.

Lemma take_drop (n : nat) (s : string) : JsString.take n s +:+ JsString.drop n s = s.
Proof.
  revert s; induction n as [|n IH]; intros [|c s]; try done.
  simpl. by rewrite str_app_cons, IH.
Qed.

Lemma take_length (n : nat) (s : string) :
  (n ≤ String.length s)%nat → String.length (JsString.take n s) = n.
Proof.
  revert s; induction n as [|n IH]; intros [|c s] Hn; simpl in *; try done; try lia.
  rewrite IH; [done | lia].
Qed.

Lemma startsWith_spec p s : JsString.startsWith p s = true ↔ ∃ t, s = p +:+ t.
Proof.
  revert s; induction p as [|a p IH]; intros s; simpl.
  - split; [intros _; by exists s | done].
  - destruct s as [|b s].
    + split; [done | intros [t Ht]; discriminate].
    + rewrite andb_true_iff, Ascii.eqb_eq, IH. split.
      * intros [-> [t ->]]. by exists t.
      * intros [t Ht]. rewrite str_app_cons in Ht. injection Ht as -> ->.
        split; [done | by exists t].
Qed.

Lemma includes_spec p s :
  JsString.includes p s = true ↔ ∃ u v, s = u +:+ p +:+ v.
Proof.
  induction s as [|c s IH].
  - simpl. rewrite orb_false_r, startsWith_spec. split.
    + intros [t Ht]. by exists "", t.
    + intros (u & v & Huv). destruct u; [by exists v | discriminate].
  - cbn [JsString.includes]. rewrite orb_true_iff, startsWith_spec, IH. split.
    + intros [[t Ht] | (u & v & ->)].
      * by exists "", t.
      * by exists (String c u), v.
    + intros (u & v & Huv). destruct u as [|d u].
      * left. by exists v.
      * right. rewrite str_app_cons in Huv. injection Huv as -> ->. by exists u, v.
Qed.

Lemma toLowerCase_app s1 s2 :
  JsString.toLowerCase (s1 +:+ s2)
  = JsString.toLowerCase s1 +:+ JsString.toLowerCase s2.
Proof.
  induction s1 as [|c s1 IH]; [done |].
  rewrite str_app_cons. simpl. by rewrite str_app_cons, IH.
Qed.

(** A lower-cased string splits only where its original splits. *)
Lemma toLowerCase_split s a b :
  JsString.toLowerCase s = a +:+ b →
  ∃ s1 s2, s = s1 +:+ s2 ∧ JsString.toLowerCase s1 = a ∧ JsString.toLowerCase s2 = b.
Proof.
  revert s; induction a as [|c a IH]; intros s Hs.
  - exists "", s. by rewrite !str_app_nil_l in *.
  - destruct s as [|d s]; [discriminate |].
    rewrite str_app_cons in Hs. simpl in Hs. injection Hs as Hc Hs.
    destruct (IH _ Hs) as (s1 & s2 & -> & <- & <-).
    exists (String d s1), s2. by rewrite str_app_cons; simpl; rewrite Hc.
Qed.

(** ** Regular expressions: the matcher decides the language *)

Section RegexFacts.
Import Regex.

Lemma lang_Void s : lang Void s ↔ False.
Proof. split; [inversion 1 | done]. Qed.

Lemma lang_Eps s : lang Eps s ↔ s = "".
Proof. split; [by inversion 1 | intros ->; constructor]. Qed.

Lemma lang_Chr p s : lang (Chr p) s ↔ ∃ c, s = String c "" ∧ p c = true.
Proof.
  split.
  - inversion 1; subst. eauto.
  - intros (c & -> & Hc). by constructor.
Qed.

Lemma lang_Cat r1 r2 s :
  lang (Cat r1 r2) s ↔ ∃ s1 s2, s = s1 +:+ s2 ∧ lang r1 s1 ∧ lang r2 s2.
Proof.
  split.
  - inversion 1; subst. eauto.
  - intros (s1 & s2 & -> & H1 & H2). by constructor.
Qed.

Lemma lang_Alt r1 r2 s : lang (Alt r1 r2) s ↔ lang r1 s ∨ lang r2 s.
Proof.
  split.
  - inversion 1; subst; auto.
  - intros [H1 | H2]; [by apply lang_alt_l | by apply lang_alt_r].
Qed.

Lemma nullable_lang r : nullable r = true ↔ lang r "".
Proof.
  induction r as [| |p|r1 IH1 r2 IH2|r1 IH1 r2 IH2|r IH]; simpl.
  - rewrite lang_Void. split; [discriminate | done].
  - by rewrite lang_Eps.
  - rewrite lang_Chr. split; [discriminate | by intros (c & [=] & _)].
  - rewrite andb_true_iff, IH1, IH2, lang_Cat. split.
    + intros [H1 H2]. by exists "", "".
    + intros (s1 & s2 & Hs & H1 & H2).
      symmetry in Hs. apply str_app_eq_nil in Hs as [-> ->]. done.
  - by rewrite orb_true_iff, IH1, IH2, lang_Alt.
  - split; [intros _; constructor | done].
Qed.

(** A non-empty word of a starred language starts with a non-empty word of
    the language itself. *)
Lemma lang_Star_cons r c s :
  lang (Star r) (String c s) →
  ∃ s1 s2, s = s1 +:+ s2 ∧ lang r (String c s1) ∧ lang (Star r) s2.
Proof.
  intros H. remember (Star r) as r' eqn:Hr. remember (String c s) as t eqn:Ht.
  revert s Ht.
  induction H as [| | | | | |r0 u1 u2 H1 _ H2 IH2]; intros w Ht;
    try discriminate.
  injection Hr as ->. destruct u1 as [|d u1].
  - rewrite str_app_nil_l in Ht. by apply IH2.
  - rewrite str_app_cons in Ht. injection Ht as -> <-. eauto.
Qed.

Lemma deriv_lang c r s : lang (deriv c r) s ↔ lang r (String c s).
Proof.
  revert s. induction r as [| |p|r1 IH1 r2 IH2|r1 IH1 r2 IH2|r IH]; intros s; simpl.
  - by rewrite !lang_Void.
  - rewrite lang_Void, lang_Eps. split; [done | discriminate].
  - rewrite lang_Chr. destruct (p c) eqn:Hp.
    + rewrite lang_Eps. split.
      * intros ->. eauto.
      * by intros (d & [= -> ->] & _).
    + rewrite lang_Void. split; [done |].
      intros (d & [= -> ->] & Hd). congruence.
  - rewrite lang_Cat. destruct (nullable r1) eqn:Hn.
    + rewrite lang_Alt, lang_Cat. split.
      * intros [(s1 & s2 & -> & H1 & H2) | H2].
        -- exists (String c s1), s2. by rewrite IH1 in H1.
        -- exists "", (String c s). rewrite IH2 in H2.
           by apply nullable_lang in Hn.
      * intros (s1 & s2 & Hs & H1 & H2). destruct s1 as [|d s1].
        -- rewrite str_app_nil_l in Hs. subst s2. right. by apply IH2.
        -- rewrite str_app_cons in Hs. injection Hs as <- ->. left.
           exists s1, s2. by rewrite IH1.
    + rewrite lang_Cat. split.
      * intros (s1 & s2 & -> & H1 & H2).
        exists (String c s1), s2. by rewrite IH1 in H1.
      * intros (s1 & s2 & Hs & H1 & H2). destruct s1 as [|d s1].
        -- apply nullable_lang in H1. congruence.
        -- rewrite str_app_cons in Hs. injection Hs as <- ->.
           exists s1, s2. by rewrite IH1.
  - by rewrite !lang_Alt, IH1, IH2.
  - rewrite lang_Cat. split.
    + intros (s1 & s2 & -> & H1 & H2). rewrite IH in H1.
      rewrite <- str_app_cons. by constructor.
    + intros (s1 & s2 & -> & H1 & H2)%lang_Star_cons.
      exists s1, s2. by rewrite IH.
Qed.

Theorem matchb_lang r s : matchb r s = true ↔ lang r s.
Proof.
  revert r. induction s as [|c s IH]; intros r; simpl.
  - apply nullable_lang.
  - by rewrite IH, deriv_lang.
Qed.

End RegexFacts.

(** ** Regular expressions: what the building blocks denote *)

Section RegexBlocks.
Import Regex.

Lemma bool_eq_iff (b1 b2 : bool) : (b1 = true ↔ b2 = true) → b1 = b2.
Proof. destruct b1, b2; intuition congruence. Qed.

Lemma lang_lit p s : lang (lit p) s ↔ s = p.
Proof.
  revert s. induction p as [|c p IH]; intros s; simpl.
  - apply lang_Eps.
  - unfold char. rewrite lang_Cat. split.
    + intros (s1 & s2 & -> & (d & -> & Hd)%lang_Chr & ->%IH).
      apply Ascii.eqb_eq in Hd as ->. done.
    + intros ->. exists (String c ""), p. split_and!; [done | | by apply IH].
      apply lang_Chr. exists c. by rewrite Ascii.eqb_refl.
Qed.

Lemma lang_lit_i p s :
  lang (lit_i p) s ↔ JsString.toLowerCase s = JsString.toLowerCase p.
Proof.
  revert s. induction p as [|c p IH]; intros s; simpl.
  - rewrite lang_Eps. by destruct s.
  - unfold char_i. rewrite lang_Cat. split.
    + intros (s1 & s2 & -> & (d & -> & Hd)%lang_Chr & Hs2%IH).
      apply Ascii.eqb_eq in Hd. rewrite str_app_cons, str_app_nil_l. simpl. congruence.
    + destruct s as [|d s]; [discriminate |]. simpl. intros [= Hd Hs].
      exists (String d ""), s. split_and!; [done | | by apply IH].
      apply lang_Chr. exists d. by rewrite Hd, Ascii.eqb_refl.
Qed.

Lemma lang_Star_Chr p s : lang (Star (Chr p)) s ↔ JsString.all p s = true.
Proof.
  induction s as [|c s IH]; simpl.
  - split; [done | intros _; constructor].
  - rewrite andb_true_iff, <- IH. split.
    + intros (s1 & s2 & -> & (d & [= -> ->] & Hd)%lang_Chr & H2)%lang_Star_cons.
      by rewrite str_app_nil_l.
    + intros [Hc Hs]. change (String c s) with (String c "" +:+ s).
      constructor; [by constructor | done].
Qed.

Lemma lang_plus_Chr p s :
  lang (plus (Chr p)) s ↔ s ≠ "" ∧ JsString.all p s = true.
Proof.
  unfold plus. rewrite lang_Cat. split.
  - intros (s1 & s2 & -> & (d & -> & Hd)%lang_Chr & H2%lang_Star_Chr).
    rewrite str_app_cons, str_app_nil_l. simpl. by rewrite Hd, H2.
  - intros [Hne Hall]. destruct s as [|c s]; [done |]. simpl in Hall.
    apply andb_true_iff in Hall as [Hc Hs].
    exists (String c ""), s. split_and!; [done | | by apply lang_Star_Chr].
    apply lang_Chr. eauto.
Qed.

Lemma lang_times_Chr n p s :
  lang (times n (Chr p)) s ↔ String.length s = n ∧ JsString.all p s = true.
Proof.
  revert s. induction n as [|n IH]; intros s; simpl.
  - rewrite lang_Eps. destruct s; simpl; intuition congruence.
  - rewrite lang_Cat. split.
    + intros (s1 & s2 & -> & (d & -> & Hd)%lang_Chr & [H2 H3]%IH).
      rewrite str_app_cons, str_app_nil_l. simpl. by rewrite Hd, H2, H3.
    + intros [Hlen Hall]. destruct s as [|c s]; [done |]. simpl in *.
      apply andb_true_iff in Hall as [Hc Hs].
      exists (String c ""), s. split_and!; [done | |].
      * apply lang_Chr. eauto.
      * apply IH. split; [lia | done].
Qed.

Lemma lang_upto_Chr n p s :
  lang (upto n (Chr p)) s ↔ (String.length s ≤ n)%nat ∧ JsString.all p s = true.
Proof.
  revert s. induction n as [|n IH]; intros s; simpl.
  - rewrite lang_Eps. destruct s; simpl; [intuition lia |].
    split; [done | intros [? _]; lia].
  - unfold opt. rewrite lang_Alt, lang_Eps, lang_Cat. split.
    + intros [-> | (s1 & s2 & -> & (d & -> & Hd)%lang_Chr & [H2 H3]%IH)].
      * simpl. split; [lia | done].
      * rewrite str_app_cons, str_app_nil_l. simpl. rewrite Hd, H3. split; [lia | done].
    + intros [Hlen Hall]. destruct s as [|c s]; [by left | right]. simpl in *.
      apply andb_true_iff in Hall as [Hc Hs].
      exists (String c ""), s. split_and!; [done | |].
      * apply lang_Chr. eauto.
      * apply IH. split; [lia | done].
Qed.

Lemma lang_range_Chr lo hi p s :
  (lo ≤ hi)%nat →
  lang (range lo hi (Chr p)) s
  ↔ (lo ≤ String.length s ≤ hi)%nat ∧ JsString.all p s = true.
Proof.
  intros Hle. unfold range. rewrite lang_Cat. split.
  - intros (s1 & s2 & -> & [H1 H1']%lang_times_Chr & [H2 H2']%lang_upto_Chr).
    rewrite str_app_length, all_app, H1', H2'. split; [lia | done].
  - intros [Hlen Hall]. exists (JsString.take lo s), (JsString.drop lo s).
    rewrite <- (take_drop lo s) in Hall at 1.
    rewrite all_app in Hall. apply andb_true_iff in Hall as [Ha Hb].
    split_and!.
    + by rewrite take_drop.
    + apply lang_times_Chr. split; [apply take_length; lia | done].
    + apply lang_upto_Chr. split; [| done].
      pose proof (str_app_length (JsString.take lo s) (JsString.drop lo s)) as Hl.
      rewrite take_drop, take_length in Hl by lia. lia.
Qed.

Lemma lang_Star_any s : lang (Star any) s.
Proof. apply lang_Star_Chr. by induction s. Qed.

(** An unanchored literal matches when some part of the string is in its
    language. *)
Lemma test_Unanchored r s :
  test (Unanchored r) s = true ↔ ∃ u m v, s = u +:+ m +:+ v ∧ lang r m.
Proof.
  simpl. rewrite matchb_lang, lang_Cat. split.
  - intros (u & t & -> & _ & (m & v & -> & Hm & _)%lang_Cat). eauto.
  - intros (u & m & v & -> & Hm). exists u, (m +:+ v).
    split_and!; [done | apply lang_Star_any |].
    apply lang_Cat. exists m, v. split_and!; [done | done | apply lang_Star_any].
Qed.

Lemma test_Unanchored_lit_i p s :
  test (Unanchored (lit_i p)) s
  = JsString.includes (JsString.toLowerCase p) (JsString.toLowerCase s).
Proof.
  apply bool_eq_iff. rewrite test_Unanchored, includes_spec. split.
  - intros (u & m & v & -> & Hm%lang_lit_i).
    exists (JsString.toLowerCase u), (JsString.toLowerCase v).
    by rewrite !toLowerCase_app, Hm.
  - intros (a & b & Hs).
    apply toLowerCase_split in Hs as (u & t & -> & <- & Ht).
    apply toLowerCase_split in Ht as (m & v & -> & Hm & <-).
    exists u, m, v. split; [done | by apply lang_lit_i].
Qed.

Lemma test_Anchored_lit p s : test (Anchored (lit p)) s = String.eqb s p.
Proof.
  apply bool_eq_iff. simpl. by rewrite matchb_lang, lang_lit, String.eqb_eq.
Qed.

End RegexBlocks.

(** ** The URL classifiers *)

Section UrlClassifierFacts.
Import Regex.

Lemma noLineTerminator_app s1 s2 :
  noLineTerminator (s1 +:+ s2) = noLineTerminator s1 && noLineTerminator s2.
Proof. apply all_app. Qed.

Lemma test_lit_then r p s :
  test (Anchored (Cat (lit p) r)) s = true ↔ ∃ t, s = p +:+ t ∧ lang r t.
Proof.
  simpl. rewrite matchb_lang, lang_Cat. split.
  - intros (s1 & s2 & -> & ->%lang_lit & H2). eauto.
  - intros (t & -> & Ht). exists p, t. by rewrite lang_lit.
Qed.

Lemma lang_subPath t :
  noLineTerminator t = true →
  lang subPath t ↔ t = "" ∨ ∃ rest, t = "/" +:+ rest.
Proof.
  intros Ht. unfold subPath, opt. rewrite lang_Alt, lang_Eps, lang_Cat.
  split; (intros [-> | Hr]; [by left | right]).
  - destruct Hr as (s1 & s2 & -> & (d & -> & Hd)%lang_Chr & _).
    apply Ascii.eqb_eq in Hd as <-. by exists s2.
  - destruct Hr as (rest & ->). exists "/", rest. split_and!; [done | |].
    + apply lang_Chr. by exists "/"%char.
    + apply lang_Star_Chr. rewrite noLineTerminator_app in Ht.
      by apply andb_true_iff in Ht as [_ Ht].
Qed.

Lemma test_subPath p s :
  noLineTerminator s = true →
  test (Anchored (Cat (lit p) subPath)) s
  = String.eqb s p || JsString.startsWith (p +:+ "/") s.
Proof.
  intros Hs. apply bool_eq_iff.
  rewrite test_lit_then, orb_true_iff, String.eqb_eq, startsWith_spec. split.
  - intros (t & -> & Ht). rewrite noLineTerminator_app in Hs.
    apply andb_true_iff in Hs as [_ Hs].
    apply lang_subPath in Ht; [| done]. destruct Ht as [-> | (rest & ->)].
    + left. apply str_app_nil_r.
    + right. exists rest. by rewrite str_app_assoc.
  - intros [-> | (rest & ->)].
    + exists "". rewrite str_app_nil_r. split; [done |].
      apply lang_subPath; [done | by left].
    + rewrite str_app_assoc in *. exists ("/" +:+ rest). split; [done |].
      rewrite noLineTerminator_app in Hs. apply andb_true_iff in Hs as [_ Hs].
      apply lang_subPath; eauto.
Qed.

Lemma test_rest p s :
  noLineTerminator s = true →
  test (Anchored (Cat (lit p) (plus dot))) s = true
  ↔ ∃ rest, rest ≠ "" ∧ s = p +:+ rest.
Proof.
  intros Hs. rewrite test_lit_then. split.
  - intros (t & -> & [Hne _]%lang_plus_Chr). eauto.
  - intros (rest & Hne & ->). exists rest. split; [done |].
    apply lang_plus_Chr. split; [done |].
    rewrite noLineTerminator_app in Hs. by apply andb_true_iff in Hs as [_ Hs].
Qed.

Lemma test_handle s :
  test (Anchored (Cat (char "/") (range 1 15 word))) s = true
  ↔ ∃ handle, s = "/" +:+ handle
      ∧ (1 ≤ String.length handle ≤ 15)%nat
      ∧ JsString.all isWordChar handle = true.
Proof.
  simpl test. rewrite matchb_lang, lang_Cat. split.
  - intros (s1 & s2 & -> & (d & -> & Hd)%lang_Chr & H2).
    apply Ascii.eqb_eq in Hd as <-.
    apply lang_range_Chr in H2 as [H2 H3]; [| lia]. by exists s2.
  - intros (handle & -> & Hlen & Hall). exists "/", handle. split_and!; [done | |].
    + apply lang_Chr. by exists "/"%char.
    + apply lang_range_Chr; [lia | done].
Qed.

(** The whitelist on a path without line terminators. *)
Lemma allowedPatterns_shape pathname :
  noLineTerminator pathname = true →
  existsb (fun pattern => test pattern pathname) allowedPatterns = true
  ↔ RecordedShape pathname.
Proof.
  intros Hp. unfold allowedPatterns. cbn [existsb].
  rewrite !test_Anchored_lit, !test_subPath by done.
  rewrite !orb_true_iff, !String.eqb_eq, !startsWith_spec,
    !test_rest, test_handle by done.
  split.
  - intros Hd. destruct_or!; try discriminate;
      repeat match goal with
             | Hx : ex _ |- _ => destruct Hx as [? Hx]
             | Hx : _ ∧ _ |- _ => destruct Hx as [? Hx]
             end; subst; by constructor.
  - destruct 1 as [| | | | |rest| |rest|id Hid|id Hid|handle Hlen Hall].
    + by left.
    + right; by left.
    + do 3 right; by left.
    + do 6 right; by left.
    + do 2 right; left; by left.
    + do 2 right; left; right. by exists rest.
    + do 5 right; left; by left.
    + do 5 right; left; right. by exists rest.
    + do 4 right; left. by exists id.
    + do 7 right; left. by exists id.
    + do 8 right; left. by exists handle.
Qed.

End UrlClassifierFacts.

Section UrlClassifierTheorems.
Context `{Platform}.
Import Regex.

(** C7.  On every URL whose parsed path holds no raw line terminator, the
    whitelist predicate answers [true] exactly when the URL parses and its
    path has one of the listed shapes: the exact paths /home, /notifications,
    /search and /i/bookmarks; /messages and /explore, alone or followed by a
    slash and a sub-path; /i/lists/ and /i/communities/ followed by a
    non-empty rest; one segment of 1 to 15 letters, digits or underscores.
    When the URL constructor throws, the answer is [false]; being a total
    function into [bool], the predicate does not raise. *)
Theorem shouldRecordUrl_listed_shapes (url : string) :
  printablePath url →
  (shouldRecordUrl url = true
   ↔ ∃ urlObj, URL_new url = Some urlObj ∧ RecordedShape (pathname urlObj))
  ∧ (URL_new url = None → shouldRecordUrl url = false).
Proof.
  unfold printablePath, shouldRecordUrl. intros Hp.
  destruct (URL_new url) as [urlObj|]; cbn [mbind option_bind try_catch].
  - split; [| done]. rewrite allowedPatterns_shape by done. split.
    + intros Hs. by exists urlObj.
    + by intros (? & [= <-] & Hs).
  - split; [| done]. split; [done | by intros (? & [=] & _)].
Qed.

(** C10.  On every URL whose parsed path holds no raw line terminator,
    [shouldRecordUrl] answers [true] exactly when [getColumnTypeFromUrl]
    returns a kind other than [unknown]; when the URL constructor throws, the
    first answers [false] and the second [unknown]. *)
Theorem shouldRecordUrl_iff_known_column_type (url : string) :
  printablePath url →
  (shouldRecordUrl url = true ↔ getColumnTypeFromUrl url ≠ ColumnType.unknown)
  ∧ (URL_new url = None →
     shouldRecordUrl url = false ∧ getColumnTypeFromUrl url = ColumnType.unknown).
Proof.
  unfold printablePath, shouldRecordUrl, getColumnTypeFromUrl. intros Hp.
  destruct (URL_new url) as [urlObj|]; cbn [mbind option_bind try_catch];
    [| by split].
  split; [| done].
  unfold allowedPatterns. cbn [existsb].
  rewrite !test_Anchored_lit, !test_subPath by done.
  change ("/messages" +:+ "/") with "/messages/".
  change ("/explore" +:+ "/") with "/explore/".
  repeat match goal with
         | |- context [if ?b then _ else _] => destruct b; simpl
         end; split; done.
Qed.

End UrlClassifierTheorems.

(** ** The rate-limit monitor *)

Lemma find_first {A : Type} (f : A → bool) (l : list A) (x : A) :
  find f l = Some x
  ↔ ∃ i : nat, l !! i = Some x ∧ f x = true
      ∧ ∀ (j : nat) (y : A), (j < i)%nat → l !! j = Some y → f y = false.
Proof.
  induction l as [|a l IH]; simpl.
  - split; [done | by intros (i & Hi & _)].
  - destruct (f a) eqn:Ha.
    + split.
      * intros [= ->]. exists 0%nat. split_and!; [done | done | intros; lia].
      * intros (i & Hi & Hx & Hbefore). destruct i as [|i].
        -- by injection Hi as ->.
        -- specialize (Hbefore 0%nat a). rewrite Hbefore in Ha; [done | lia | done].
    + rewrite IH. split.
      * intros (i & Hi & Hx & Hbefore). exists (S i). split_and!; [done | done |].
        intros [|j] y Hj Hy; [by injection Hy as <- |].
        apply (Hbefore j); [lia | done].
      * intros (i & Hi & Hx & Hbefore). destruct i as [|i].
        -- injection Hi as ->. congruence.
        -- exists i. split_and!; [done | done |].
           intros j y Hj Hy. apply (Hbefore (S j)); [lia | done].
Qed.

Lemma find_nothing {A : Type} (f : A → bool) (l : list A) :
  find f l = None ↔ ∀ x, x ∈ l → f x = false.
Proof.
  induction l as [|a l IH]; simpl.
  - split; [intros _ x Hx; by apply elem_of_nil in Hx | done].
  - destruct (f a) eqn:Ha.
    + split; [done |]. intros Hall. rewrite Hall in Ha; [done | by left].
    + rewrite IH. split.
      * intros Hall x [-> | Hx]%elem_of_cons; auto.
      * intros Hall x Hx. apply Hall. by right.
Qed.

(** An entry of the table matches a target when one of its patterns does. *)
Lemma includes_mono p q s :
  JsString.includes p q = true → JsString.includes q s = true →
  JsString.includes p s = true.
Proof.
  rewrite !includes_spec. intros (a & b & ->) (u & v & ->).
  exists (u +:+ a), (b +:+ v). by rewrite !str_app_assoc.
Qed.

Lemma includes_toLowerCase p s :
  JsString.includes p s = true →
  JsString.includes (JsString.toLowerCase p) (JsString.toLowerCase s) = true.
Proof.
  rewrite !includes_spec. intros (u & v & ->).
  exists (JsString.toLowerCase u), (JsString.toLowerCase v).
  by rewrite !toLowerCase_app.
Qed.

Lemma strictEq_true a b : strictEq a b = true ↔ a = b.
Proof. unfold strictEq. by rewrite bool_decide_eq_true. Qed.


Section RateLimitTheorems.
Context `{Platform}.

(** C1.  After a completion classified in [category], each of the three
    fields of the category's record is the observed value where the reading
    has one and the prior value where the reading is null, and the records of
    the other categories are as before.  In particular a reading of
    remaining 5 alone, merged into the prior record (100, 50, 1700000000),
    gives (100, 5, 1700000000) stamped with the current instant, and the new
    state map is written to storage. *)
Theorem merge_replaces_observed_fields
    (now : Z) (details : Details) (bg : Background) (category : RateLimitCategory) :
  detectRateLimitCategory (url details) = Some category →
  let limit := getHeaderValue (responseHeaders details) "x-rate-limit-limit" in
  let remaining := getHeaderValue (responseHeaders details) "x-rate-limit-remaining" in
  let resetAt := getHeaderValue (responseHeaders details) "x-rate-limit-reset" in
  let previous := rateLimitState bg category in
  let bg' := onHeadersReceived now details bg in
  let current := rateLimitState bg' category in
  (RateLimitInfo.limit current = nullish limit (RateLimitInfo.limit previous)
   ∧ RateLimitInfo.remaining current
     = nullish remaining (RateLimitInfo.remaining previous)
   ∧ RateLimitInfo.resetAt current = nullish resetAt (RateLimitInfo.resetAt previous))
  ∧ (∀ other, other ≠ category → rateLimitState bg' other = rateLimitState bg other)
  ∧ (limit = None → remaining = Some 5 → resetAt = None →
     RateLimitInfo.limit previous = Some 100 →
     RateLimitInfo.remaining previous = Some 50 →
     RateLimitInfo.resetAt previous = Some 1700000000 →
     current = {| RateLimitInfo.limit := Some 100;
                  RateLimitInfo.remaining := Some 5;
                  RateLimitInfo.resetAt := Some 1700000000;
                  RateLimitInfo.lastUpdated := Some now |}
     ∧ storageWrites bg' = rateLimitState bg' :: storageWrites bg).
Proof.
  intros Hcat limit remaining resetAt previous bg' current.
  subst bg' current. unfold onHeadersReceived. rewrite Hcat.
  fold limit remaining resetAt previous. clearbody limit remaining resetAt.
  destruct (isNull limit && isNull remaining && isNull resetAt) eqn:Hnull.
  { apply andb_true_iff in Hnull as [[Hl Hr]%andb_true_iff Ht].
    destruct limit, remaining, resetAt; try discriminate. by repeat split. }
  destruct (strictEq (RateLimitInfo.limit previous) _
            && strictEq (RateLimitInfo.remaining previous) _
            && strictEq (RateLimitInfo.resetAt previous) _) eqn:Hsame.
  { apply andb_true_iff in Hsame as [[Hl Hr]%andb_true_iff Ht].
    apply strictEq_true in Hl, Hr, Ht. fold previous.
    split_and!; try done.
    intros -> -> -> Hpl Hpr Hpt. rewrite Hpr in Hr. discriminate. }
  cbn [rateLimitState storageWrites]. rewrite fn_lookup_insert. cbn.
  split_and!; try done.
  - intros other Hother. by rewrite fn_lookup_insert_ne.
  - intros -> -> -> -> -> ->. done.
Qed.

(** C2.  The listener returns the service worker's state as it was, with the
    same records and no further storage write, when the three observed
    fields are all null, and when the merged triple equals the triple already
    stored for the category. *)
Theorem unchanged_reading_leaves_state
    (now : Z) (details : Details) (bg : Background) :
  let limit := getHeaderValue (responseHeaders details) "x-rate-limit-limit" in
  let remaining := getHeaderValue (responseHeaders details) "x-rate-limit-remaining" in
  let resetAt := getHeaderValue (responseHeaders details) "x-rate-limit-reset" in
  (limit = None ∧ remaining = None ∧ resetAt = None →
   onHeadersReceived now details bg = bg)
  ∧ (∀ category,
       detectRateLimitCategory (url details) = Some category →
       let previous := rateLimitState bg category in
       nullish limit (RateLimitInfo.limit previous) = RateLimitInfo.limit previous
       ∧ nullish remaining (RateLimitInfo.remaining previous)
         = RateLimitInfo.remaining previous
       ∧ nullish resetAt (RateLimitInfo.resetAt previous)
         = RateLimitInfo.resetAt previous →
       onHeadersReceived now details bg = bg).
Proof.
  intros limit remaining resetAt. split.
  - intros (Hl & Hr & Ht). unfold onHeadersReceived.
    fold limit remaining resetAt. rewrite Hl, Hr, Ht.
    by destruct (detectRateLimitCategory _).
  - intros category Hcat previous (Hl & Hr & Ht). unfold onHeadersReceived.
    rewrite Hcat. fold limit remaining resetAt previous.
    rewrite Hl, Hr, Ht. unfold strictEq. rewrite !bool_decide_eq_true_2 by done.
    by destruct (_ && _).
Qed.

End RateLimitTheorems.

Section ClassifierTheorems.
Context `{Platform}.

(** As the claim is worded, a target containing HomeLatestTimeline would
    always be classified as the home timeline; this one also matches a
    pattern of the first entry of the table and is classified as a post
    creation. *)
Lemma HomeLatestTimeline_target_taken_by_earlier_entry :
  JsString.includes "HomeLatestTimeline" Example.twoPatternsTarget = true
  ∧ detectRateLimitCategory Example.twoPatternsTarget = Some tweetPost
  ∧ detectRateLimitCategory Example.twoPatternsTarget ≠ Some homeLatestTimeline.
Proof. by vm_compute. Qed.

(** C6, amended.  The classifier returns the category of the first entry of
    the ordered table one of whose patterns matches the target, and nothing
    when no entry matches; a target that contains HomeLatestTimeline and, in
    any letter case, none of CreateTweet, TweetCreate and UserTweets (the
    patterns of the two entries placed before) is classified as the home
    timeline; when the target is not classified, the listener leaves the
    state as it was. *)
Theorem detectRateLimitCategory_first_match (target : string) :
  (∀ result,
     detectRateLimitCategory target = Some result
     ↔ ∃ (i : nat) entry,
         RATE_LIMIT_PATTERNS !! i = Some entry
         ∧ category entry = result
         ∧ entryMatches target entry = true
         ∧ ∀ (j : nat) earlier,
             (j < i)%nat → RATE_LIMIT_PATTERNS !! j = Some earlier →
             entryMatches target earlier = false)
  ∧ (detectRateLimitCategory target = None
     ↔ ∀ entry, entry ∈ RATE_LIMIT_PATTERNS → entryMatches target entry = false)
  ∧ (JsString.includes "HomeLatestTimeline" target = true →
     JsString.includes "createtweet" (JsString.toLowerCase target) = false →
     JsString.includes "tweetcreate" (JsString.toLowerCase target) = false →
     JsString.includes "usertweets" (JsString.toLowerCase target) = false →
     detectRateLimitCategory target = Some homeLatestTimeline)
  ∧ (∀ now responseHeaders bg,
       detectRateLimitCategory target = None →
       onHeadersReceived now
         {| url := target; responseHeaders := responseHeaders |} bg = bg).
Proof.
  split_and!.
  - intros result. unfold detectRateLimitCategory, entryMatches.
    destruct (find _ _) as [entry|] eqn:Hfind.
    + apply find_first in Hfind as (i & Hi & Hm & Hbefore). split.
      * intros [= <-]. by exists i, entry.
      * intros (i' & entry' & Hi' & <- & Hm' & Hbefore'). f_equal.
        destruct (Nat.lt_trichotomy i i') as [Hlt | [-> | Hgt]].
        -- rewrite (Hbefore' i entry Hlt Hi) in Hm. discriminate.
        -- congruence.
        -- rewrite (Hbefore i' entry' Hgt Hi') in Hm'. discriminate.
    + split; [done |]. intros (i & entry & Hi & _ & Hm & _).
      rewrite find_nothing in Hfind. rewrite Hfind in Hm; [done |].
      by eapply list_elem_of_lookup_2.
  - unfold detectRateLimitCategory, entryMatches. rewrite <- find_nothing.
    by destruct (find _ _).
  - intros Hhome Hc Ht Hu. unfold detectRateLimitCategory, RATE_LIMIT_PATTERNS.
    cbn [find existsb patterns]. rewrite !test_Unanchored_lit_i.
    change (JsString.toLowerCase "CreateTweet") with "createtweet".
    change (JsString.toLowerCase "TweetCreate") with "tweetcreate".
    change (JsString.toLowerCase "UserTweets") with "usertweets".
    rewrite Hc, Ht, Hu.
    destruct (JsString.includes (JsString.toLowerCase "UserTweetsAndReplies") _)
      eqn:Hur.
    { apply (includes_mono "usertweets") in Hur; [congruence | by vm_compute]. }
    apply includes_toLowerCase in Hhome. by rewrite Hhome.
  - intros now responseHeaders bg Hnone. unfold onHeadersReceived.
    cbn [url]. by rewrite Hnone.
Qed.

End ClassifierTheorems.

(** ** The navigation watcher *)

Section WatcherFacts.
Context `{Platform}.

Lemma filter_delete_length {A : Type} (f : A → bool) (l : list A) (i : nat) (x : A) :
  l !! i = Some x →
  length (List.filter f l)
  = (length (List.filter f (delete i l)) + if f x then 1 else 0)%nat.
Proof.
  revert i. induction l as [|a l IH]; intros i Hi; [done |].
  destruct i as [|i]; simpl in *.
  - injection Hi as ->. destruct (f x); simpl; lia.
  - specialize (IH i Hi). destruct (f a); simpl; lia.
Qed.

Lemma filter_app_length {A : Type} (f : A → bool) (l1 l2 : list A) :
  length (List.filter f (l1 ++ l2))
  = (length (List.filter f l1) + length (List.filter f l2))%nat.
Proof. by rewrite List.filter_app, length_app. Qed.

(** What one run of a retry does: it queries the page once, keeps the refs,
    and either calls [onUrlChange] for its URL or sets one timer for it. *)
Lemma tryGetName_cases doc r w :
  let w' := tryGetName doc r w in
  lastUrlRef w' = lastUrlRef w
  ∧ ((∃ title,
        effects w'
        = OnUrlChange (Retry.currentUrl r) title
            :: QuerySelector (selectorOf (Retry.kind r)) :: effects w
        ∧ timers w' = timers w)
     ∨ (∃ ms r',
          Retry.currentUrl r' = Retry.currentUrl r
          ∧ effects w'
            = SetTimeout ms :: QuerySelector (selectorOf (Retry.kind r)) :: effects w
          ∧ timers w' = timers w ++ [(ms, r')])).
Proof.
  unfold tryGetName. cbn zeta.
  destruct (whenTruthy _) as [name|]; [| destruct (_ <? _)%nat]; cbn.
  - split; [done |]. left. eexists; split_and!; reflexivity.
  - split; [done |]. right. eexists _, _; split_and!; [| reflexivity | reflexivity]; reflexivity.
  - split; [done |]. left. eexists; split_and!; reflexivity.
Qed.

Lemma resolveBlock_cases kind v currentUrl title w w' :
  resolveBlock kind v currentUrl title w = Some w' →
  lastUrlRef w' = lastUrlRef w
  ∧ ((effects w' = effects w ∧ timers w' = timers w)
     ∨ (∃ t, effects w' = OnUrlChange currentUrl t :: effects w
             ∧ timers w' = timers w)
     ∨ (∃ r, Retry.currentUrl r = currentUrl
             ∧ effects w' = SetTimeout 500 :: effects w
             ∧ timers w' = timers w ++ [(500%nat, r)])).
Proof.
  unfold resolveBlock. destruct (guard _ _); [| done]. cbn [negb].
  destruct (whenTruthy (_ !! _)) as [cachedName|].
  { intros [= <-]. split; [done |]. right; left. eexists; split_and!; reflexivity. }
  destruct (storedTitle _ _ _) as [storedName|].
  { intros [= <-]. split; [done |]. right; left. eexists; split_and!; reflexivity. }
  destruct (document v); intros [= <-].
  - split; [done |]. by left.
  - split; [done |]. right; right.
    eexists; split_and!; [| reflexivity | reflexivity]; reflexivity.
Qed.

(** What one run of [checkUrl] does. *)
Lemma checkUrl_cases v w :
  let w' := checkUrl v w in
  (w' = w
   ∧ ∀ currentUrl, href v = Present currentUrl →
       JsString.truthy currentUrl = false ∨ currentUrl = lastUrlRef w)
  ∨ ∃ currentUrl,
      href v = Present currentUrl
      ∧ currentUrl ≠ lastUrlRef w
      ∧ lastUrlRef w' = currentUrl
      ∧ ((effects w' = effects w ∧ timers w' = timers w)
         ∨ (shouldRecordUrl currentUrl = true
            ∧ ((∃ t, effects w' = OnUrlChange currentUrl t :: effects w
                     ∧ timers w' = timers w)
               ∨ (∃ r, Retry.currentUrl r = currentUrl
                       ∧ effects w' = SetTimeout 500 :: effects w
                       ∧ timers w' = timers w ++ [(500%nat, r)])))).
Proof.
  unfold checkUrl. cbn zeta.
  destruct (href v) as [| |currentUrl]; [by left | by left |].
  destruct (negb _ || String.eqb _ _) eqn:Hsame.
  { left. split; [done |]. intros ? [= <-].
    apply orb_true_iff in Hsame as [Hf%negb_true_iff | He%String.eqb_eq]; auto. }
  right. apply orb_false_iff in Hsame as [_ Hne%String.eqb_neq].
  exists currentUrl. split_and!; [done | done | |].
  - destruct (shouldRecordUrl _); [| done].
    destruct (negb (String.eqb _ _)); cbn [lastUrlRef lastRecordedUrlRef]; [| done].
    repeat match goal with
           | |- context [resolveBlock ?k ?v ?u ?t ?w0] =>
               let Hb := fresh "Hb" in
               destruct (resolveBlock k v u t w0) as [?|] eqn:Hb;
               [by apply resolveBlock_cases in Hb as [-> _] |]
           end.
    done.
  - destruct (shouldRecordUrl _) eqn:Hrec; [| by left].
    destruct (negb (String.eqb _ _)); cbn [lastUrlRef lastRecordedUrlRef]; [| by left].
    repeat match goal with
           | |- context [resolveBlock ?k ?v ?u ?t ?w0] =>
               let Hb := fresh "Hb" in
               destruct (resolveBlock k v u t w0) as [?|] eqn:Hb;
               [apply resolveBlock_cases in Hb as [_ [Hb | Hb]];
                [by left | by right] |]
           end.
    right. split; [done |]. left. eexists; split_and!; reflexivity.
Qed.

Lemma checkUrl_unchanged v w :
  (∀ currentUrl, href v = Present currentUrl →
     JsString.truthy currentUrl = false ∨ currentUrl = lastUrlRef w) →
  checkUrl v w = w.
Proof.
  intros Hsame. unfold checkUrl. destruct (href v) as [| |currentUrl]; try done.
  destruct (Hsame currentUrl eq_refl) as [-> | ->]; [done |].
  by rewrite String.eqb_refl, orb_true_r.
Qed.

Lemma elem_of_delete {A : Type} (l : list A) (i : nat) (x : A) :
  x ∈ delete i l → x ∈ l.
Proof.
  revert i. induction l as [|a l IH]; intros [|i]; simpl; try done.
  - by right.
  - intros [-> | Hx]%elem_of_cons; [by left | right; eauto].
Qed.

Lemma step_whitelistedOnly w e : whitelistedOnly w → whitelistedOnly (step w e).
Proof.
  intros [Hcalls Htimers]. destruct e as [v|i doc]; simpl.
  - unfold whitelistedOnly. destruct (checkUrl_cases v w) as [[-> _] | (u & _ & _ & _ & Hcase)]; [done |].
    destruct Hcase as [[-> ->] | [Hrec [(t & -> & ->) | (r & Hr & -> & ->)]]];
      [done | |]; split.
    + intros url title [[= -> ->] | Hin]%elem_of_cons; eauto.
    + done.
    + intros url title [[=] | Hin]%elem_of_cons; eauto.
    + intros timer [Hin | ->%list_elem_of_singleton]%elem_of_app; [eauto |].
      simpl. by rewrite Hr.
  - destruct (timers w !! i) as [[ms r]|] eqn:Hi; [| done].
    assert (Hr : shouldRecordUrl (Retry.currentUrl r) = true).
    { apply (Htimers (ms, r)). by eapply list_elem_of_lookup_2. }
    unfold whitelistedOnly.
    match goal with |- context [tryGetName doc r ?w0] =>
      destruct (tryGetName_cases doc r w0)
        as [_ [(t & -> & ->) | (ms' & r' & Hr' & -> & ->)]]
    end; cbn [effects timers]; split.
    + intros url title [[= -> ->] | [[=] | Hin]%elem_of_cons]%elem_of_cons; eauto.
    + intros timer Hin%elem_of_delete. eauto.
    + intros url title [[=] | [[=] | Hin]%elem_of_cons]%elem_of_cons; eauto.
    + intros timer [Hin%elem_of_delete | ->%list_elem_of_singleton]%elem_of_app;
        [eauto |]. simpl. by rewrite Hr'.
Qed.

Lemma run_whitelistedOnly events w :
  whitelistedOnly w → whitelistedOnly (run events w).
Proof.
  revert w. induction events as [|e events IH]; intros w Hw; [done |].
  apply IH. by apply step_whitelistedOnly.
Qed.

(** While the view stays at [url], the calls made for [url] and the retries
    pending for it keep their total. *)
Lemma step_same_url url w e :
  JsString.truthy url = false ∨ lastUrlRef w = url →
  observes url e →
  (JsString.truthy url = false ∨ lastUrlRef (step w e) = url)
  ∧ (callsFor url (step w e) + retriesFor url (step w e)
     = callsFor url w + retriesFor url w)%nat.
Proof.
  intros Hat Hobs. destruct e as [v|i doc]; simpl in *.
  - rewrite checkUrl_unchanged; [done |].
    intros currentUrl ->%Hobs. destruct Hat; auto.
  - destruct (timers w !! i) as [[ms r]|] eqn:Hi; [| done].
    unfold callsFor, retriesFor.
    rewrite (filter_delete_length (isRetryFor url) (timers w) i (ms, r) Hi).
    match goal with |- context [tryGetName doc r ?w0] =>
      destruct (tryGetName_cases doc r w0)
        as [Hlast [(t & -> & ->) | (ms' & r' & Hr' & -> & ->)]]
    end; cbn [effects timers lastUrlRef] in *.
    + split; [by rewrite Hlast |]. unfold isRetryFor at 3. cbn.
      destruct (String.eqb _ _); simpl; lia.
    + split; [by rewrite Hlast |]. rewrite filter_app_length. cbn.
      unfold isRetryFor at 2 4. cbn. rewrite Hr'.
      destruct (String.eqb _ _); simpl; lia.
Qed.

Lemma run_same_url url events w :
  JsString.truthy url = false ∨ lastUrlRef w = url →
  Forall (observes url) events →
  (callsFor url (run events w) + retriesFor url (run events w)
   = callsFor url w + retriesFor url w)%nat.
Proof.
  revert w. induction events as [|e events IH]; intros w Hat Hobs; [done |].
  apply Forall_cons in Hobs as [He Hobs].
  destruct (step_same_url url w e Hat He) as [Hat' <-]. by apply IH.
Qed.

(** C3, amended.  Started from its initial state, a watcher only ever calls
    [onUrlChange] with URLs that the whitelist predicate accepts, whatever
    the triggers and timer firings.  In every state, a trigger that reads
    the same location as the trigger before it changes nothing, so it makes
    no call.  In every state, a first observation of a URL followed by any
    timer firings and further observations of it adds, for that URL, at
    most one [onUrlChange] call beyond one for each retry that was pending
    for it already, left behind by an earlier visit; with no such retry it
    adds at most one. *)
Theorem watcher_whitelisted_and_once :
  (∀ events url title,
     OnUrlChange url title ∈ effects (run events initialWatcher) →
     shouldRecordUrl url = true)
  ∧ (∀ w v v', href v' = href v → checkUrl v' (checkUrl v w) = checkUrl v w)
  ∧ (∀ w v url events,
       href v = Present url →
       Forall (observes url) events →
       (callsFor url (run events (checkUrl v w))
        ≤ callsFor url w + retriesFor url w + 1)%nat).
Proof.
  split_and!.
  - intros events. apply (run_whitelistedOnly events initialWatcher).
    split; intros *; cbn; by intros ?%elem_of_nil.
  - intros w v v' Hhref. apply checkUrl_unchanged. rewrite Hhref.
    intros currentUrl Hv.
    destruct (checkUrl_cases v w) as [[-> Hsame] | (u & Hu & _ & Hlast & _)];
      [auto | right; congruence].
  - intros w v url events Hv Hobs.
    pose proof (run_same_url url events (checkUrl v w)) as Hrun.
    destruct (checkUrl_cases v w) as [[Hw Hsame] | (u & Hu & _ & Hlast & Hcase)].
    + rewrite Hw in *.
      assert (Hat : JsString.truthy url = false ∨ lastUrlRef w = url)
        by (destruct (Hsame url Hv); auto).
      specialize (Hrun Hat Hobs). lia.
    + assert (u = url) as -> by congruence.
      specialize (Hrun (or_intror Hlast) Hobs).
      assert (callsFor url (checkUrl v w) + retriesFor url (checkUrl v w)
              ≤ callsFor url w + retriesFor url w + 1)%nat; [| lia].
      unfold callsFor, retriesFor in *.
      destruct Hcase as [[-> ->] | [_ [(t & -> & ->) | (r & Hr & -> & ->)]]].
      * lia.
      * cbn. rewrite String.eqb_refl. simpl. lia.
      * rewrite filter_app_length. cbn. unfold isRetryFor at 2. cbn.
        rewrite Hr, String.eqb_refl. simpl. lia.
Qed.

End WatcherFacts.

Section RetryFacts.
Context `{Platform}.

Lemma timeoutsOf_app es1 es2 : timeoutsOf (es1 ++ es2) = timeoutsOf es1 ++ timeoutsOf es2.
Proof. apply omap_app. Qed.
Lemma callsOf_app es1 es2 : callsOf (es1 ++ es2) = callsOf es1 ++ callsOf es2.
Proof. apply omap_app. Qed.
Lemma queriesOf_app es1 es2 : queriesOf (es1 ++ es2) = (queriesOf es1 + queriesOf es2)%nat.
Proof. unfold queriesOf. by rewrite omap_app, length_app. Qed.

(** A run of failed attempts, as long as attempts remain: each queries the
    page once and sets the next timer, [attempt * 300] ms later. *)
Lemma failed_attempts url title (failing : list Document) :
  Forall listNameMissing failing →
  ∀ (attempt ms : nat) (w : Watcher),
    timers w = [(ms, listRetry url title attempt)] →
    (attempt + length failing ≤ 5)%nat →
    let w' := run (TimerFires 0 <$> failing) w in
    ∃ new ms',
      effects w' = new ++ effects w
      ∧ timers w' = [(ms', listRetry url title (attempt + length failing))]
      ∧ resolvedNamesRef w' = resolvedNamesRef w
      ∧ callsOf new = []
      ∧ queriesOf new = length failing
      ∧ timeoutsOf new = rev ((fun i => i * 300)%nat <$> seq attempt (length failing)).
Proof.
  induction 1 as [|doc failing Hdoc _ IH]; intros attempt ms w Hw Hle; cbn zeta.
  - exists [], ms. rewrite Nat.add_0_r. by split_and!.
  - cbn [fmap list_fmap run foldl step length] in *. rewrite Hw. cbn [lookup list_lookup].
    unfold tryGetName. cbn [Retry.kind listRetry extractor Retry.attempt Retry.maxAttempts].
    unfold listNameMissing in Hdoc. rewrite Hdoc.
    destruct (Nat.ltb_spec attempt 5) as [_|]; [| lia].
    match goal with |- context [foldl step ?w0 _] =>
      destruct (IH (attempt + 1)%nat (attempt * 300)%nat w0) as
        (new & ms' & Heff & Htim & Hcache & Hcalls & Hq & Ht); [done | lia |]
    end.
    unfold run in *. rewrite Heff, Htim, Hcache. cbn.
    exists (new ++ [SetTimeout (attempt * 300); QuerySelector TopNavBar]), ms'.
    split_and!.
    + cbn [app]. by rewrite <- app_assoc.
    + do 2 f_equal. f_equal. lia.
    + done.
    + by rewrite callsOf_app, Hcalls.
    + rewrite queriesOf_app, Hq. cbn. lia.
    + rewrite timeoutsOf_app, Ht. cbn. by rewrite Nat.add_1_r.
Qed.

(** The list block starts its retry chain when neither cache has a name. *)
Lemma checkUrl_starts_list_retry v w url :
  href v = Present url →
  JsString.truthy url = true →
  url ≠ lastUrlRef w →
  url ≠ lastRecordedUrlRef w →
  shouldRecordUrl url = true →
  guard ListName url = true →
  whenTruthy (resolvedNamesRef w !! url) = None →
  storedTitle ListName v url = None →
  document v = Present () →
  checkUrl v w
  = setTimeout (listRetry url (getTitleFromUrl url) 1) 500
      {| lastUrlRef := url; lastRecordedUrlRef := url;
         resolvedNamesRef := resolvedNamesRef w; timers := timers w;
         effects := effects w |}.
Proof.
  intros Hhref Htruthy Hlast%String.eqb_neq Hrec%String.eqb_neq Hallowed
    Hguard Hcache Hstored Hdoc.
  unfold checkUrl. rewrite Hhref, Htruthy, Hlast, Hallowed. cbn.
  rewrite Hrec. cbn. unfold resolveBlock. rewrite Hguard. cbn.
  by rewrite Hcache, Hstored, Hdoc.
Qed.

Lemma str_take_app (s t : string) : JsString.take (String.length s) (s +:+ t) = s.
Proof.
  induction s as [|c s IH]; [by destruct t |].
  rewrite str_app_cons. cbn. by rewrite IH.
Qed.

Lemma indexOf_absent (s : string) : noAt s = true → JsString.indexOf "@" s = None.
Proof.
  unfold noAt. induction s as [|c s IH]; [done |]. cbn.
  intros [Hc Hs]%andb_true_iff. apply negb_true_iff in Hc. by rewrite Hc, IH.
Qed.

Lemma indexOf_first (before after : string) :
  noAt before = true →
  JsString.indexOf "@" (before +:+ "@" +:+ after) = Some (String.length before).
Proof.
  unfold noAt. induction before as [|c before IH].
  - by rewrite str_app_nil_l.
  - rewrite str_app_cons. cbn. intros [Hc Hs]%andb_true_iff.
    apply negb_true_iff in Hc. by rewrite Hc, IH.
Qed.

(** [getListName] returns the name in the text of the navigation bar. *)
Lemma getListName_nameBeforeAt (doc : Document) (text name : string) :
  doc TopNavBar = Element text →
  nameBeforeAt text name →
  name ≠ "" →
  whenTruthy (getListName doc) = Some name.
Proof.
  intros Hdoc Hname Hne. unfold getListName. rewrite Hdoc.
  assert (JsString.truthy text = true) as ->.
  { destruct text; [| done]. destruct Hname as [[_ ->] | (before & after & Ht & _)].
    - by destruct Hne.
    - destruct before; discriminate Ht. }
  cbn [negb]. cbn zeta. unfold nameBeforeAt in Hname. cbn zeta in Hname.
  destruct Hname as [[Hno ->] | (before & after & -> & Hno & ->)].
  - rewrite indexOf_absent by done. cbn.
    by destruct (JsString.trim text).
  - rewrite indexOf_first, str_take_app by done. cbn.
    by destruct (JsString.trim before).
Qed.

(** C5.  For a list URL with no usable name in the memory cache or in the
    stored column, [checkUrl] queries nothing and sets one timer of 500 ms.
    Then, while attempts fail, each queries the page once and sets the next
    timer 300, 600, 900 and 1200 ms later.  If, after fewer than five
    failures, an attempt finds the landmark, whatever its text, and the
    name in that text (the part before the first [@], trimmed, or the whole
    trimmed text when it holds no [@]) is not empty, it calls [onUrlChange]
    with that name as title and caches it under the URL; for the text
    My List@someuser that name is My List.  If five attempts fail, the fifth
    calls [onUrlChange] with the title derived from the URL, and no timer
    is left, so that at most five attempts are made. *)
Theorem list_name_retry_schedule v w url (failing : list Document) :
  href v = Present url →
  JsString.truthy url = true →
  url ≠ lastUrlRef w →
  url ≠ lastRecordedUrlRef w →
  shouldRecordUrl url = true →
  guard ListName url = true →
  whenTruthy (resolvedNamesRef w !! url) = None →
  storedTitle ListName v url = None →
  document v = Present () →
  timers w = [] →
  Forall listNameMissing failing →
  let w1 := checkUrl v w in
  (effects w1 = SetTimeout 500 :: effects w
   ∧ timers w1 = [(500%nat, listRetry url (getTitleFromUrl url) 1)])
  ∧ ((length failing < 5)%nat →
     ∀ doc text name,
       doc TopNavBar = Element text →
       nameBeforeAt text name →
       name ≠ "" →
       let w2 := run (TimerFires 0 <$> failing ++ [doc]) w1 in
       ∃ new,
         effects w2 = new ++ effects w
         ∧ callsOf new = [(url, name)]
         ∧ resolvedNamesRef w2 !! url = Some name
         ∧ timers w2 = []
         ∧ queriesOf new = (length failing + 1)%nat
         ∧ timeoutsOf new
           = rev (take (length failing + 1) [500; 300; 600; 900; 1200]%nat))
  ∧ nameBeforeAt "My List@someuser" "My List"
  ∧ (length failing = 5%nat →
     let w2 := run (TimerFires 0 <$> failing) w1 in
     ∃ new,
       effects w2 = new ++ effects w
       ∧ callsOf new = [(url, getTitleFromUrl url)]
       ∧ timers w2 = []
       ∧ queriesOf new = 5%nat
       ∧ timeoutsOf new = rev [500; 300; 600; 900; 1200]%nat).
Proof.
  intros Hhref Htruthy Hlast Hrec Hallowed Hguard Hcache Hstored Hdoc Htimers
    Hfailing w1.
  subst w1. rewrite (checkUrl_starts_list_retry v w url) by done.
  unfold setTimeout, perform. cbn [timers effects lastUrlRef lastRecordedUrlRef
    resolvedNamesRef]. rewrite Htimers. cbn [app].
  split; [by split | split; [| split]].
  - intros Hlen doc text name Hbar Hname Hne.
    rewrite fmap_app. unfold run. rewrite foldl_app.
    match goal with |- context [foldl step ?w0 (TimerFires 0 <$> failing)] =>
      destruct (failed_attempts url (getTitleFromUrl url) failing Hfailing
                  1 500 w0 eq_refl ltac:(lia))
        as (new & ms' & Heff & Htim & Hnames & Hcalls & Hq & Ht)
    end.
    unfold run in *. cbn [fmap list_fmap foldl step]. rewrite Htim.
    cbn [lookup list_lookup]. unfold tryGetName.
    cbn [Retry.kind listRetry extractor Retry.currentUrl].
    rewrite (getListName_nameBeforeAt doc text name Hbar Hname Hne). cbn.
    rewrite Heff, Hnames. cbn.
    exists ([OnUrlChange url name; QuerySelector TopNavBar]
              ++ new ++ [SetTimeout 500]).
    split_and!.
    + by rewrite <- !app_assoc.
    + by rewrite !callsOf_app, Hcalls.
    + by rewrite lookup_insert_eq.
    + done.
    + rewrite !queriesOf_app, Hq. cbn. lia.
    + rewrite !timeoutsOf_app, Ht. cbn.
      do 5 (destruct failing as [|? failing]; [done |]). simpl in Hlen. lia.
  - right. exists "My List", "someuser". split_and!; by vm_compute.
  - intros Hlen.
    destruct (exists_last (l := failing)) as (first & doc & ->).
    { by intros ->. } apply Forall_app in Hfailing as [Hfirst Hlast5].
    rewrite length_app in Hlen. cbn in Hlen.
    rewrite fmap_app. unfold run. rewrite foldl_app.
    match goal with |- context [foldl step ?w0 (TimerFires 0 <$> first)] =>
      destruct (failed_attempts url (getTitleFromUrl url) first Hfirst
                  1 500 w0 eq_refl ltac:(lia))
        as (new & ms' & Heff & Htim & Hnames & Hcalls & Hq & Ht)
    end.
    unfold run in *. cbn [fmap list_fmap foldl step]. rewrite Htim.
    cbn [lookup list_lookup]. unfold tryGetName.
    cbn [Retry.kind listRetry extractor Retry.currentUrl Retry.attempt
      Retry.maxAttempts Retry.title].
    apply Forall_inv in Hlast5. unfold listNameMissing in Hlast5.
    rewrite Hlast5.
    replace (1 + length first)%nat with 5%nat by lia. cbn.
    rewrite Heff. cbn.
    exists ([OnUrlChange url (getTitleFromUrl url); QuerySelector TopNavBar]
              ++ new ++ [SetTimeout 500]).
    split_and!.
    + by rewrite <- !app_assoc.
    + by rewrite !callsOf_app, Hcalls.
    + done.
    + rewrite !queriesOf_app, Hq. cbn. lia.
    + rewrite !timeoutsOf_app, Ht. cbn.
      do 4 (destruct first as [|? first]; [simpl in Hlen; lia |]).
      destruct first; [done | simpl in Hlen; lia].
Qed.

End RetryFacts.

(** ** The content filter *)

Section FilterFacts.
Context `{Platform}.

Lemma find_skip {A : Type} (f : A → bool) (l1 l2 : list A) (x : A) :
  f x = false → find f (l1 ++ x :: l2) = find f (l1 ++ l2).
Proof.
  intros Hx. induction l1 as [|a l1 IH]; simpl; [by rewrite Hx |].
  by destruct (f a).
Qed.

Lemma find_some_iff {A : Type} (f : A → bool) (l : list A) :
  isNull (find f l) = false ↔ ∃ x, x ∈ l ∧ f x = true.
Proof.
  destruct (find f l) as [x|] eqn:Hfind; simpl.
  - apply find_some in Hfind as [Hin Hx]. split; [| done].
    intros _. exists x. by rewrite list_elem_of_In.
  - split; [done |]. intros (x & Hin & Hx).
    rewrite find_nothing in Hfind. rewrite Hfind in Hx; done.
Qed.

Lemma matchesFilter_conjunction post filter :
  matchesFilter post filter
  = match whenTruthy (FilterRule.screenName filter) with
    | Some wanted => screenNameMatches post wanted
    | None => true
    end
    && match whenTruthy (FilterRule.textPattern filter) with
       | Some pattern => textPatternMatches post pattern
       | None => true
       end
    && match FilterRule.isRetweet filter with
       | Some wanted => Bool.eqb wanted (Post.socialContext post)
       | None => true
       end
    && match FilterRule.hasMedia filter with
       | Some wanted => Bool.eqb wanted (Post.media post)
       | None => true
       end.
Proof.
  unfold matchesFilter.
  destruct (whenTruthy (FilterRule.screenName filter)) as [wanted|];
    [destruct (screenNameMatches post wanted); [| done] |];
    (destruct (whenTruthy (FilterRule.textPattern filter)) as [pattern|];
     [destruct (textPatternMatches post pattern); [| done] |]);
    (destruct (FilterRule.isRetweet filter) as [rt|];
     [destruct (Bool.eqb rt (Post.socialContext post)); [| done] |]);
    by destruct (FilterRule.hasMedia filter) as [md|];
      [destruct (Bool.eqb md (Post.media post)) |].
Qed.

Lemma when_defined {A : Type} (o : option A) (ok : A → bool) :
  match o with Some a => ok a | None => true end = true
  ↔ ∀ a, o = Some a → ok a = true.
Proof.
  destruct o as [a|]; [| done]. split; [by intros ? ? [= <-] | eauto].
Qed.

Lemma matchesFilter_spec post filter :
  matchesFilter post filter = true
  ↔ (∀ wanted, whenTruthy (FilterRule.screenName filter) = Some wanted →
       screenNameMatches post wanted = true)
    ∧ (∀ pattern, whenTruthy (FilterRule.textPattern filter) = Some pattern →
         textPatternMatches post pattern = true)
    ∧ (∀ wanted, FilterRule.isRetweet filter = Some wanted →
         Post.socialContext post = wanted)
    ∧ (∀ wanted, FilterRule.hasMedia filter = Some wanted →
         Post.media post = wanted).
Proof.
  rewrite matchesFilter_conjunction, !andb_true_iff, !when_defined.
  split.
  - intros [[[H1 H2] H3] H4]. split_and!; [done | done | |];
      intros wanted Hw; symmetry; by apply Bool.eqb_prop; eauto.
  - intros (H1 & H2 & H3 & H4). split_and!; [done | done | |];
      intros wanted Hw; [rewrite (H3 _ Hw) | rewrite (H4 _ Hw)];
      apply Bool.eqb_reflx.
Qed.

Lemma filterPost_display activeFilters post :
  Post.processed post ≠ Some "1" →
  Post.display (filterPost activeFilters post)
  = if isNull (find (matchesFilter post) activeFilters)
    then Post.display post else "none".
Proof.
  intros Hp. unfold filterPost. rewrite bool_decide_eq_false_2 by done.
  by destruct (find _ _).
Qed.

Lemma filterPost_processed activeFilters post :
  Post.processed (filterPost activeFilters post) = Some "1".
Proof.
  unfold filterPost. case_bool_decide; [done |]. by destruct (find _ _).
Qed.

Lemma elem_of_active filters (filter : FilterRule.t) :
  filter ∈ List.filter FilterRule.enabled filters
  ↔ filter ∈ filters ∧ FilterRule.enabled filter = true.
Proof. by rewrite !list_elem_of_In, filter_In. Qed.

Lemma active_nil filters :
  (length (List.filter FilterRule.enabled filters) =? 0)%nat = true
  ↔ ¬ ∃ filter, filter ∈ filters ∧ FilterRule.enabled filter = true.
Proof.
  rewrite Nat.eqb_eq. split.
  - intros Hnil (filter & Hf%elem_of_active).
    destruct (List.filter _ _); [by apply elem_of_nil in Hf | done].
  - intros Hnone. destruct (List.filter _ _) as [|filter l] eqn:Hl; [done |].
    destruct Hnone. exists filter. apply elem_of_active. rewrite Hl. by left.
Qed.

Lemma firstSegment_spec (s handle : string) :
  firstSegment s = handle
  ↔ noSlash handle = true
    ∧ ∃ rest, s = handle +:+ rest ∧ (rest = "" ∨ ∃ tail, rest = "/" +:+ tail).
Proof.
  unfold noSlash.
  revert handle. induction s as [|c s IH]; intros handle; cbn [firstSegment].
  - split.
    + intros <-. split; [done |]. exists "". split; [done | by left].
    + intros [_ (rest & Hs & _)]. symmetry in Hs.
      by apply str_app_eq_nil in Hs as [-> _].
  - destruct (Ascii.eqb_spec c "/") as [-> | Hc].
    + split.
      * intros <-. split; [done |]. exists (String "/" s).
        split; [done |]. right. by exists s.
      * intros [Hno (rest & Hs & _)]. destruct handle as [|d handle]; [done |].
        rewrite str_app_cons in Hs. injection Hs as <- _. by cbn in Hno.
    + split.
      * intros <-. destruct (proj1 (IH (firstSegment s)) eq_refl)
          as [Hno (rest & Hs & Hrest)].
        split.
        -- cbn. by rewrite (proj2 (Ascii.eqb_neq _ _) Hc), Hno.
        -- exists rest. split; [| done]. by rewrite str_app_cons, <- Hs.
      * intros [Hno (rest & Hs & Hrest)]. destruct handle as [|d handle].
        -- rewrite str_app_nil_l in Hs. destruct Hrest as [-> | (tail & ->)];
             [done |]. by injection Hs as -> _.
        -- rewrite str_app_cons in Hs. injection Hs as <- Hs.
           cbn in Hno. apply andb_true_iff in Hno as [_ Hno].
           f_equal. apply IH. split; [done |]. by exists rest.
Qed.

Lemma dropLeadingSlash_other (c : ascii) (s : string) :
  c ≠ "/"%char → dropLeadingSlash (String c s) = String c s.
Proof.
  intros Hc. destruct c as [[] [] [] [] [] [] [] []];
    solve [reflexivity | by destruct Hc].
Qed.

(** What [matchesFilter] takes for the screen name of a link is the handle
    that the link names. *)
Lemma handle_spec (href handle : string) :
  firstSegment (dropLeadingSlash href) = handle ↔ isHandleOf handle href.
Proof.
  unfold isHandleOf. rewrite firstSegment_spec.
  destruct href as [|c href].
  { cbn [dropLeadingSlash]. split.
    - intros [Hno (rest & Hs & Hrest)]. split; [done |].
      symmetry in Hs. apply str_app_eq_nil in Hs as [-> ->].
      exists "", "". split_and!; [done | right; auto | by left].
    - intros [Hno (lead & rest & Hs & _ & Hrest)]. split; [done |].
      symmetry in Hs. apply str_app_eq_nil in Hs as [-> [-> ->]%str_app_eq_nil].
      exists "". split; [done | by left]. }
  destruct (Ascii.eqb_spec c "/") as [-> | Hc].
  - cbn [dropLeadingSlash]. split.
    + intros [Hno (rest & -> & Hrest)]. split; [done |].
      exists "/", rest. split_and!; [done | by left | done].
    + intros [Hno (lead & rest & Hs & [-> | [-> Hlead]] & Hrest)].
      * split; [done |]. exists rest. split; [| done].
        assert (String "/" href = String "/" (handle +:+ rest)) as [= ->]
          by exact Hs.
        done.
      * rewrite str_app_nil_l in Hs. destruct handle as [|d handle].
        -- destruct Hlead as [? | ->]; [done |]. discriminate Hs.
        -- rewrite str_app_cons in Hs. injection Hs as <- _. by cbn in Hno.
  - rewrite dropLeadingSlash_other by done. split.
    + intros [Hno (rest & Hs & Hrest)]. split; [done |].
      exists "", rest. rewrite str_app_nil_l. split_and!; [done | | done].
      right. split; [done |]. left. intros ->.
      rewrite str_app_nil_l in Hs. destruct Hrest as [-> | (tail & ->)];
        [done |]. injection Hs as -> _. by destruct Hc.
    + intros [Hno (lead & rest & Hs & [-> | [-> Hlead]] & Hrest)].
      * assert (String c href = String "/" (handle +:+ rest)) as [= -> _]
          by exact Hs.
        by destruct Hc.
      * rewrite str_app_nil_l in Hs. split; [done |]. by exists rest.
Qed.

(** C8.  A rule matches an item exactly when each predicate it defines
    holds: the handle named by the retweet-aware link (what stands between
    its leading slash and the next slash) and the screen name of the rule
    are equal once both are lowered by the host, the pattern compiles and
    accepts the text of the body, the retweet marker is as required, the
    media marker is as required; a predicate left undefined (or an empty
    string) asks nothing.  An item not
    yet processed is hidden by [applyFilters] when some enabled rule matches
    it and keeps its display otherwise, and it is marked processed in both
    cases as soon as some rule is enabled.  In particular, where the pattern
    (spam|ad) compiles to a test for texts containing spam or ad, a rule with
    only that pattern hides an item whose body contains spam, and changes
    nothing but the marker of an item whose body contains neither. *)
Theorem filter_hides_iff_enabled_rule_matches :
  (∀ post filter,
     matchesFilter post filter = true
     ↔ (∀ wanted,
          whenTruthy (FilterRule.screenName filter) = Some wanted →
          ∃ href handle,
            (if Post.socialContext post then Post.firstLink post
             else Post.userNameLink post) = Some href
            ∧ isHandleOf handle href
            ∧ String_toLowerCase handle = String_toLowerCase wanted)
       ∧ (∀ pattern,
            whenTruthy (FilterRule.textPattern filter) = Some pattern →
            ∃ regex text,
              RegExp_new pattern = Some regex
              ∧ Post.tweetText post = Some text
              ∧ regex text = true)
       ∧ (∀ wanted, FilterRule.isRetweet filter = Some wanted →
            Post.socialContext post = wanted)
       ∧ (∀ wanted, FilterRule.hasMedia filter = Some wanted →
            Post.media post = wanted))
  ∧ (∀ filters posts (i : nat) post,
       posts !! i = Some post →
       Post.processed post ≠ Some "1" →
       let matched :=
         ∃ filter, filter ∈ filters ∧ FilterRule.enabled filter = true
                   ∧ matchesFilter post filter = true in
       ∃ post',
         applyFilters posts filters !! i = Some post'
         ∧ (matched → Post.display post' = "none")
         ∧ (¬ matched → Post.display post' = Post.display post)
         ∧ ((∃ filter, filter ∈ filters ∧ FilterRule.enabled filter = true) →
            Post.processed post' = Some "1"))
  ∧ (∀ regex,
       RegExp_new "(spam|ad)" = Some regex →
       (∀ text, regex text
                = JsString.includes "spam" text || JsString.includes "ad" text) →
       ∀ id name post text,
         let rule :=
           {| FilterRule.id := id; FilterRule.name := name;
              FilterRule.enabled := true; FilterRule.screenName := None;
              FilterRule.textPattern := Some "(spam|ad)";
              FilterRule.isRetweet := None; FilterRule.hasMedia := None |} in
         Post.processed post ≠ Some "1" →
         Post.tweetText post = Some text →
         (JsString.includes "spam" text = true →
          applyFilters [post] [rule] = [markProcessed (hide post)])
         ∧ (JsString.includes "spam" text = false →
            JsString.includes "ad" text = false →
            applyFilters [post] [rule] = [markProcessed post])).
Proof.
  split_and!.
  - intros post filter. rewrite matchesFilter_spec.
    assert (Hs : ∀ wanted,
               screenNameMatches post wanted = true
               ↔ ∃ href handle,
                   (if Post.socialContext post then Post.firstLink post
                    else Post.userNameLink post) = Some href
                   ∧ isHandleOf handle href
                   ∧ String_toLowerCase handle = String_toLowerCase wanted).
    { intros wanted. unfold screenNameMatches.
      destruct (if Post.socialContext post then _ else _) as [href|].
      - rewrite String.eqb_eq. split.
        + intros Hsame. exists href, (firstSegment (dropLeadingSlash href)).
          split_and!; [done | by apply handle_spec | done].
        + intros (? & handle & [= <-] & <-%handle_spec & Hsame). done.
      - split; [done | by intros (? & ? & [=] & _)]. }
    assert (Ht : ∀ pattern,
               textPatternMatches post pattern = true
               ↔ ∃ regex text,
                   RegExp_new pattern = Some regex
                   ∧ Post.tweetText post = Some text
                   ∧ regex text = true).
    { intros pattern. unfold textPatternMatches.
      destruct (RegExp_new pattern) as [regex|]; cbn.
      - destruct (Post.tweetText post) as [text|].
        + split; [by exists regex, text | by intros (? & ? & [= <-] & [= <-] & ?)].
        + split; [done | by intros (? & ? & _ & [=] & _)].
      - split; [done | by intros (? & ? & [=] & _)]. }
    split; intros (H1 & H2 & H3 & H4); (split_and!; [| | done | done]);
      intros x Hx; [apply Hs | apply Ht | apply Hs | apply Ht]; eauto.
  - intros filters posts i post Hi Hp matched. unfold applyFilters.
    destruct (_ =? _)%nat eqn:Hactive.
    + apply active_nil in Hactive. exists post. split_and!; [done | | done |].
      * intros (filter & Hin & Hen & _). destruct Hactive. eauto.
      * intros Hsome. by destruct Hactive.
    + exists (filterPost (List.filter FilterRule.enabled filters) post).
      unfold filterPosts. split_and!.
      * change (map ?f ?l) with (f <$> l). by rewrite list_lookup_fmap, Hi.
      * intros (filter & Hin & Hen & Hm). rewrite filterPost_display by done.
        destruct (isNull _) eqn:Hnull; [| done].
        assert (Hex : isNull (find (matchesFilter post)
                         (List.filter FilterRule.enabled filters)) = false).
        { apply find_some_iff. exists filter. by rewrite elem_of_active. }
        congruence.
      * intros Hnone. rewrite filterPost_display by done.
        destruct (isNull _) eqn:Hnull; [done |].
        apply find_some_iff in Hnull as (filter & [Hin Hen]%elem_of_active & Hm).
        destruct Hnone. by exists filter.
      * intros _. apply filterPost_processed.
  - intros regex Hregex Hsem id name post text rule Hp Htext.
    assert (Hm : matchesFilter post rule
                 = JsString.includes "spam" text || JsString.includes "ad" text).
    { rewrite matchesFilter_conjunction. cbn. unfold textPatternMatches.
      rewrite Hregex, Htext. cbn. by rewrite Hsem, !andb_true_r. }
    assert (Hactive : List.filter FilterRule.enabled [rule] = [rule]) by done.
    unfold applyFilters. rewrite Hactive. cbn [length Nat.eqb].
    unfold filterPosts. cbn [map]. unfold filterPost.
    rewrite bool_decide_eq_false_2 by done. cbn [find]. rewrite Hm. split.
    + by intros ->.
    + by intros -> ->.
Qed.

(** C9.  A rule whose pattern the [RegExp] constructor rejects matches no
    item; the items that [applyFilters] hides are those it hides without the
    rule, whatever rules stand before and after it; alone, the rule hides
    nothing.  [matchesFilter] and [applyFilters] return in every case: the
    exception of the constructor is caught inside the rule's evaluation. *)
Theorem invalid_pattern_never_matches filter pattern :
  whenTruthy (FilterRule.textPattern filter) = Some pattern →
  RegExp_new pattern = None →
  (∀ post, matchesFilter post filter = false)
  ∧ (∀ before after posts,
       Post.display <$> applyFilters posts (before ++ filter :: after)
       = Post.display <$> applyFilters posts (before ++ after))
  ∧ (∀ posts, Post.display <$> applyFilters posts [filter] = Post.display <$> posts).
Proof.
  intros Hpattern Hinvalid.
  assert (Hnever : ∀ post, matchesFilter post filter = false).
  { intros post. rewrite matchesFilter_conjunction, Hpattern.
    unfold textPatternMatches. rewrite Hinvalid. cbn.
    by rewrite andb_false_r. }
  assert (Hdisplay : ∀ active1 active2 post,
            Post.display (filterPost (active1 ++ filter :: active2) post)
            = Post.display (filterPost (active1 ++ active2) post)).
  { intros active1 active2 post. unfold filterPost.
    case_bool_decide; [done |]. by rewrite find_skip. }
  assert (Hwithout : ∀ before after posts,
            Post.display <$> applyFilters posts (before ++ filter :: after)
            = Post.display <$> applyFilters posts (before ++ after)).
  { intros before after posts. unfold applyFilters, filterPosts.
    rewrite !List.filter_app. cbn [List.filter].
    destruct (FilterRule.enabled filter) eqn:Hen.
    - rewrite length_app. cbn [length].
      replace (_ + S _ =? 0)%nat with false by (symmetry; apply Nat.eqb_neq; lia).
      destruct (_ =? 0)%nat eqn:Hnone.
      + apply Nat.eqb_eq in Hnone. rewrite length_app in Hnone.
        destruct (List.filter _ before); [| simpl in Hnone; lia].
        destruct (List.filter _ after); [| simpl in Hnone; lia].
        cbn [app]. change (map ?f ?l) with (f <$> l).
        rewrite <- list_fmap_compose. apply list_fmap_ext. intros _ post _. cbn.
        unfold filterPost. case_bool_decide; [done |]. cbn.
        by rewrite Hnever.
      + change (map ?f ?l) with (f <$> l). rewrite <- !list_fmap_compose.
        apply list_fmap_ext. intros _ post _. cbn. apply Hdisplay.
    - done. }
  split_and!; [done | done |].
  intros posts. exact (Hwithout [] [] posts).
Qed.

End FilterFacts.

(** ** The model run on the small platform *)

Lemma small_spam_or_ad (text : string) :
  Regex.test
    (Regex.Unanchored
       (Regex.Cat (Regex.Alt (Regex.lit "spam") (Regex.lit "ad")) Regex.Eps))
    text
  = JsString.includes "spam" text || JsString.includes "ad" text.
Proof.
  apply bool_eq_iff.
  rewrite test_Unanchored, orb_true_iff, !includes_spec. split.
  - intros (u & m & v & -> & (s1 & s2 & -> & Hs1 & ->%lang_Eps)%lang_Cat).
    rewrite str_app_nil_r.
    apply lang_Alt in Hs1 as [->%lang_lit | ->%lang_lit]; eauto.
  - intros [(u & v & ->) | (u & v & ->)].
    + exists u, "spam", v. split; [done |]. apply lang_Cat. exists "spam", "".
      split_and!; [done | | by apply lang_Eps].
      apply lang_Alt. left. by apply lang_lit.
    + exists u, "ad", v. split; [done |]. apply lang_Cat. exists "ad", "".
      split_and!; [done | | by apply lang_Eps].
      apply lang_Alt. right. by apply lang_lit.
Qed.

(** C4.  The stored title is meant to be passed over when it is only the
    generic title of the route kind, but the placeholders that [checkUrl]
    compares it with are not titles that [getTitleFromUrl] returns: on no
    platform and for no URL is the derived title one of them.  For the list
    URL below the derived title is List; a column stored with this very title
    and URL is taken as a resolved name: the title is delivered from the
    stored column and seeded in the memory cache, and no retry is set up to
    read the name from the page. *)
Theorem stored_default_title_is_reused :
  (∀ (P : Platform) (kind : NameKind) (url : string),
     getTitleFromUrl url ≠ placeholder kind)
  ∧ getTitleFromUrl Example.listUrl = "List"
  ∧ storedTitle ListName Example.viewWithStoredDefault Example.listUrl = Some "List"
  ∧ effects (checkUrl Example.viewWithStoredDefault initialWatcher)
    = [OnUrlChange Example.listUrl "List"]
  ∧ resolvedNamesRef (checkUrl Example.viewWithStoredDefault initialWatcher)
      !! Example.listUrl = Some "List"
  ∧ timers (checkUrl Example.viewWithStoredDefault initialWatcher) = [].
Proof.
  split; [| split_and!; by vm_compute].
  intros P kind url. unfold getTitleFromUrl.
  destruct (URL_new url) as [urlObj|]; cbn [mbind option_bind try_catch];
    [| by destruct kind].
  repeat match goal with
         | |- context [if ?b then _ else _] => destruct b
         | |- context [match ?o with Some _ => _ | None => _ end] => destruct o
         end; by destruct kind.
Qed.

(** The theorems above, applied on the small platform. *)

Lemma merge_replaces_observed_fields_witness :
  detectRateLimitCategory (url Example.remainingOnly) = Some homeLatestTimeline
  ∧ rateLimitState
      (onHeadersReceived 1700000100000 Example.remainingOnly Example.priorBackground)
      homeLatestTimeline
    = {| RateLimitInfo.limit := Some 100;
         RateLimitInfo.remaining := Some 5;
         RateLimitInfo.resetAt := Some 1700000000;
         RateLimitInfo.lastUpdated := Some 1700000100000 |}.
Proof.
  assert (Hc : detectRateLimitCategory (url Example.remainingOnly)
               = Some homeLatestTimeline) by (vm_compute; reflexivity).
  split; [exact Hc |].
  apply (merge_replaces_observed_fields 1700000100000 Example.remainingOnly
           Example.priorBackground homeLatestTimeline Hc);
    vm_compute; reflexivity.
Defined.

Lemma unchanged_reading_leaves_state_witness :
  onHeadersReceived 1700000100000 Example.noQuota Example.priorBackground
  = Example.priorBackground
  ∧ onHeadersReceived 1700000100000 Example.sameRemaining Example.priorBackground
    = Example.priorBackground.
Proof.
  split.
  - apply (unchanged_reading_leaves_state 1700000100000 Example.noQuota
             Example.priorBackground).
    vm_compute. repeat split; reflexivity.
  - apply (proj2 (unchanged_reading_leaves_state 1700000100000
                    Example.sameRemaining Example.priorBackground)
             homeLatestTimeline).
    + vm_compute; reflexivity.
    + vm_compute. repeat split; reflexivity.
Defined.

Lemma watcher_whitelisted_and_once_witness :
  callsOf
    (effects
       (run [Trigger Example.freshView; TimerFires 0 Example.myList;
             Trigger Example.freshView]
          (checkUrl Example.freshView initialWatcher)))
  = [(Example.listUrl, "My List")]
  ∧ (callsFor Example.listUrl
       (run [Trigger Example.freshView; TimerFires 0 Example.myList;
             Trigger Example.freshView]
          (checkUrl Example.freshView initialWatcher))
     ≤ 1)%nat.
Proof.
  split; [vm_compute; reflexivity |].
  apply (proj2 (proj2 watcher_whitelisted_and_once) initialWatcher
           Example.freshView Example.listUrl).
  - reflexivity.
  - repeat constructor; intros other Hother; injection Hother as <-; reflexivity.
Defined.

(** As the claim is worded, the list URL read twice in a row would get at
    most one call.  Here the view was at the list before, left for the
    bookmarks while the retry of that visit was pending, and came back: the
    URL is read twice in a row and [onUrlChange] is called twice for it,
    once by the retry of the earlier visit and once by that of this one. *)
Lemma stale_retry_calls_again :
  callsFor Example.listUrl
    (run [Trigger Example.freshView; Trigger Example.bookmarksView] initialWatcher)
  = 0%nat
  ∧ retriesFor Example.listUrl
      (run [Trigger Example.freshView; Trigger Example.bookmarksView]
         initialWatcher)
    = 1%nat
  ∧ callsFor Example.listUrl
      (run [Trigger Example.freshView;
            TimerFires 0 Example.myList; TimerFires 0 Example.myList]
         (checkUrl Example.freshView
            (run [Trigger Example.freshView; Trigger Example.bookmarksView]
               initialWatcher)))
    = 2%nat.
Proof. by vm_compute. Qed.

Lemma list_name_retry_schedule_witness :
  ∃ new,
    effects (run (TimerFires 0 <$> [Example.nothingYet; Example.nothingYet]
                                   ++ [Example.myList])
               (checkUrl Example.freshView initialWatcher))
    = new ++ []
    ∧ callsOf new = [(Example.listUrl, "My List")]
    ∧ timeoutsOf new = [600; 300; 500]%nat.
Proof.
  destruct (list_name_retry_schedule Example.freshView initialWatcher
              Example.listUrl [Example.nothingYet; Example.nothingYet])
    as (_ & Hfound & Hname & _).
  - reflexivity.
  - reflexivity.
  - discriminate.
  - discriminate.
  - vm_compute; reflexivity.
  - vm_compute; reflexivity.
  - vm_compute; reflexivity.
  - reflexivity.
  - reflexivity.
  - reflexivity.
  - repeat constructor.
  - destruct (Hfound ltac:(simpl; lia) Example.myList "My List@someuser"
                "My List" eq_refl Hname ltac:(discriminate))
      as (new & Heff & Hcalls & _ & _ & _ & Htimeouts).
    exists new. split; [exact Heff | split; [exact Hcalls | exact Htimeouts]].
Defined.

Lemma detectRateLimitCategory_first_match_witness :
  detectRateLimitCategory Example.homeTimelineTarget = Some homeLatestTimeline.
Proof.
  apply (detectRateLimitCategory_first_match Example.homeTimelineTarget);
    vm_compute; reflexivity.
Defined.

Lemma shouldRecordUrl_listed_shapes_witness :
  printablePath Example.listUrl ∧ shouldRecordUrl Example.listUrl = true.
Proof.
  assert (Hp : printablePath Example.listUrl) by (vm_compute; reflexivity).
  split; [exact Hp |].
  apply (shouldRecordUrl_listed_shapes Example.listUrl Hp).
  eexists. split; [vm_compute; reflexivity |].
  apply (shape_list "12345"). discriminate.
Defined.

Lemma shouldRecordUrl_iff_known_column_type_witness :
  printablePath "https://x.com/elonmusk/status/1"
  ∧ (shouldRecordUrl "https://x.com/elonmusk/status/1" = true
     ↔ getColumnTypeFromUrl "https://x.com/elonmusk/status/1" ≠ ColumnType.unknown).
Proof.
  assert (Hp : printablePath "https://x.com/elonmusk/status/1")
    by (vm_compute; reflexivity).
  split; [exact Hp |].
  apply (shouldRecordUrl_iff_known_column_type "https://x.com/elonmusk/status/1" Hp).
Defined.

Lemma filter_hides_iff_enabled_rule_matches_witness :
  applyFilters [Example.post "buy spam now"] [Example.spamRule]
  = [markProcessed (hide (Example.post "buy spam now"))]
  ∧ applyFilters [Example.post "hello world"] [Example.spamRule]
    = [markProcessed (Example.post "hello world")]
  ∧ matchesFilter (Example.postOf "/someuser/status/1") Example.accountRule = true
  ∧ matchesFilter (Example.postOf "/someuser2/status/1") Example.accountRule
    = false.
Proof.
  pose proof (proj2 (proj2 filter_hides_iff_enabled_rule_matches)
                _ eq_refl small_spam_or_ad "filter-1" "spam") as Hexample.
  pose proof (proj1 filter_hides_iff_enabled_rule_matches) as Hmatches.
  split_and!.
  - apply (Hexample (Example.post "buy spam now") "buy spam now");
      [discriminate | reflexivity | vm_compute; reflexivity].
  - apply (Hexample (Example.post "hello world") "hello world");
      [discriminate | reflexivity | vm_compute; reflexivity
       | vm_compute; reflexivity].
  - apply (Hmatches (Example.postOf "/someuser/status/1") Example.accountRule).
    split_and!.
    + intros wanted Hwanted. injection Hwanted as <-.
      exists "/someuser/status/1", "someuser". split_and!.
      * reflexivity.
      * split; [reflexivity |]. exists "/", "/status/1".
        split_and!; [reflexivity | by left | right; by exists "status/1"].
      * vm_compute; reflexivity.
    + intros pattern Hpattern. discriminate Hpattern.
    + intros wanted Hwanted. discriminate Hwanted.
    + intros wanted Hwanted. discriminate Hwanted.
  - destruct (matchesFilter (Example.postOf "/someuser2/status/1")
                Example.accountRule) eqn:Hmatch; [| reflexivity].
    apply (Hmatches (Example.postOf "/someuser2/status/1") Example.accountRule)
      in Hmatch as [Hhandle _].
    destruct (Hhandle "SomeUser" eq_refl) as (href & handle & Hhref & His & Hsame).
    injection Hhref as <-. apply handle_spec in His. subst handle.
    vm_compute in Hsame. discriminate Hsame.
Defined.

Lemma invalid_pattern_never_matches_witness :
  RegExp_new "((" = None
  ∧ ∀ post, matchesFilter post Example.invalidRule = false.
Proof.
  assert (Hinvalid : RegExp_new "((" = None) by (vm_compute; reflexivity).
  split; [exact Hinvalid |].
  apply (invalid_pattern_never_matches Example.invalidRule "((" eq_refl Hinvalid).
Defined.

(** * Further properties *)

(** ** The rate-limit monitor over a series of requests *)

Section RateLimitRunFacts.
Context `{Platform}.

Lemma nullish_idem {A : Type} (a b : option A) : nullish a (nullish a b) = nullish a b.
Proof. by destruct a. Qed.


Lemma onHeadersReceived_cases now details bg :
  onHeadersReceived now details bg = bg
  ∨ ∃ category info,
      detectRateLimitCategory (url details) = Some category
      ∧ RateLimitInfo.limit info
        = nullish (getHeaderValue (responseHeaders details) "x-rate-limit-limit")
            (RateLimitInfo.limit (rateLimitState bg category))
      ∧ RateLimitInfo.remaining info
        = nullish (getHeaderValue (responseHeaders details) "x-rate-limit-remaining")
            (RateLimitInfo.remaining (rateLimitState bg category))
      ∧ RateLimitInfo.resetAt info
        = nullish (getHeaderValue (responseHeaders details) "x-rate-limit-reset")
            (RateLimitInfo.resetAt (rateLimitState bg category))
      ∧ RateLimitInfo.lastUpdated info = Some now
      ∧ ¬ neverObserved info
      ∧ onHeadersReceived now details bg
        = {| rateLimitState := <[category := info]> (rateLimitState bg);
             storageWrites := <[category := info]> (rateLimitState bg)
                                :: storageWrites bg |}.
Proof.
  unfold onHeadersReceived.
  destruct (detectRateLimitCategory _) as [category|]; [| by left].
  cbn zeta.
  destruct (isNull _ && isNull _ && isNull _) eqn:Hnull; [by left |].
  destruct (strictEq _ _ && strictEq _ _ && strictEq _ _); [by left |].
  right.
  eexists category,
    {| RateLimitInfo.limit := _; RateLimitInfo.remaining := _;
       RateLimitInfo.resetAt := _; RateLimitInfo.lastUpdated := _ |}.
  split_and!; try reflexivity.
  intros (Hl & Hr & Ht). cbn in Hl, Hr, Ht.
  destruct (getHeaderValue _ "x-rate-limit-limit"); [done |].
  destruct (getHeaderValue _ "x-rate-limit-remaining"); [done |].
  by destruct (getHeaderValue _ "x-rate-limit-reset").
Qed.

(** X1.  Handling the same completed request a second time, at whatever
    instant, changes nothing: neither the records, nor their time stamps,
    nor the storage. *)
Theorem onHeadersReceived_twice now now' details bg :
  onHeadersReceived now' details (onHeadersReceived now details bg)
  = onHeadersReceived now details bg.
Proof.
  unfold onHeadersReceived.
  destruct (detectRateLimitCategory _) as [category|]; [| done]. cbn zeta.
  destruct (isNull _ && isNull _ && isNull _); [done |].
  destruct (strictEq (RateLimitInfo.limit (rateLimitState bg category)) _
            && strictEq (RateLimitInfo.remaining (rateLimitState bg category)) _
            && strictEq (RateLimitInfo.resetAt (rateLimitState bg category)) _)
    eqn:Hsame.
  { by rewrite Hsame. }
  cbn [rateLimitState]. rewrite fn_lookup_insert.
  cbn [RateLimitInfo.limit RateLimitInfo.remaining RateLimitInfo.resetAt].
  rewrite !nullish_idem. unfold strictEq at 1 2 3.
  by rewrite !bool_decide_eq_true_2.
Qed.

Lemma handleAll_snoc requests now details bg :
  handleAll (requests ++ [(now, details)]) bg
  = onHeadersReceived now details (handleAll requests bg).
Proof. unfold handleAll. by rewrite foldl_app. Qed.

(** X2.  Starting from the initial state, after any series of requests the
    latest value written to storage is the state held in memory (or nothing
    was written and the state is still the initial one), and there are at
    most as many writes as requests. *)
Theorem storage_follows_state (requests : list (Z * Details)) :
  let bg := handleAll requests initialBackground in
  ((storageWrites bg = [] ∧ rateLimitState bg = DEFAULT_RATE_LIMIT_STATE)
   ∨ head (storageWrites bg) = Some (rateLimitState bg))
  ∧ (length (storageWrites bg) ≤ length requests)%nat.
Proof.
  induction requests as [|[now details] requests IH] using rev_ind; cbn zeta.
  { split; [by left | done]. }
  rewrite handleAll_snoc, length_app. cbn zeta in IH. destruct IH as [IH Hlen].
  destruct (onHeadersReceived_cases now details
              (handleAll requests initialBackground))
    as [-> | (category & info & _ & _ & _ & _ & _ & _ & ->)].
  - split; [done | lia].
  - cbn. split; [by right | lia].
Qed.

(** X3.  Starting from the initial state, after any series of requests a
    category has a time stamp exactly when one of its three fields has been
    observed: the stamp is null if and only if limit, remaining and reset
    are all null. *)
Theorem stamped_iff_observed (requests : list (Z * Details))
    (category : RateLimitCategory) :
  let info := rateLimitState (handleAll requests initialBackground) category in
  RateLimitInfo.lastUpdated info = None ↔ neverObserved info.
Proof.
  revert category.
  induction requests as [|[now details] requests IH] using rev_ind;
    intros category; cbn zeta.
  { by cbn. }
  rewrite handleAll_snoc.
  destruct (onHeadersReceived_cases now details
              (handleAll requests initialBackground))
    as [-> | (changed & info & _ & _ & _ & _ & Hnow & Hobs & ->)].
  - apply IH.
  - cbn [rateLimitState].
    destruct (decide (changed = category)) as [<- | Hne].
    + rewrite fn_lookup_insert. rewrite Hnow. by split.
    + rewrite fn_lookup_insert_ne by done. apply IH.
Qed.


Lemma lowerChar_idem (c : ascii) :
  JsString.lowerChar (JsString.lowerChar c) = JsString.lowerChar c.
Proof. by destruct c as [[] [] [] [] [] [] [] []]. Qed.

Lemma toLowerCase_idem (s : string) :
  JsString.toLowerCase (JsString.toLowerCase s) = JsString.toLowerCase s.
Proof. induction s as [|c s IH]; cbn; [done |]. by rewrite lowerChar_idem, IH. Qed.

(** X5.  The header lookup ignores the letter case of the names in the
    response: writing every response header name in lower case gives the
    same reading.  The name looked up is compared as it is: a lookup name
    holding an upper-case letter finds nothing. *)
Theorem getHeaderValue_letter_case (headers : list HttpHeader.t) (name : string) :
  getHeaderValue (Some (lowerCaseNames headers)) name
  = getHeaderValue (Some headers) name
  ∧ (JsString.toLowerCase name ≠ name →
     ∀ responseHeaders, getHeaderValue responseHeaders name = None).
Proof.
  split.
  - unfold getHeaderValue.
    assert (find (fun header =>
                    String.eqb (JsString.toLowerCase (HttpHeader.name header)) name)
                 (lowerCaseNames headers)
            = (fun header =>
                 {| HttpHeader.name := JsString.toLowerCase (HttpHeader.name header);
                    HttpHeader.value := HttpHeader.value header |})
                <$> find (fun header =>
                    String.eqb (JsString.toLowerCase (HttpHeader.name header)) name)
                  headers) as ->.
    { induction headers as [|h headers IH]; [done |]. cbn.
      rewrite toLowerCase_idem. by destruct (String.eqb _ _). }
    by destruct (find _ headers).
  - intros Hupper [responseHeaders|]; [| done]. unfold getHeaderValue.
    destruct (find _ _) as [found|] eqn:Hfound; [| done].
    apply find_some in Hfound as [_ Heq%String.eqb_eq].
    destruct Hupper. by rewrite <- Heq, toLowerCase_idem.
Qed.

End RateLimitRunFacts.

Section ClassifierCase.
Context `{Platform}.

(** X22.  The classification of a request target ignores the letter case:
    two targets that differ in the case of their letters only get the same
    category, or both none. *)
Theorem detectRateLimitCategory_ignores_case (target other : string) :
  JsString.toLowerCase target = JsString.toLowerCase other →
  detectRateLimitCategory target = detectRateLimitCategory other.
Proof.
  intros Hsame. unfold detectRateLimitCategory, RATE_LIMIT_PATTERNS.
  cbn [find existsb patterns]. rewrite !test_Unanchored_lit_i. by rewrite Hsame.
Qed.

End ClassifierCase.

(** ** The navigation watcher: excursions, the memory cache, the three blocks *)

Section WatcherRuns.
Context `{Platform}.

Lemma resolveBlock_refs kind v currentUrl title w w' :
  resolveBlock kind v currentUrl title w = Some w' →
  lastRecordedUrlRef w' = lastRecordedUrlRef w.
Proof.
  unfold resolveBlock. destruct (negb _); [done |].
  destruct (whenTruthy (_ !! _)); [by intros [= <-] |].
  destruct (storedTitle _ _ _); [by intros [= <-] |].
  by destruct (document v); intros [= <-].
Qed.

(** A trigger that reads a URL outside the whitelist, or the URL recorded
    last, touches nothing but [lastUrlRef]. *)
Lemma checkUrl_quiet v w :
  (∀ currentUrl, href v = Present currentUrl →
     shouldRecordUrl currentUrl = false ∨ currentUrl = lastRecordedUrlRef w) →
  let w' := checkUrl v w in
  effects w' = effects w ∧ timers w' = timers w
  ∧ resolvedNamesRef w' = resolvedNamesRef w
  ∧ lastRecordedUrlRef w' = lastRecordedUrlRef w.
Proof.
  intros Hquiet. unfold checkUrl. cbn zeta.
  destruct (href v) as [| |currentUrl]; [done | done |].
  destruct (negb _ || String.eqb _ _); [done |].
  destruct (Hquiet currentUrl eq_refl) as [-> | ->]; [done |].
  destruct (shouldRecordUrl _); [| done].
  cbn [lastRecordedUrlRef]. by rewrite String.eqb_refl.
Qed.

(** X6.  Leaving a recorded column page for pages outside the whitelist (a
    post, a photo, the settings) and coming back to it reports nothing: no
    [onUrlChange] call, no timer, no change of the cache, and the URL stays
    the one recorded last. *)
Theorem return_from_excursion (w : Watcher) (url : string)
    (excursion : list View) (back : View) :
  lastRecordedUrlRef w = url →
  Forall offList excursion →
  href back = Present url →
  let w' := run (Trigger <$> excursion ++ [back]) w in
  effects w' = effects w ∧ timers w' = timers w
  ∧ resolvedNamesRef w' = resolvedNamesRef w
  ∧ lastRecordedUrlRef w' = url.
Proof.
  intros Hrecorded Hexcursion Hback. cbn zeta.
  rewrite fmap_app. unfold run. rewrite foldl_app. cbn [fmap list_fmap foldl step].
  assert (effects (foldl step w (Trigger <$> excursion)) = effects w
          ∧ timers (foldl step w (Trigger <$> excursion)) = timers w
          ∧ resolvedNamesRef (foldl step w (Trigger <$> excursion))
            = resolvedNamesRef w
          ∧ lastRecordedUrlRef (foldl step w (Trigger <$> excursion)) = url)
    as (He & Ht & Hc & Hr).
  { clear Hback. revert w Hrecorded.
    induction Hexcursion as [|v excursion Hv _ IH]; intros w Hrecorded; [done |].
    cbn [fmap list_fmap foldl step].
    destruct (checkUrl_quiet v w) as (He & Ht & Hc & Hr).
    { intros currentUrl Hhref. left. by apply Hv. }
    cbn zeta in *. destruct (IH (checkUrl v w)) as (He' & Ht' & Hc' & Hr').
    { by rewrite Hr. }
    by rewrite He', Ht', Hc', Hr', He, Ht, Hc. }
  destruct (checkUrl_quiet back (foldl step w (Trigger <$> excursion)))
    as (He' & Ht' & Hc' & Hr').
  { intros currentUrl Hhref. right. rewrite Hr. congruence. }
  cbn zeta in *. by rewrite He', Ht', Hc', Hr', He, Ht, Hc.
Qed.

Lemma whenTruthy_is_Some_insert (m : gmap string string) (url key name : string) :
  is_Some (whenTruthy (m !! url)) →
  (key = url → JsString.truthy name = true) →
  is_Some (whenTruthy (<[key := name]> m !! url)).
Proof.
  intros Hm Hname. destruct (decide (key = url)) as [-> | Hne].
  - rewrite lookup_insert_eq. cbn. by rewrite Hname.
  - by rewrite lookup_insert_ne.
Qed.

Lemma tryGetName_keeps_cached doc r w url :
  is_Some (whenTruthy (resolvedNamesRef w !! url)) →
  is_Some (whenTruthy (resolvedNamesRef (tryGetName doc r w) !! url)).
Proof.
  intros Hcached. unfold tryGetName. cbn zeta.
  destruct (whenTruthy (extractor _ _)) as [name|] eqn:Hname.
  - cbn. apply whenTruthy_is_Some_insert; [done |]. intros _.
    unfold whenTruthy in Hname. destruct (extractor _ _) as [s|]; [| done].
    destruct (JsString.truthy s) eqn:Hs; [| done]. by injection Hname as <-.
  - by destruct (_ <? _)%nat.
Qed.

Lemma resolveBlock_keeps_cached kind v currentUrl title w w' url :
  resolveBlock kind v currentUrl title w = Some w' →
  is_Some (whenTruthy (resolvedNamesRef w !! url)) →
  is_Some (whenTruthy (resolvedNamesRef w' !! url)).
Proof.
  unfold resolveBlock. destruct (negb _); [done |].
  destruct (whenTruthy (_ !! currentUrl)) eqn:Hhit; [by intros [= <-] |].
  destruct (storedTitle _ _ _).
  { intros [= <-] Hcached. cbn. apply whenTruthy_is_Some_insert; [done |].
    intros ->. rewrite Hhit in Hcached. by destruct Hcached. }
  by destruct (document v); intros [= <-].
Qed.

Lemma step_keeps_cached w e url :
  is_Some (whenTruthy (resolvedNamesRef w !! url)) →
  is_Some (whenTruthy (resolvedNamesRef (step w e) !! url)).
Proof.
  intros Hcached. destruct e as [v | i doc]; cbn [step].
  - unfold checkUrl. destruct (href v) as [| |currentUrl]; [done | done |].
    destruct (negb _ || String.eqb _ _); [done |]. cbn zeta.
    destruct (shouldRecordUrl _); [| done].
    destruct (negb (String.eqb _ _)); [| done].
    repeat match goal with
           | |- context [resolveBlock ?k ?v ?u ?t ?w0] =>
               let Hb := fresh "Hb" in
               destruct (resolveBlock k v u t w0) as [?|] eqn:Hb;
               [by eapply resolveBlock_keeps_cached |]
           end.
    done.
  - destruct (timers w !! i) as [[ms callback]|]; [| done].
    by apply tryGetName_keeps_cached.
Qed.

Lemma run_keeps_cached events w url :
  is_Some (whenTruthy (resolvedNamesRef w !! url)) →
  is_Some (whenTruthy (resolvedNamesRef (run events w) !! url)).
Proof.
  revert w. induction events as [|e events IH]; intros w Hcached; [done |].
  cbn [run foldl]. apply IH. by apply step_keeps_cached.
Qed.

Lemma blockOf_resolve v currentUrl title w (kind : NameKind) :
  blockOf currentUrl = Some kind →
  match resolveBlock ListName v currentUrl title w with
  | Some w' => w'
  | None =>
      match resolveBlock CommunityName v currentUrl title w with
      | Some w' => w'
      | None =>
          match resolveBlock ProfileName v currentUrl title w with
          | Some w' => w'
          | None => onUrlChange currentUrl title w
          end
      end
  end
  = match resolveBlock kind v currentUrl title w with
    | Some w' => w'
    | None =>
        match kind with
        | ListName =>
            match resolveBlock CommunityName v currentUrl title w with
            | Some w' => w'
            | None =>
                match resolveBlock ProfileName v currentUrl title w with
                | Some w' => w'
                | None => onUrlChange currentUrl title w
                end
            end
        | CommunityName =>
            match resolveBlock ProfileName v currentUrl title w with
            | Some w' => w'
            | None => onUrlChange currentUrl title w
            end
        | ProfileName => onUrlChange currentUrl title w
        end
    end.
Proof.
  unfold blockOf.
  destruct (guard ListName currentUrl) eqn:Hlist; [by intros [= <-] |].
  assert (resolveBlock ListName v currentUrl title w = None) as ->.
  { unfold resolveBlock. by rewrite Hlist. }
  destruct (guard CommunityName currentUrl) eqn:Hcommunity; [by intros [= <-] |].
  assert (resolveBlock CommunityName v currentUrl title w = None) as ->.
  { unfold resolveBlock. by rewrite Hcommunity. }
  destruct (guard ProfileName currentUrl) eqn:Hprofile; [by intros [= <-] | done].
Qed.

Lemma blockOf_guard currentUrl kind :
  blockOf currentUrl = Some kind → guard kind currentUrl = true.
Proof.
  unfold blockOf.
  destruct (guard ListName currentUrl) eqn:?; [by intros [= <-] |].
  destruct (guard CommunityName currentUrl) eqn:?; [by intros [= <-] |].
  destruct (guard ProfileName currentUrl) eqn:?; [by intros [= <-] | done].
Qed.

(** What [checkUrl] does on a fresh whitelisted URL that one of the blocks
    takes: it sets both refs and runs that block. *)
Lemma checkUrl_enters_block v w url kind :
  href v = Present url →
  JsString.truthy url = true →
  url ≠ lastUrlRef w →
  url ≠ lastRecordedUrlRef w →
  shouldRecordUrl url = true →
  blockOf url = Some kind →
  ∀ w', resolveBlock kind v url (getTitleFromUrl url)
          {| lastUrlRef := url; lastRecordedUrlRef := url;
             resolvedNamesRef := resolvedNamesRef w; timers := timers w;
             effects := effects w |} = Some w' →
  checkUrl v w = w'.
Proof.
  intros Hhref Htruthy Hlast%String.eqb_neq Hrec%String.eqb_neq Hallowed
    Hblock w' Hresolve.
  unfold checkUrl. rewrite Hhref, Htruthy, Hlast, Hallowed. cbn.
  rewrite Hrec. cbn. rewrite (blockOf_resolve _ _ _ _ kind Hblock).
  by rewrite Hresolve.
Qed.

(** X7.  A name read from the page is remembered for good: once an attempt
    has found a name for a URL, then after any further triggers and timers
    a fresh visit to that URL is answered at once from the memory cache,
    with one [onUrlChange] call, no timer and no page query, whatever the
    stored columns and the page show. *)
Theorem extracted_name_is_served_from_memory
    (doc : Document) (r : Retry.t) (w : Watcher) (found : string)
    (events : list Event) (v : View) :
  whenTruthy (extractor (Retry.kind r) doc) = Some found →
  let url := Retry.currentUrl r in
  let w1 := run events (tryGetName doc r w) in
  href v = Present url →
  JsString.truthy url = true →
  url ≠ lastUrlRef w1 →
  url ≠ lastRecordedUrlRef w1 →
  shouldRecordUrl url = true →
  is_Some (blockOf url) →
  ∃ name,
    whenTruthy (resolvedNamesRef w1 !! url) = Some name
    ∧ effects (checkUrl v w1) = OnUrlChange url name :: effects w1
    ∧ timers (checkUrl v w1) = timers w1
    ∧ resolvedNamesRef (checkUrl v w1) = resolvedNamesRef w1.
Proof.
  intros Hfound url w1 Hhref Htruthy Hlast Hrec Hallowed [kind Hblock].
  assert (is_Some (whenTruthy (resolvedNamesRef w1 !! url))) as [name Hname].
  { apply run_keeps_cached. unfold tryGetName. cbn zeta. rewrite Hfound. cbn.
    fold url. rewrite lookup_insert_eq. cbn.
    unfold whenTruthy in Hfound. destruct (extractor _ _) as [s|]; [| done].
    destruct (JsString.truthy s) eqn:Hs; [| done]. injection Hfound as <-.
    by rewrite Hs. }
  exists name. split; [done |].
  erewrite (checkUrl_enters_block v w1 url kind); [| done..|].
  2:{ unfold resolveBlock. rewrite (blockOf_guard _ _ Hblock). cbn.
      rewrite Hname. reflexivity. }
  done.
Qed.

(** A run of failed attempts of any block, as long as attempts remain. *)
Lemma failed_attempts_of kind url title (failing : list Document) :
  Forall (nameMissing kind) failing →
  ∀ (attempt ms : nat) (w : Watcher),
    timers w = [(ms, retryOf kind url title attempt)] →
    (attempt + length failing ≤ 5)%nat →
    let w' := run (TimerFires 0 <$> failing) w in
    ∃ new ms',
      effects w' = new ++ effects w
      ∧ timers w' = [(ms', retryOf kind url title (attempt + length failing))]
      ∧ resolvedNamesRef w' = resolvedNamesRef w
      ∧ callsOf new = []
      ∧ queriesOf new = length failing
      ∧ timeoutsOf new = rev ((fun i => i * 300)%nat <$> seq attempt (length failing)).
Proof.
  induction 1 as [|doc failing Hdoc _ IH]; intros attempt ms w Hw Hle; cbn zeta.
  - exists [], ms. rewrite Nat.add_0_r. by split_and!.
  - cbn [fmap list_fmap run foldl step length] in *. rewrite Hw. cbn [lookup list_lookup].
    unfold tryGetName. cbn [Retry.kind retryOf Retry.attempt Retry.maxAttempts].
    unfold nameMissing in Hdoc. rewrite Hdoc.
    destruct (Nat.ltb_spec attempt 5) as [_|]; [| lia].
    match goal with |- context [foldl step ?w0 _] =>
      destruct (IH (attempt + 1)%nat (attempt * 300)%nat w0) as
        (new & ms' & Heff & Htim & Hcache & Hcalls & Hq & Ht); [done | lia |]
    end.
    unfold run in *. rewrite Heff, Htim, Hcache. cbn.
    exists (new ++ [SetTimeout (attempt * 300); QuerySelector (selectorOf kind)]), ms'.
    split_and!.
    + cbn [app]. by rewrite <- app_assoc.
    + do 2 f_equal. f_equal. lia.
    + done.
    + by rewrite callsOf_app, Hcalls.
    + rewrite queriesOf_app, Hq. cbn. lia.
    + rewrite timeoutsOf_app, Ht. cbn. by rewrite Nat.add_1_r.
Qed.

(** X8.  The community and profile blocks retry like the list block.  For a
    URL taken by any of the three blocks, with no usable cached or stored
    name and an accessible document, [checkUrl] sets one timer of 500 ms;
    failed attempts set the next timers 300, 600, 900 and 1200 ms later;
    the first attempt that finds a name, after fewer than five failures,
    reports and caches that name; the fifth failure reports the title
    derived from the URL; no timer is left in either case. *)
Theorem name_retry_schedule (kind : NameKind) v w url (failing : list Document) :
  href v = Present url →
  JsString.truthy url = true →
  url ≠ lastUrlRef w →
  url ≠ lastRecordedUrlRef w →
  shouldRecordUrl url = true →
  blockOf url = Some kind →
  whenTruthy (resolvedNamesRef w !! url) = None →
  storedTitle kind v url = None →
  document v = Present () →
  timers w = [] →
  Forall (nameMissing kind) failing →
  let w1 := checkUrl v w in
  (effects w1 = SetTimeout 500 :: effects w
   ∧ timers w1 = [(500%nat, retryOf kind url (getTitleFromUrl url) 1)])
  ∧ ((length failing < 5)%nat →
     ∀ doc name, whenTruthy (extractor kind doc) = Some name →
       let w2 := run (TimerFires 0 <$> failing ++ [doc]) w1 in
       ∃ new,
         effects w2 = new ++ effects w
         ∧ callsOf new = [(url, name)]
         ∧ resolvedNamesRef w2 !! url = Some name
         ∧ timers w2 = []
         ∧ queriesOf new = (length failing + 1)%nat
         ∧ timeoutsOf new
           = rev (take (length failing + 1) [500; 300; 600; 900; 1200]%nat))
  ∧ (length failing = 5%nat →
     let w2 := run (TimerFires 0 <$> failing) w1 in
     ∃ new,
       effects w2 = new ++ effects w
       ∧ callsOf new = [(url, getTitleFromUrl url)]
       ∧ resolvedNamesRef w2 = resolvedNamesRef w
       ∧ timers w2 = []
       ∧ queriesOf new = 5%nat
       ∧ timeoutsOf new = rev [500; 300; 600; 900; 1200]%nat).
Proof.
  intros Hhref Htruthy Hlast Hrec Hallowed Hblock Hcache Hstored Hdoc Htimers
    Hfailing w1.
  subst w1.
  rewrite (checkUrl_enters_block v w url kind Hhref Htruthy Hlast Hrec Hallowed
             Hblock
             (setTimeout (retryOf kind url (getTitleFromUrl url) 1) 500
                {| lastUrlRef := url; lastRecordedUrlRef := url;
                   resolvedNamesRef := resolvedNamesRef w; timers := timers w;
                   effects := effects w |})).
  2:{ unfold resolveBlock. rewrite (blockOf_guard _ _ Hblock). cbn.
      by rewrite Hcache, Hstored, Hdoc. }
  unfold setTimeout, perform. cbn [timers effects lastUrlRef lastRecordedUrlRef
    resolvedNamesRef]. rewrite Htimers. cbn [app].
  split; [by split | split].
  - intros Hlen doc name Hfound.
    rewrite fmap_app. unfold run. rewrite foldl_app.
    match goal with |- context [foldl step ?w0 (TimerFires 0 <$> failing)] =>
      destruct (failed_attempts_of kind url (getTitleFromUrl url) failing Hfailing
                  1 500 w0 eq_refl ltac:(lia))
        as (new & ms' & Heff & Htim & Hnames & Hcalls & Hq & Ht)
    end.
    unfold run in *. cbn [fmap list_fmap foldl step]. rewrite Htim.
    cbn [lookup list_lookup]. unfold tryGetName.
    cbn [Retry.kind retryOf Retry.currentUrl]. rewrite Hfound. cbn.
    rewrite Heff, Hnames. cbn.
    exists ([OnUrlChange url name; QuerySelector (selectorOf kind)]
              ++ new ++ [SetTimeout 500]).
    split_and!.
    + by rewrite <- !app_assoc.
    + by rewrite !callsOf_app, Hcalls.
    + by rewrite lookup_insert_eq.
    + done.
    + rewrite !queriesOf_app, Hq. cbn. lia.
    + rewrite !timeoutsOf_app, Ht. cbn.
      do 5 (destruct failing as [|? failing]; [done |]). simpl in Hlen. lia.
  - intros Hlen.
    destruct (exists_last (l := failing)) as (first & doc & ->).
    { by intros ->. } apply Forall_app in Hfailing as [Hfirst Hlast5].
    rewrite length_app in Hlen. cbn in Hlen.
    rewrite fmap_app. unfold run. rewrite foldl_app.
    match goal with |- context [foldl step ?w0 (TimerFires 0 <$> first)] =>
      destruct (failed_attempts_of kind url (getTitleFromUrl url) first Hfirst
                  1 500 w0 eq_refl ltac:(lia))
        as (new & ms' & Heff & Htim & Hnames & Hcalls & Hq & Ht)
    end.
    unfold run in *. cbn [fmap list_fmap foldl step]. rewrite Htim.
    cbn [lookup list_lookup]. unfold tryGetName.
    cbn [Retry.kind retryOf Retry.currentUrl Retry.attempt
      Retry.maxAttempts Retry.title].
    apply Forall_inv in Hlast5. unfold nameMissing in Hlast5.
    rewrite Hlast5.
    replace (1 + length first)%nat with 5%nat by lia. cbn.
    rewrite Heff, Hnames. cbn.
    exists ([OnUrlChange url (getTitleFromUrl url); QuerySelector (selectorOf kind)]
              ++ new ++ [SetTimeout 500]).
    split_and!.
    + by rewrite <- !app_assoc.
    + by rewrite !callsOf_app, Hcalls.
    + done.
    + done.
    + rewrite !queriesOf_app, Hq. cbn. lia.
    + rewrite !timeoutsOf_app, Ht. cbn.
      do 4 (destruct first as [|? first]; [simpl in Hlen; lia |]).
      destruct first; [done | simpl in Hlen; lia].
Qed.

End WatcherRuns.

(** ** The content filter run again *)

Section FilterRuns.
Context `{Platform}.

Lemma filterPost_twice (again first : list FilterRule.t) (post : Post.t) :
  filterPost again (filterPost first post) = filterPost first post.
Proof.
  unfold filterPost at 1.
  rewrite bool_decide_eq_true_2; [done |].
  unfold filterPost. destruct (bool_decide _) eqn:Hdone.
  - by apply bool_decide_eq_true in Hdone.
  - done.
Qed.

(** X9.  The filter never looks twice at a post: running [filterPosts]
    again on posts it has processed, with the same or with any other rules,
    changes nothing, so a hidden post stays hidden and a shown one shown
    even if the rules change. *)
Theorem filterPosts_processed_once
    (first again : list FilterRule.t) (posts : list Post.t) :
  filterPosts again (filterPosts first posts) = filterPosts first posts.
Proof.
  unfold filterPosts. rewrite map_map. apply map_ext. intros post.
  apply filterPost_twice.
Qed.

End FilterRuns.

(** ** Titles and column types *)

Section TitleFacts.
Context `{Platform}.
Import Regex.

Lemma all_impl (p q : ascii → bool) (s : string) :
  (∀ c, p c = true → q c = true) →
  JsString.all p s = true → JsString.all q s = true.
Proof.
  intros Hpq. induction s as [|c s IH]; [done |]. cbn.
  intros [Hc Hs]%andb_true_iff. by rewrite (Hpq c Hc), IH.
Qed.

Lemma isWordChar_notSlash (c : ascii) :
  isWordChar c = true → negb (Ascii.eqb c "/") = true.
Proof. destruct (Ascii.eqb_spec c "/") as [-> |]; [by vm_compute | done]. Qed.

(** The profile pattern of [getTitleFromUrl]: a slash and one segment. *)
Lemma test_segment s :
  test (Anchored (Cat (char "/") (plus notSlash))) s = true
  ↔ ∃ segment, s = "/" +:+ segment ∧ segment ≠ ""
      ∧ JsString.all (fun c => negb (Ascii.eqb c "/")) segment = true.
Proof.
  simpl test. rewrite matchb_lang, lang_Cat. split.
  - intros (s1 & s2 & -> & (d & -> & Hd)%lang_Chr & H2).
    apply Ascii.eqb_eq in Hd as <-.
    apply lang_plus_Chr in H2 as [H2 H3]. by exists s2.
  - intros (segment & -> & Hne & Hall). exists "/", segment. split_and!; [done | |].
    + apply lang_Chr. by exists "/"%char.
    + by apply lang_plus_Chr.
Qed.

Lemma no_slash_no_lists segment :
  JsString.all (fun c => negb (Ascii.eqb c "/")) segment = true →
  JsString.includes "/i/lists/" ("/" +:+ segment) = false.
Proof.
  intros Hall. apply not_true_is_false. intros (u & v & Huv)%includes_spec.
  assert (∃ a b, segment = a +:+ "/" +:+ b) as (a & b & ->).
  { destruct u as [|c u].
    - assert (String "/" segment = String "/" ("i" +:+ "/" +:+ "lists/" +:+ v))
        as [= ->] by exact Huv.
      by exists "i", ("lists/" +:+ v).
    - assert (String "/" segment = String c (u +:+ "/" +:+ "i/lists/" +:+ v))
        as [= _ ->] by exact Huv.
      by exists u, ("i/lists/" +:+ v). }
  rewrite all_app, str_app_cons in Hall. cbn in Hall.
  by apply andb_true_iff in Hall as [_ Hall].
Qed.

(** X10.  The title derived from a URL agrees with the column type derived
    from it: home, notifications, messages, search and list columns get
    their fixed titles (a search with a non-empty [q] gets the magnifying
    glass and the keyword), a profile column gets [@] and the handle, a
    bookmarks column gets X; explore and community columns get Explore and
    X unless their path holds [/i/lists/], which gives List.  A URL that
    does not parse gets X and the type unknown. *)
Theorem title_of_column_type (url : string) :
  let title := getTitleFromUrl url in
  match URL_new url with
  | None => title = "X" ∧ getColumnTypeFromUrl url = ColumnType.unknown
  | Some urlObj =>
      let holdsLists := JsString.includes "/i/lists/" (pathname urlObj) in
      match getColumnTypeFromUrl url with
      | ColumnType.home => title = "Home"
      | ColumnType.notifications => title = "Notifications"
      | ColumnType.messages => title = "DM"
      | ColumnType.search =>
          match searchParams_get urlObj "q" with
          | Some keyword => title = if JsString.truthy keyword
                                    then "🔍" +:+ keyword else "🔍Search"
          | None => title = "🔍Search"
          end
      | ColumnType.list => title = "List"
      | ColumnType.explore => title = if holdsLists then "List" else "Explore"
      | ColumnType.bookmarks => title = "X"
      | ColumnType.community => title = if holdsLists then "List" else "X"
      | ColumnType.user_profile =>
          ∃ handle, pathname urlObj = "/" +:+ handle ∧ title = "@" +:+ handle
      | ColumnType.unknown => True
      end
  end.
Proof.
  unfold getTitleFromUrl, getColumnTypeFromUrl.
  destruct (URL_new url) as [urlObj|]; cbn [mbind option_bind try_catch];
    [| done].
  cbn zeta. set (path := pathname urlObj).
  destruct (String.eqb path "/home"); [done |].
  destruct (String.eqb path "/notifications"); [done |].
  destruct (String.eqb path "/messages" || JsString.startsWith "/messages/" path);
    [done |].
  destruct (String.eqb path "/search").
  { by destruct (searchParams_get urlObj "q"). }
  destruct (test (Anchored (Cat (lit "/i/lists/") (plus dot))) path) eqn:Hlist.
  { apply test_lit_then in Hlist as (rest & Hpath & _).
    assert (JsString.includes "/i/lists/" path = true) as ->; [| done].
    apply includes_spec. by exists "", rest. }
  destruct (String.eqb path "/explore" || JsString.startsWith "/explore/" path)
    eqn:Hexplore.
  { by destruct (JsString.includes "/i/lists/" path). }
  destruct (String.eqb_spec path "/i/bookmarks") as [-> | _]; [done |].
  destruct (test (Anchored (Cat (lit "/i/communities/") (plus dot))) path)
    eqn:Hcommunity.
  { destruct (JsString.includes "/i/lists/" path); [done |].
    apply test_lit_then in Hcommunity as (rest & -> & _).
    destruct (test (Anchored (Cat (char "/") (plus notSlash))) _) eqn:Hsegment;
      [| done].
    apply test_segment in Hsegment as (segment & Heq & _ & Hall).
    assert (String "/" (String "i" (String "/" ("communities/" +:+ rest)))
            = String "/" segment) as [= <-] by exact Heq.
    by cbn in Hall. }
  destruct (test (Anchored (Cat (char "/") (range 1 15 word))) path) eqn:Hhandle;
    [| done].
  apply test_handle in Hhandle as (handle & Hpath & [Hlen _] & Hall).
  apply (all_impl _ _ _ isWordChar_notSlash) in Hall.
  exists handle. split; [done |]. rewrite Hpath in *.
  rewrite no_slash_no_lists by done.
  assert (test (Anchored (Cat (char "/") (plus notSlash))) ("/" +:+ handle) = true)
    as ->.
  { apply test_segment. exists handle. split_and!; [done | | done].
    intros ->. cbn in Hlen. lia. }
  by rewrite str_app_cons, str_app_nil_l.
Qed.

Lemma getTitleFromUrl_truthy (url : string) :
  JsString.truthy (getTitleFromUrl url) = true.
Proof.
  unfold getTitleFromUrl.
  destruct (URL_new url) as [urlObj|]; cbn [mbind option_bind try_catch];
    [| done].
  repeat match goal with
         | |- context [if ?b then _ else _] => destruct b
         | |- context [match ?o with Some _ => _ | None => _ end] => destruct o
         end; by rewrite ?str_app_cons.
Qed.

End TitleFacts.

(** ** The rate-limit panel *)

Section PanelFacts.
Context `{Platform}.

Lemma exclude_all (categories excludeCategories : list RateLimitCategory) :
  foldl (fun categories category =>
           List.filter (fun kept => negb (bool_decide (kept = category))) categories)
        categories excludeCategories
  = List.filter (fun kept => negb (Array_includes excludeCategories kept)) categories.
Proof.
  revert categories.
  induction excludeCategories as [|category excludeCategories IH];
    intros categories; cbn [foldl].
  - unfold Array_includes. induction categories as [|c categories IHc]; [done |].
    cbn. rewrite bool_decide_eq_false_2 by set_solver. cbn. by f_equal.
  - rewrite IH. clear IH.
    induction categories as [|c categories IHc]; [done |]. cbn.
    unfold Array_includes in *.
    destruct (decide (c = category)) as [-> | Hne].
    + rewrite bool_decide_eq_true_2 by done. cbn.
      rewrite (bool_decide_eq_true_2 (category ∈ category :: excludeCategories))
        by set_solver. cbn. apply IHc.
    + rewrite (bool_decide_eq_false_2 (c = category)) by done. cbn.
      rewrite IHc.
      destruct (decide (c ∈ excludeCategories)) as [Hin | Hout].
      * rewrite (bool_decide_eq_true_2 (c ∈ excludeCategories)) by done.
        rewrite (bool_decide_eq_true_2 (c ∈ category :: excludeCategories)); [done |].
        apply elem_of_cons. by right.
      * rewrite (bool_decide_eq_false_2 (c ∈ excludeCategories)) by done.
        rewrite (bool_decide_eq_false_2 (c ∈ category :: excludeCategories)); [done |].
        by intros [? | ?]%elem_of_cons.
Qed.

Lemma rows_of_nothing :
  List.filter (fun item => Array_includes [] (key item)) RATE_LIMIT_ITEMS = [].
Proof. reflexivity. Qed.

Lemma rows_of_one (category : RateLimitCategory) :
  ∃ row, List.filter (fun item => Array_includes [category] (key item))
           RATE_LIMIT_ITEMS = [row]
         ∧ key row = category.
Proof. destruct category; eexists; split; reflexivity. Qed.

(** The categories of a column before the exclusion. *)
Lemma relevant_cases (currentUrl : string)
    (excludeCategories : list RateLimitCategory) :
  (getRelevantCategories currentUrl excludeCategories = []
   ∨ (∃ category, (category ∉ excludeCategories)
        ∧ getRelevantCategories currentUrl excludeCategories = [category]))
  ∧ (getColumnTypeFromUrl currentUrl
       ∈ [ColumnType.notifications; ColumnType.bookmarks;
          ColumnType.community; ColumnType.unknown]
     → getRelevantCategories currentUrl excludeCategories = []).
Proof.
  unfold getRelevantCategories. cbn zeta. rewrite exclude_all.
  unfold Array_includes.
  destruct (getColumnTypeFromUrl currentUrl); cbn [List.filter];
    try (split; [by left | done]);
    (case_bool_decide as Hex; cbn [negb];
     (split;
      [ first [by left | right; by eexists]
      | intros Hin; repeat (apply elem_of_cons in Hin as [? | Hin]; [done |]);
        by apply elem_of_nil in Hin ])).
Qed.

(** X12.  In URL mode the panel shows at most one quota, never one of the
    excluded categories, and exactly the categories that
    [getRelevantCategories] returns; a column whose type is notifications,
    bookmarks, community or unknown shows none. *)
Theorem panel_rows_of_column (currentUrl : string)
    (excludeCategories : list RateLimitCategory) :
  let relevant := getRelevantCategories currentUrl excludeCategories in
  let rows := items currentUrl excludeCategories None in
  key <$> rows = relevant
  ∧ (length rows ≤ 1)%nat
  ∧ (∀ row, row ∈ rows → key row ∉ excludeCategories)
  ∧ (getColumnTypeFromUrl currentUrl
       ∈ [ColumnType.notifications; ColumnType.bookmarks;
          ColumnType.community; ColumnType.unknown]
     → rows = []).
Proof.
  cbn zeta. unfold items.
  destruct (relevant_cases currentUrl excludeCategories)
    as [[-> | (category & Hex & ->)] Hnone].
  - rewrite rows_of_nothing. split_and!; [done | cbn; lia | | done].
    by intros ? ?%elem_of_nil.
  - destruct (rows_of_one category) as (row & -> & <-).
    split_and!; [done | cbn; lia | |].
    + by intros ? ->%list_elem_of_singleton.
    + by intros [=]%Hnone.
Qed.

End PanelFacts.

(** ** The store: columns and filters *)

Lemma findIndex_found {A : Type} (p : A → bool) (xs : list A) :
  findIndex p xs ≠ -1 →
  ∃ before x after,
    xs = before ++ x :: after
    ∧ findIndex p xs = Z.of_nat (length before)
    ∧ p x = true
    ∧ Forall (fun y => p y = false) before.
Proof.
  unfold findIndex.
  destruct (list_find _ xs) as [[i x]|] eqn:Hfind; [intros _ | done].
  apply list_find_Some in Hfind as (Hi & Hx & Hbefore).
  exists (take i xs), x, (drop (S i) xs).
  assert (i < length xs)%nat as Hlt by (by eapply lookup_lt_Some).
  split_and!.
  - by rewrite take_drop_middle.
  - rewrite length_take. f_equal. lia.
  - done.
  - apply Forall_forall. intros y Hy.
    apply list_elem_of_lookup in Hy as [j Hj].
    apply lookup_take_Some in Hj as [Hj Hji].
    specialize (Hbefore j y Hj Hji). by destruct (p y).
Qed.

Lemma findIndex_none {A : Type} (p : A → bool) (xs : list A) :
  findIndex p xs = -1 ↔ Forall (fun y => p y = false) xs.
Proof.
  unfold findIndex.
  destruct (list_find _ xs) as [[i x]|] eqn:Hfind.
  - apply list_find_Some in Hfind as (Hi & Hx & _). split; [lia |].
    intros Hall. eapply Forall_lookup_1 in Hall; [| done]. cbn in Hall. congruence.
  - apply list_find_None in Hfind. split; [intros _ | done].
    eapply Forall_impl; [done |]. intros y Hy. cbn in Hy. by destruct (p y).
Qed.

Lemma findIndex_split {A : Type} (p : A → bool) (before after : list A) (x : A) :
  Forall (fun y => p y = false) before → p x = true →
  findIndex p (before ++ x :: after) = Z.of_nat (length before).
Proof.
  intros Hbefore Hx. unfold findIndex.
  assert (list_find (fun y => p y = true) (before ++ x :: after)
          = Some (length before, x)) as ->; [| done].
  apply list_find_Some. split_and!; [| done |].
  - by rewrite list_lookup_middle.
  - intros j y Hj Hlt. rewrite lookup_app_l in Hj by done.
    eapply Forall_lookup_1 in Hbefore; [| done]. cbn in Hbefore. congruence.
Qed.

(** X13.  [addColumn] puts the new column right before the first settings
    column and at the end when there is none; the columns before and after
    keep their order.  The index of the settings column before the call,
    which is where [handleAddColumn] then moves the view, is the index of
    the new column. *)
Theorem addColumn_before_settings (column : Column.t) (columns : list Column.t) :
  let settingsIndex := findIndex Column.isSettings columns in
  ∃ before after,
    columns = before ++ after
    ∧ addColumn column columns = before ++ column :: after
    ∧ Forall (fun c => Column.isSettings c = false) before
    ∧ match after with
      | [] => settingsIndex = -1
      | settings :: _ =>
          Column.isSettings settings = true
          ∧ settingsIndex = Z.of_nat (length before)
          ∧ addColumn column columns !! Z.to_nat settingsIndex = Some column
      end.
Proof.
  cbn zeta. unfold addColumn. cbn zeta.
  destruct (Z.eqb_spec (findIndex Column.isSettings columns) (-1)) as [Hnone | Hsome];
    cbn [negb].
  - exists columns, []. rewrite app_nil_r. split_and!; [done | done | | done].
    by apply findIndex_none.
  - destruct (findIndex_found _ _ Hsome) as (before & settings & after & -> & Hi & Hs & Hb).
    rewrite Hi. unfold sliceTo, sliceFrom. rewrite Nat2Z.id.
    rewrite take_app_length, drop_app_length.
    exists before, (settings :: after). split_and!; [done | done | done | done | done |].
    by rewrite list_lookup_middle.
Qed.

Lemma filter_id_absent (columnId : string) (columns : list Column.t) :
  columnId ∉ Column.id <$> columns →
  List.filter (fun c => negb (String.eqb (Column.id c) columnId)) columns = columns.
Proof.
  induction columns as [|c columns IH]; [done |]. cbn [fmap list_fmap List.filter].
  intros Hnot. apply not_elem_of_cons in Hnot as [Hne Hnot].
  destruct (String.eqb_spec (Column.id c) columnId) as [Heq | _]; [congruence |].
  cbn. by rewrite IH.
Qed.

Lemma absent_findIndex (columnId : string) (columns : list Column.t) :
  columnId ∉ Column.id <$> columns →
  Forall (fun c => String.eqb (Column.id c) columnId = false) columns.
Proof.
  intros Hnot. apply Forall_forall. intros c Hc.
  apply String.eqb_neq. intros <-. apply Hnot. by apply list_elem_of_fmap_2.
Qed.

(** Columns with distinct ids, one of which has the id: the list splits
    around it, and no other column has it. *)
Lemma distinctIds_split (columnId : string) (columns : list Column.t) :
  distinctIds columns →
  columnId ∈ Column.id <$> columns →
  ∃ before removed after,
    columns = before ++ removed :: after
    ∧ Column.id removed = columnId
    ∧ (columnId ∉ Column.id <$> before)
    ∧ (columnId ∉ Column.id <$> after).
Proof.
  unfold distinctIds. intros Hdistinct Hin.
  apply list_elem_of_fmap in Hin as (removed & -> & Hin).
  apply list_elem_of_split in Hin as (before & after & ->).
  exists before, removed, after.
  rewrite fmap_app, fmap_cons in Hdistinct.
  apply NoDup_app in Hdistinct as (_ & Hba & Hra).
  apply NoDup_cons in Hra as [Hra _].
  split_and!; [done | done | | done].
  intros Hb. apply (Hba _ Hb). by left.
Qed.

(** X14.  With distinct column ids, removing a column that exists and is
    not the selected one leaves the selection on the very same column; and
    removing the selected column moves the selection to its left
    neighbour, or leaves it at index 0 when it was the first. *)
Theorem removeColumn_keeps_selection (columnId : string)
    (columns : list Column.t) (currentColumnIndex : Z) (selected : Column.t) :
  distinctIds columns →
  columnId ∈ Column.id <$> columns →
  0 ≤ currentColumnIndex →
  columns !! Z.to_nat currentColumnIndex = Some selected →
  let newColumns := fst (removeColumn columnId columns currentColumnIndex) in
  let newIndex := snd (removeColumn columnId columns currentColumnIndex) in
  length newColumns = pred (length columns)
  ∧ (Column.id selected ≠ columnId →
     0 ≤ newIndex ∧ newColumns !! Z.to_nat newIndex = Some selected)
  ∧ (Column.id selected = columnId →
     newIndex = Z.max 0 (currentColumnIndex - 1)
     ∧ (0 < currentColumnIndex →
        newColumns !! Z.to_nat newIndex = columns !! Z.to_nat (currentColumnIndex - 1))).
Proof.
  intros Hdistinct Hin Hnonneg Hselected. cbn zeta.
  destruct (distinctIds_split _ _ Hdistinct Hin)
    as (before & removed & after & -> & Hid & Hbefore & Hafter).
  unfold removeColumn. cbn [fst snd].
  rewrite (findIndex_split _ before after removed);
    [| by apply absent_findIndex | by apply String.eqb_eq].
  assert (List.filter (fun c => negb (String.eqb (Column.id c) columnId))
            (before ++ removed :: after) = before ++ after) as ->.
  { rewrite List.filter_app. cbn [List.filter].
    rewrite (proj2 (String.eqb_eq _ _) Hid). cbn [negb].
    by rewrite !filter_id_absent. }
  rewrite !length_app. cbn [length].
  split_and!; [lia | |].
  - intros Hother.
    destruct (decide (Z.to_nat currentColumnIndex < length before)%nat) as [Hlt | Hge].
    + rewrite (proj2 (Z.leb_gt _ _)) by lia. cbn [andb].
      split; [done |]. rewrite lookup_app_l in * by done. done.
    + assert (Z.to_nat currentColumnIndex ≠ length before) as Hne.
      { intros Heq. rewrite Heq, list_lookup_middle in Hselected by done.
        congruence. }
      rewrite (proj2 (Z.leb_le _ _)) by lia.
      rewrite (proj2 (Z.ltb_lt _ _)) by lia. cbn [andb].
      split; [lia |].
      rewrite lookup_app_r in * by lia.
      replace (Z.to_nat currentColumnIndex - length before)%nat
        with (S (Z.to_nat (currentColumnIndex - 1) - length before)) in Hselected
        by lia.
      done.
  - intros Hsame.
    assert (Z.to_nat currentColumnIndex = length before) as Heq.
    { destruct (decide (Z.to_nat currentColumnIndex < length before)%nat) as [Hlt | Hge].
      - rewrite lookup_app_l in Hselected by done.
        destruct Hbefore. rewrite <- Hsame.
        apply list_elem_of_fmap_2. by eapply list_elem_of_lookup_2.
      - destruct (decide (Z.to_nat currentColumnIndex = length before)); [done |].
        rewrite lookup_app_r in Hselected by lia.
        replace (Z.to_nat currentColumnIndex - length before)%nat
          with (S (Z.to_nat currentColumnIndex - length before - 1)) in Hselected
          by lia.
        cbn in Hselected. destruct Hafter. rewrite <- Hsame.
        apply list_elem_of_fmap_2. by eapply list_elem_of_lookup_2. }
    rewrite (proj2 (Z.leb_le _ _)) by lia. cbn [andb].
    destruct (Z.ltb_spec 0 currentColumnIndex) as [Hpos | Hzero].
    + split; [lia |]. intros _.
      rewrite !lookup_app_l by lia. done.
    + split; [lia |]. intros ?. lia.
Qed.

(** X15.  Removing an id that no column has leaves the columns as they are,
    and yet moves the selection one to the left unless it is at index 0 or
    below. *)
Theorem removeColumn_unknown_id (columnId : string)
    (columns : list Column.t) (currentColumnIndex : Z) :
  columnId ∉ Column.id <$> columns →
  removeColumn columnId columns currentColumnIndex
  = (columns, if 0 <? currentColumnIndex then currentColumnIndex - 1
              else currentColumnIndex).
Proof.
  intros Habsent. unfold removeColumn.
  rewrite filter_id_absent by done.
  rewrite (proj2 (findIndex_none _ _)) by (by apply absent_findIndex).
  destruct (Z.ltb_spec 0 currentColumnIndex) as [Hpos | Hle].
  - by rewrite (proj2 (Z.leb_le _ _)) by lia.
  - by rewrite andb_false_r.
Qed.

Lemma spliceStart_in_range (len : nat) (index : Z) :
  0 ≤ index ≤ Z.of_nat len → spliceStart len index = Z.to_nat index.
Proof.
  intros Hrange. unfold spliceStart.
  destruct (Z.ltb_spec index 0); [lia |]. f_equal. lia.
Qed.

(** A move between two positions of the list. *)
Lemma moveColumn_in_range (from to : nat) (columns : list Column.t)
    (moved : Column.t) :
  columns !! from = Some moved →
  (to < length columns)%nat →
  ∃ newColumns,
    moveColumn (Z.of_nat from) (Z.of_nat to) columns = Some newColumns
    ∧ newColumns ≡ₚ columns
    ∧ newColumns !! to = Some moved
    ∧ delete to newColumns = delete from columns.
Proof.
  intros Hfrom Hto.
  assert (from < length columns)%nat as Hlt by (by eapply lookup_lt_Some).
  unfold moveColumn. cbn zeta.
  rewrite spliceStart_in_range, Nat2Z.id by lia. rewrite Hfrom.
  assert (length (delete from columns) = pred (length columns)) as Hlen.
  { rewrite length_delete; [lia | done]. }
  rewrite spliceStart_in_range, Nat2Z.id by lia.
  eexists. split; [reflexivity |]. split_and!.
  - rewrite <- Permutation_middle, list.take_drop.
    symmetry. by apply delete_Permutation.
  - rewrite lookup_app_r; rewrite length_take; [| lia].
    by replace (to - to `min` length (delete from columns))%nat with 0%nat by lia.
  - assert (length (take to (delete from columns)) = to) as Hto'
      by (rewrite length_take; lia).
    rewrite <- Hto' at 1. rewrite delete_middle. by rewrite list.take_drop.
Qed.

(** X16.  A drag of the settings column never damages the column list: the
    result is always a list of columns holding the same columns.  When the
    dragged and the target column both exist and differ, the dragged
    column ends at the index the target had, and the other columns keep
    their relative order.  [moveColumn] itself, given a source index past
    the end, would insert [undefined]. *)
Theorem handleDragEnd_reorders (activeId : string) (overId : option string)
    (columns : list Column.t) :
  (∃ newColumns,
     handleDragEnd activeId overId columns = Some newColumns
     ∧ newColumns ≡ₚ columns
     ∧ ∀ over oldIndex newIndex active,
         overId = Some over →
         activeId ≠ over →
         findIndex (fun col => String.eqb (Column.id col) activeId) columns
         = Z.of_nat oldIndex →
         findIndex (fun col => String.eqb (Column.id col) over) columns
         = Z.of_nat newIndex →
         columns !! oldIndex = Some active →
         newColumns !! newIndex = Some active
         ∧ delete newIndex newColumns = delete oldIndex columns)
  ∧ (∀ fromIndex toIndex,
       Z.of_nat (length columns) ≤ fromIndex →
       moveColumn fromIndex toIndex columns = None).
Proof.
  split.
  - unfold handleDragEnd.
    destruct overId as [over|]; [| by exists columns; split_and!].
    destruct (String.eqb_spec activeId over) as [Heq | Hne]; cbn [negb].
    { exists columns. split_and!; [done | done |]. by intros ? ? ? ? [= <-]. }
    cbn zeta.
    destruct (Z.eqb_spec
                (findIndex (fun col => String.eqb (Column.id col) activeId) columns)
                (-1)) as [Hold | Hold]; cbn [negb andb].
    { exists columns. split_and!; [done | done |]. intros ? ? ? ? _ _ ?. lia. }
    destruct (Z.eqb_spec
                (findIndex (fun col => String.eqb (Column.id col) over) columns)
                (-1)) as [Hnew | Hnew]; cbn [negb andb].
    { exists columns. split_and!; [done | done |]. intros ? ? ? ? [= <-] _ _ ?. lia. }
    destruct (findIndex_found _ _ Hold) as (b1 & active & a1 & Hc1 & Hi1 & _ & _).
    destruct (findIndex_found _ _ Hnew) as (b2 & target & a2 & Hc2 & Hi2 & _ & _).
    rewrite Hi1, Hi2.
    destruct (moveColumn_in_range (length b1) (length b2) columns active)
      as (newColumns & Hmove & Hperm & Hat & Hothers).
    { rewrite Hc1. by rewrite list_lookup_middle. }
    { rewrite Hc2, length_app. cbn. lia. }
    exists newColumns. split_and!; [done | done |].
    intros over' oldIndex newIndex active' [= <-] _ Hi1' Hi2' Hactive.
    assert (oldIndex = length b1) as -> by lia.
    assert (newIndex = length b2) as -> by lia.
    assert (active' = active) as ->.
    { rewrite Hc1, list_lookup_middle in Hactive by done. congruence. }
    done.
  - intros fromIndex toIndex Hpast. unfold moveColumn. cbn zeta.
    assert (spliceStart (length columns) fromIndex = length columns) as ->.
    { unfold spliceStart. destruct (Z.ltb_spec fromIndex 0); lia. }
    by rewrite lookup_ge_None_2.
Qed.

Lemma updateColumnUrl_find (columnId url : string) (title : option string)
    (columns : list Column.t) :
  find (fun c => String.eqb (Column.id c) columnId)
       (updateColumnUrl columnId url title columns)
  = (fun c =>
       {| Column.id := Column.id c;
          Column.title := match whenTruthy title with
                          | Some title => title
                          | None => Column.title c
                          end;
          Column.currentUrl := url;
          Column.isSettings := Column.isSettings c |})
      <$> find (fun c => String.eqb (Column.id c) columnId) columns.
Proof.
  induction columns as [|c columns IH]; [done |]. cbn.
  destruct (String.eqb (Column.id c) columnId) eqn:Hid; cbn; by rewrite Hid.
Qed.

Lemma find_id_present (columnId : string) (columns : list Column.t) :
  columnId ∈ Column.id <$> columns →
  is_Some (find (fun c => String.eqb (Column.id c) columnId) columns).
Proof.
  induction columns as [|c columns IH]; cbn.
  - by intros ?%elem_of_nil.
  - intros [-> | Hin]%elem_of_cons.
    + by rewrite String.eqb_refl.
    + destruct (String.eqb _ _); [done | by apply IH].
Qed.

(** X17.  A title reported by the watcher is found again on the next
    mount: after [handleUrlChange] has stored a URL with a non-empty title
    other than the placeholder, the stored-column step of the watcher
    returns that title for that URL.  The update leaves the ids, the kinds
    and the number of the columns alone, and every column with another id
    untouched; a call without title, or with an empty one, changes no
    title. *)
Theorem stored_title_round_trip (kind : NameKind) (columnId url title : string)
    (columns : list Column.t) (v : View) :
  JsString.truthy columnId = true →
  columnId ∈ Column.id <$> columns →
  JsString.truthy title = true →
  title ≠ placeholder kind →
  let stored := handleUrlChange columnId url title columns in
  storedTitle kind
    {| href := href v; document := document v;
       columnId := Some columnId; columns := stored |} url
  = Some title
  ∧ Column.id <$> stored = Column.id <$> columns
  ∧ Column.isSettings <$> stored = Column.isSettings <$> columns
  ∧ (∀ c, c ∈ columns → Column.id c ≠ columnId → c ∈ stored)
  ∧ (∀ missing i c,
       whenTruthy missing = None →
       updateColumnUrl columnId url missing columns !! i = Some c →
       ∃ c0, columns !! i = Some c0 ∧ Column.title c = Column.title c0).
Proof.
  intros Hid Hin Htitle Hplace. cbn zeta. unfold handleUrlChange. split_and!.
  - unfold storedTitle. cbn -[updateColumnUrl find]. rewrite Hid.
    rewrite updateColumnUrl_find.
    destruct (find_id_present _ _ Hin) as [c ->]. cbn. rewrite Htitle. cbn.
    rewrite String.eqb_refl, (proj2 (String.eqb_neq _ _) Hplace). done.
  - unfold updateColumnUrl. rewrite <- list_fmap_compose. apply list_fmap_ext.
    intros i c _. cbn. by destruct (String.eqb _ _).
  - unfold updateColumnUrl. rewrite <- list_fmap_compose. apply list_fmap_ext.
    intros i c _. cbn. by destruct (String.eqb _ _).
  - intros c Hc Hne. unfold updateColumnUrl.
    apply list_elem_of_fmap. exists c. split; [| done].
    by rewrite (proj2 (String.eqb_neq _ _) Hne).
  - intros missing i c Hmissing. unfold updateColumnUrl. rewrite list_lookup_fmap.
    destruct (columns !! i) as [c0|]; [| done]. cbn. intros [= <-].
    exists c0. split; [done |]. rewrite Hmissing. by destruct (String.eqb _ _).
Qed.

Section StoreAndWatcher.
Context `{Platform}.

(** X11.  The title derived from a URL is never the empty string; hence,
    when the watcher reports it, [handleUrlChange] always stores it as the
    title of the column, together with the reported URL. *)
Theorem derived_title_is_stored (url reported columnId : string)
    (columns : list Column.t) :
  getTitleFromUrl url ≠ ""
  ∧ ∀ c, c ∈ handleUrlChange columnId reported (getTitleFromUrl url) columns →
         Column.id c = columnId →
         Column.title c = getTitleFromUrl url ∧ Column.currentUrl c = reported.
Proof.
  pose proof (getTitleFromUrl_truthy url) as Htruthy. split.
  { intros Hempty. by rewrite Hempty in Htruthy. }
  intros c Hc Hid. unfold handleUrlChange, updateColumnUrl in Hc.
  apply list_elem_of_fmap in Hc as (c0 & -> & _). cbn [whenTruthy] in *.
  rewrite Htruthy in *.
  destruct (String.eqb_spec (Column.id c0) columnId) as [_ | Hne]; [done |].
  by destruct Hne.
Qed.

Lemma afterCalls_shape (columnId : string) (effects : list Effect)
    (columns : list Column.t) :
  (∀ url title, OnUrlChange url title ∈ effects → shouldRecordUrl url = true) →
  Forall2 (fun before after =>
             Column.id after = Column.id before
             ∧ Column.isSettings after = Column.isSettings before
             ∧ (after = before
                ∨ (Column.id before = columnId
                   ∧ shouldRecordUrl (Column.currentUrl after) = true)))
          columns (afterCalls columnId effects columns).
Proof.
  induction effects as [|effect effects IH]; intros Hlisted; cbn [afterCalls foldr].
  { apply Forall_Forall2_diag, Forall_forall. intros c _. split_and!; auto. }
  assert (∀ url title, OnUrlChange url title ∈ effects → shouldRecordUrl url = true)
    as Hrest.
  { intros url title Hin. apply (Hlisted url title). by right. }
  specialize (IH Hrest). fold (afterCalls columnId effects columns).
  destruct effect as [url title | |]; [| done | done].
  assert (shouldRecordUrl url = true) as Hurl.
  { apply (Hlisted url title). by left. }
  unfold handleUrlChange, updateColumnUrl.
  apply Forall2_fmap_r. eapply Forall2_impl; [exact IH |].
  intros before after (Hid & Hkind & Hcase). cbn.
  destruct (String.eqb (Column.id after) columnId) eqn:Heq; cbn.
  - apply String.eqb_eq in Heq.
    split_and!; [done | done |]. right. split; [congruence | done].
  - by split_and!.
Qed.

(** X18.  Whatever happens to a column's watcher, what it makes the store
    hold is a URL of the whitelist: after any run of triggers and timers
    from the initial refs, with every [onUrlChange] call passed on to
    [handleUrlChange], each stored column is either as it was, or it is the
    watched column with a URL accepted by [shouldRecordUrl]; ids, kinds,
    number and order of the columns are as before. *)
Theorem only_whitelisted_urls_are_stored (events : list Event)
    (columnId : string) (columns : list Column.t) :
  Forall2 (fun before after =>
             Column.id after = Column.id before
             ∧ Column.isSettings after = Column.isSettings before
             ∧ (after = before
                ∨ (Column.id before = columnId
                   ∧ shouldRecordUrl (Column.currentUrl after) = true)))
          columns
          (afterCalls columnId (effects (run events initialWatcher)) columns).
Proof.
  apply afterCalls_shape.
  assert (whitelistedOnly initialWatcher) as Hinit.
  { split; intros; by match goal with Hin : _ ∈ _ |- _ => apply elem_of_nil in Hin end. }
  by destruct (run_whitelistedOnly events initialWatcher Hinit) as [Hcalls _].
Qed.

End StoreAndWatcher.



(** X20.  With at least one restored column, the column index restored
    from storage is below the number of restored columns.  In every case it
    is the stored index when that is below the number of restored columns,
    and 0 when it is missing or not below it, which is also what it is when
    no column was restored and the stored index is not negative.  A
    negative stored index is restored as it is. *)
Theorem restoredColumnIndex_in_range (currentColumnIndex : option Z)
    (columns : list Column.t) :
  let restored := restoredColumnIndex currentColumnIndex columns in
  (columns ≠ [] → restored < Z.of_nat (length columns))
  ∧ (currentColumnIndex = None → restored = 0)
  ∧ (∀ stored, currentColumnIndex = Some stored →
       restored = if stored <? Z.of_nat (length columns) then stored else 0).
Proof.
  cbn zeta. unfold restoredColumnIndex. cbn zeta.
  destruct currentColumnIndex as [stored|].
  - destruct (Z.leb_spec (Z.of_nat (length columns)) stored) as [Hpast | Hin].
    + split_and!; [| done |].
      * intros Hsome. destruct columns; [done | cbn [length]; lia].
      * intros ? [= <-]. by rewrite (proj2 (Z.ltb_ge _ _)) by lia.
    + split_and!; [done | done |].
      intros ? [= <-]. by rewrite (proj2 (Z.ltb_lt _ _)) by lia.
  - destruct columns as [|c columns]; cbn [length].
    + by split_and!.
    + rewrite (proj2 (Z.leb_gt _ _)) by lia. split_and!; [lia | done | done].
Qed.

(** ** Names read from the page *)

Section TrimFacts.

Local Ltac bytes c := destruct c as [[] [] [] [] [] [] [] []].

Lemma isPunctuationSpace_blank (d : ascii) :
  JsString.isPunctuationSpace d = true → blankByte d = true.
Proof. bytes d; intros Hd; solve [reflexivity | discriminate Hd]. Qed.

(** One step of [trimStart]: it stops, or it drops the bytes of one
    white-space character. *)
Lemma trimStart_step (c : ascii) (s1 : string) :
  JsString.trimStart (String c s1) = String c s1
  ∨ ∃ p s', String c s1 = p +:+ s' ∧ p ≠ ""
      ∧ JsString.all blankByte p = true
      ∧ JsString.trimStart (String c s1) = JsString.trimStart s'.
Proof.
  bytes c;
    try (left; reflexivity);
    try (right; eexists (String _ ""), s1; split_and!; reflexivity || done);
    (destruct s1 as [|x s2]; [left; reflexivity |]);
    bytes x;
    try (left; reflexivity);
    try (right; eexists (String _ (String _ "")), s2; split_and!;
         reflexivity || done);
    (destruct s2 as [|y s3]; [left; reflexivity |]);
    try (destruct (JsString.isPunctuationSpace y) eqn:Hy;
         [ right; exists (String "226" (String "128" (String y ""))), s3;
           split_and!; [reflexivity | done | | ];
           [ cbn; by rewrite (isPunctuationSpace_blank y Hy)
           | cbn; by rewrite Hy ]
         | left; cbn; by rewrite Hy ]);
    bytes y;
    try (left; reflexivity);
    try (right; eexists (String _ (String _ (String _ ""))), s3; split_and!;
         reflexivity || done).
Qed.

(** [trimStartReversed] on a first byte that starts none of its fixed
    sequences looks for the two further bytes of a punctuation space only. *)
Lemma trimStartReversed_other (c : ascii) (s1 : string) :
  JsString.isSpace c = false →
  c ≠ "160"%char → c ≠ "128"%char → c ≠ "159"%char → c ≠ "191"%char →
  JsString.trimStartReversed (String c s1)
  = match s1 with
    | String "128" (String "226" s3) =>
        if JsString.isPunctuationSpace c then JsString.trimStartReversed s3
        else String c s1
    | _ => String c s1
    end%char.
Proof.
  bytes c; intros Hspace H160 H128 H159 H191;
    solve [reflexivity | discriminate Hspace | by destruct H160
          | by destruct H128 | by destruct H159 | by destruct H191].
Qed.

Lemma punctuation_space_step (c : ascii) (s1 : string) :
  match s1 with
  | String "128" (String "226" s3) =>
      if JsString.isPunctuationSpace c then JsString.trimStartReversed s3
      else String c s1
  | _ => String c s1
  end%char = String c s1
  ∨ ∃ s3, s1 = String "128" (String "226" s3)
      ∧ JsString.isPunctuationSpace c = true
      ∧ match s1 with
        | String "128" (String "226" s3) =>
            if JsString.isPunctuationSpace c then JsString.trimStartReversed s3
            else String c s1
        | _ => String c s1
        end%char = JsString.trimStartReversed s3.
Proof.
  destruct s1 as [|x s2]; [by left |].
  bytes x; try (left; reflexivity).
  destruct s2 as [|y s3]; [by left |].
  bytes y; try (left; reflexivity).
  destruct (JsString.isPunctuationSpace c) eqn:Hc; [| by left].
  right. by exists s3.
Qed.

(** One step of [trimStartReversed]. *)
Lemma trimStartReversed_step (c : ascii) (s1 : string) :
  JsString.trimStartReversed (String c s1) = String c s1
  ∨ ∃ p s', String c s1 = p +:+ s' ∧ p ≠ ""
      ∧ JsString.all blankByte p = true
      ∧ JsString.trimStartReversed (String c s1) = JsString.trimStartReversed s'.
Proof.
  destruct (JsString.isSpace c) eqn:Hspace.
  { right. exists (String c ""), s1. split_and!; [done | done | |].
    - cbn. unfold blankByte. by rewrite Hspace.
    - cbn [JsString.trimStartReversed]. by rewrite Hspace. }
  destruct (decide (c = "160"%char)) as [-> | H160];
    [| destruct (decide (c = "128"%char)) as [-> | H128];
       [| destruct (decide (c = "159"%char)) as [-> | H159];
          [| destruct (decide (c = "191"%char)) as [-> | H191] ] ] ].
  5:{ rewrite trimStartReversed_other by done.
      destruct (punctuation_space_step c s1) as [-> | (s3 & -> & Hc & ->)];
        [by left |].
      right. exists (String c (String "128" (String "226" ""))), s3.
      split_and!; [done | done | | done].
      cbn. by rewrite (isPunctuationSpace_blank c Hc). }
  all: (destruct s1 as [|x s2]; [left; reflexivity |]);
    bytes x;
    try (left; reflexivity);
    try (right; eexists (String _ (String _ "")), s2; split_and!;
         reflexivity || done);
    (destruct s2 as [|y s3]; [left; reflexivity |]);
    bytes y;
    try (left; reflexivity);
    try (right; eexists (String _ (String _ (String _ ""))), s3; split_and!;
         reflexivity || done).
Qed.

(** A function that drops white-space characters from the front one at a
    time returns a rest of its argument, and has dropped blank bytes only. *)
Lemma dropped_prefix (f : string → string) :
  f "" = "" →
  (∀ c s1,
     f (String c s1) = String c s1
     ∨ ∃ p s', String c s1 = p +:+ s' ∧ p ≠ ""
         ∧ JsString.all blankByte p = true
         ∧ f (String c s1) = f s') →
  ∀ s, ∃ a, s = a +:+ f s ∧ JsString.all blankByte a = true.
Proof.
  intros Hnil Hstep s.
  remember (String.length s) as n eqn:Hn. revert s Hn.
  induction n as [n IH] using lt_wf_ind. intros s ->.
  destruct s as [|c s1].
  { exists "". by rewrite Hnil. }
  destruct (Hstep c s1) as [-> | (p & s' & Hs & Hp & Hblank & ->)].
  { by exists "". }
  destruct (IH (String.length s')) with (s := s') as (a & Ha & Hab); [| done |].
  { rewrite Hs, str_app_length. destruct p; [done | cbn; lia]. }
  exists (p +:+ a). split.
  - by rewrite str_app_assoc, <- Ha.
  - by rewrite all_app, Hblank, Hab.
Qed.

Lemma trimStart_prefix (s : string) :
  ∃ a, s = a +:+ JsString.trimStart s ∧ JsString.all blankByte a = true.
Proof. apply dropped_prefix; [done | apply trimStart_step]. Qed.

Lemma trimStartReversed_prefix (s : string) :
  ∃ a, s = a +:+ JsString.trimStartReversed s ∧ JsString.all blankByte a = true.
Proof. apply dropped_prefix; [done | apply trimStartReversed_step]. Qed.

Lemma reverseOnto_spec (s acc : string) :
  JsString.reverseOnto s acc = JsString.reverse s +:+ acc.
Proof.
  unfold JsString.reverse. revert acc.
  induction s as [|c s IH]; intros acc; cbn; [done |].
  rewrite IH, (IH (String c "")). by rewrite str_app_assoc.
Qed.

Lemma reverse_cons (c : ascii) (s : string) :
  JsString.reverse (String c s) = JsString.reverse s +:+ String c "".
Proof. unfold JsString.reverse at 1. cbn. apply reverseOnto_spec. Qed.

Lemma reverse_app (s t : string) :
  JsString.reverse (s +:+ t) = JsString.reverse t +:+ JsString.reverse s.
Proof.
  induction s as [|c s IH].
  - by rewrite str_app_nil_l, str_app_nil_r.
  - by rewrite str_app_cons, !reverse_cons, IH, str_app_assoc.
Qed.

Lemma reverse_involutive (s : string) : JsString.reverse (JsString.reverse s) = s.
Proof.
  induction s as [|c s IH]; [done |].
  by rewrite reverse_cons, reverse_app, IH.
Qed.

Lemma all_reverse (p : ascii → bool) (s : string) :
  JsString.all p (JsString.reverse s) = JsString.all p s.
Proof.
  induction s as [|c s IH]; [done |].
  rewrite reverse_cons, all_app, IH. cbn. by rewrite andb_true_r, andb_comm.
Qed.

(** [trim] returns a part of its argument; what it leaves out before and
    after consists of bytes of white-space characters. *)
Lemma trim_part (s : string) :
  ∃ a b, s = a +:+ JsString.trim s +:+ b
         ∧ JsString.all blankByte a = true ∧ JsString.all blankByte b = true.
Proof.
  unfold JsString.trim, JsString.trimEnd.
  destruct (trimStart_prefix s) as (a & Ha & Hab).
  destruct (trimStartReversed_prefix (JsString.reverse (JsString.trimStart s)))
    as (b & Hb & Hbb).
  exists a, (JsString.reverse b). split_and!; [| done | by rewrite all_reverse].
  rewrite <- reverse_app, <- Hb, reverse_involutive. done.
Qed.

Lemma all_trim (p : ascii → bool) (s : string) :
  JsString.all p s = true → JsString.all p (JsString.trim s) = true.
Proof.
  destruct (trim_part s) as (a & b & Hs & _ & _). intros Hall.
  rewrite Hs, !all_app in Hall.
  by apply andb_true_iff in Hall as [_ [Hall _]%andb_true_iff].
Qed.

Lemma includes_trim (s : string) : JsString.includes (JsString.trim s) s = true.
Proof.
  destruct (trim_part s) as (a & b & Hs & _ & _).
  apply includes_spec. by exists a, b.
Qed.

(** A string that starts with a byte of no white-space character keeps it
    as its first byte when trimmed. *)
Lemma trim_first (c : ascii) (s : string) :
  blankByte c = false → ∃ rest, JsString.trim (String c s) = String c rest.
Proof.
  intros Hc. destruct (trim_part (String c s)) as (a & b & Hs & Ha & Hb).
  destruct a as [|d a].
  - rewrite str_app_nil_l in Hs.
    destruct (JsString.trim (String c s)) as [|d rest].
    + rewrite str_app_nil_l in Hs. subst b. cbn in Hb. by rewrite Hc in Hb.
    + rewrite str_app_cons in Hs. injection Hs as <- _. by exists rest.
  - rewrite str_app_cons in Hs. injection Hs as <- _. cbn in Ha.
    by rewrite Hc in Ha.
Qed.

Lemma indexOf_Some (c : ascii) (s : string) (i : nat) :
  JsString.indexOf c s = Some i →
  JsString.all (fun d => negb (Ascii.eqb d c)) (JsString.take i s) = true
  ∧ ∃ rest, JsString.drop i s = String c rest.
Proof.
  revert i. induction s as [|d s IH]; intros i; cbn; [done |].
  destruct (Ascii.eqb_spec d c) as [-> | Hne].
  - intros [= <-]. split; [done | by exists s].
  - destruct (JsString.indexOf c s) as [j|]; [| done]. cbn. intros [= <-].
    destruct (IH j eq_refl) as [Hall Hrest]. cbn.
    rewrite Hall, (proj2 (Ascii.eqb_neq _ _) Hne). done.
Qed.

Lemma indexOf_None (c : ascii) (s : string) :
  JsString.indexOf c s = None →
  JsString.all (fun d => negb (Ascii.eqb d c)) s = true.
Proof.
  induction s as [|d s IH]; cbn; [done |].
  destruct (Ascii.eqb_spec d c) as [-> | Hne]; [done |].
  destruct (JsString.indexOf c s); [done |]. intros _. by rewrite IH.
Qed.

Lemma includes_trans (a b c : string) :
  JsString.includes a b = true → JsString.includes b c = true →
  JsString.includes a c = true.
Proof.
  rewrite !includes_spec. intros (u & v & ->) (u' & v' & ->).
  exists (u' +:+ u), (v +:+ v'). by rewrite !str_app_assoc.
Qed.

Lemma includes_take (n : nat) (s : string) :
  JsString.includes (JsString.take n s) s = true.
Proof.
  apply includes_spec. exists "", (JsString.drop n s).
  by rewrite str_app_nil_l, take_drop.
Qed.

Lemma includes_drop (n : nat) (s : string) :
  JsString.includes (JsString.drop n s) s = true.
Proof.
  apply includes_spec. exists (JsString.take n s), "".
  by rewrite str_app_nil_r, take_drop.
Qed.

(** The name cut out of the text of the navigation bar. *)
Lemma bar_name (textContent name : string) :
  (let text := JsString.trim textContent in
   match JsString.indexOf "@" text with
   | Some atIndex => Some (JsString.trim (JsString.take atIndex text))
   | None => Some text
   end) = Some name →
  noAt name = true ∧ JsString.includes name textContent = true.
Proof.
  cbn zeta. destruct (JsString.indexOf _ _) as [atIndex|] eqn:Hat; intros [= <-].
  - apply indexOf_Some in Hat as [Hat _]. split.
    + by apply all_trim.
    + eapply includes_trans; [apply includes_trim |].
      eapply includes_trans; [apply includes_take | apply includes_trim].
  - split; [by apply indexOf_None | apply includes_trim].
Qed.

(** X21.  A list or community name read from the page holds no [@] and is a
    part of the text of the navigation bar.  A profile name read from the
    page starts with [@], so it is never empty, and is a part of the text
    of the user-name block. *)
Theorem names_read_from_page (doc : Document) (name : string) :
  (getListName doc = Some name ∨ getCommunityName doc = Some name →
   noAt name = true
   ∧ ∃ textContent, doc TopNavBar = Element textContent
       ∧ JsString.includes name textContent = true)
  ∧ (getUserName doc = Some name →
     (∃ rest, name = String "@" rest)
     ∧ whenTruthy (getUserName doc) = Some name
     ∧ ∃ textContent, doc UserName = Element textContent
         ∧ JsString.includes name textContent = true).
Proof.
  split.
  - unfold getListName, getCommunityName.
    destruct (doc TopNavBar) as [| |textContent]; [by intros [|] | by intros [|] |].
    destruct (negb _); [by intros [|] |].
    intros Hname. assert (noAt name = true
                          ∧ JsString.includes name textContent = true) as [? ?].
    { by destruct Hname as [Hname | Hname]; apply bar_name in Hname. }
    split; [done |]. by exists textContent.
  - intros Hget. rewrite Hget. unfold getUserName in Hget.
    destruct (doc UserName) as [| |textContent] eqn:Hdoc; [done | done |].
    destruct (negb _) eqn:Hempty; [done |]. cbn zeta in Hget.
    destruct (JsString.indexOf _ _) as [atIndex|] eqn:Hat; [| done].
    injection Hget as <-. apply indexOf_Some in Hat as [_ [rest Hrest]].
    destruct (trim_first "@" rest) as [rest' Htrim]; [done |].
    rewrite Hrest, Htrim.
    split_and!; [by exists rest' | done |].
    exists textContent. split; [done |]. rewrite <- Htrim, <- Hrest.
    eapply includes_trans; [apply includes_trim |].
    eapply includes_trans; [apply includes_drop | apply includes_trim].
Qed.

End TrimFacts.

(** ** The content script *)

Lemma initTwitamaModoki_mounts (location : Location.t) (s : ContentScript) :
  shouldActivate location = true →
  let s' := initTwitamaModoki location s in
  rootElement s' = true ∧ bodyActive s' = true ∧ titleObserver s' = true
  ∧ lastUrl s' = lastUrl s.
Proof. intros Hact. unfold initTwitamaModoki. by rewrite Hact. Qed.

(** The overlay is mounted exactly when the path at the URL seen last
    starts with the launch path. *)
Lemma onMutation_mounted (seen : list Location.t) (location : Location.t)
    (s : ContentScript) :
  samePathForSameHref (location :: seen) →
  (∃ at_, at_ ∈ seen ∧ Location.href at_ = lastUrl s
          ∧ rootElement s = shouldActivate at_
          ∧ bodyActive s = shouldActivate at_
          ∧ titleObserver s = shouldActivate at_) →
  let s' := onMutation location s in
  lastUrl s' = Location.href location
  ∧ rootElement s' = shouldActivate location
  ∧ bodyActive s' = shouldActivate location
  ∧ titleObserver s' = shouldActivate location.
Proof.
  intros Hsame (at_ & Hseen & Hat & Hroot & Hbody & Htitle). cbn zeta.
  unfold onMutation. cbn zeta.
  destruct (String.eqb_spec (Location.href location) (lastUrl s)) as [Heq | Hne];
    cbn [negb].
  - assert (shouldActivate location = shouldActivate at_) as ->.
    { unfold shouldActivate. f_equal. apply Hsame; [by left | by right | congruence]. }
    done.
  - cbn [rootElement]. rewrite Hroot.
    destruct (shouldActivate location) eqn:Hact.
    + destruct (shouldActivate at_) eqn:Hwas; cbn [negb].
      * cbn. by rewrite Hbody, Htitle.
      * unfold initTwitamaModoki. by rewrite Hact.
    + destruct (shouldActivate at_) eqn:Hwas; [done |].
      cbn. by rewrite Hbody, Htitle.
Qed.

(** X23.  When the content script starts on a parsed document, then after
    any series of mutations of the page the overlay is mounted (root
    element, body class and title observer) exactly when the path of the
    current location starts with /run-twitama-modoki. *)
Theorem overlay_follows_location (start : Location.t) (later : list Location.t) :
  samePathForSameHref (start :: later) →
  let s := foldl onPageEvent (startContentScript false start) (Mutation <$> later) in
  let current := List.last later start in
  lastUrl s = Location.href current
  ∧ rootElement s = shouldActivate current
  ∧ bodyActive s = shouldActivate current
  ∧ titleObserver s = shouldActivate current.
Proof.
  revert start. induction later as [|location later IH] using rev_ind;
    intros start Hsame; cbn zeta.
  - cbn [fmap list_fmap foldl List.last]. unfold startContentScript, initTwitamaModoki.
    by destruct (shouldActivate start).
  - rewrite fmap_app, foldl_app, List.last_last. cbn [fmap list_fmap foldl onPageEvent].
    assert (samePathForSameHref (start :: later)) as Hbefore.
    { intros l1 l2 H1 H2. apply Hsame.
      - apply elem_of_cons in H1 as [-> | H1]; [by left |].
        right. apply elem_of_app. by left.
      - apply elem_of_cons in H2 as [-> | H2]; [by left |].
        right. apply elem_of_app. by left. }
    destruct (IH start Hbefore) as (Hurl & Hroot & Hbody & Htitle).
    apply (onMutation_mounted (start :: later)).
    + intros l1 l2 H1 H2. apply Hsame.
      * apply elem_of_cons in H1 as [-> | [-> | H1]%elem_of_cons].
        -- right. apply elem_of_app. right. by left.
        -- by left.
        -- right. apply elem_of_app. by left.
      * apply elem_of_cons in H2 as [-> | [-> | H2]%elem_of_cons].
        -- right. apply elem_of_app. right. by left.
        -- by left.
        -- right. apply elem_of_app. by left.
    + exists (List.last later start). split_and!; [| done..].
      destruct later as [|l later] using rev_ind; [by left |].
      rewrite List.last_last. right. apply elem_of_app. right. by left.
Qed.

(** ** Saving a filter *)

Section SaveFilterFacts.
Context `{Platform}.

Lemma orUndefined_truthy (s : string) : orUndefined s ≠ Some "".
Proof. unfold orUndefined. by destruct s. Qed.

Lemma whenTruthy_orUndefined (s : string) :
  whenTruthy (orUndefined s) = orUndefined s.
Proof. unfold orUndefined. by destruct s. Qed.

(** X24.  A rule that the filter form adds to the store is enabled, has a
    non-empty name, and its optional texts are never the empty string; its
    pattern is the trimmed text of the form, whose untrimmed text was
    accepted by the RegExp constructor.  The form checks its conditions
    before it trims them: a form whose screen name or pattern consists of
    blanks only, with nothing else set, is accepted and adds a rule without
    any condition, which matches every post and so hides every post not
    yet processed. *)
Theorem rule_added_by_the_form (filterForm : FilterForm.t) (newId : string) :
  (∀ rule,
     handleSaveFilter filterForm None newId = AddFilter rule →
     FilterRule.enabled rule = true
     ∧ FilterRule.id rule = newId
     ∧ JsString.truthy (FilterRule.name rule) = true
     ∧ FilterRule.screenName rule ≠ Some ""
     ∧ FilterRule.textPattern rule ≠ Some ""
     ∧ (∀ pattern, FilterRule.textPattern rule = Some pattern →
          pattern = JsString.trim (FilterForm.textPattern filterForm)
          ∧ is_Some (RegExp_new (FilterForm.textPattern filterForm))))
  ∧ (JsString.truthy (JsString.trim (FilterForm.name filterForm)) = true →
     JsString.truthy (FilterForm.screenName filterForm)
     || JsString.truthy (FilterForm.textPattern filterForm) = true →
     (JsString.truthy (FilterForm.textPattern filterForm) = true →
      is_Some (RegExp_new (FilterForm.textPattern filterForm))) →
     JsString.trim (FilterForm.screenName filterForm) = "" →
     JsString.trim (FilterForm.textPattern filterForm) = "" →
     FilterForm.isRetweet filterForm = None →
     FilterForm.hasMedia filterForm = None →
     ∃ rule,
       handleSaveFilter filterForm None newId = AddFilter rule
       ∧ ∀ post, matchesFilter post rule = true
           ∧ (Post.processed post ≠ Some "1" →
              Post.display (filterPost [rule] post) = "none")).
Proof.
  split.
  - intros rule. unfold handleSaveFilter.
    destruct (negb _) eqn:Hname; [done |].
    destruct (JsString.truthy (FilterForm.textPattern filterForm)
              && isNull _) eqn:Hvalid; [done |].
    destruct (negb _ && negb _ && isNull _ && isNull _); [done |].
    cbn [whenTruthy]. intros [= <-]. cbn.
    split_and!; [done | done | by apply negb_false_iff in Hname
                | apply orUndefined_truthy | apply orUndefined_truthy |].
    intros pattern Hpattern. unfold orUndefined in Hpattern.
    destruct (JsString.truthy (JsString.trim (FilterForm.textPattern filterForm)))
      eqn:Htrimmed; [| done].
    injection Hpattern as <-. split; [done |].
    destruct (JsString.truthy (FilterForm.textPattern filterForm)) eqn:Hraw.
    + cbn in Hvalid. by destruct (RegExp_new _).
    + destruct (FilterForm.textPattern filterForm); [done | discriminate Hraw].
  - intros Hname Hsome Hvalid Hscreen Hpattern Hretweet Hmedia.
    unfold handleSaveFilter. rewrite Hname. cbn [negb].
    assert (JsString.truthy (FilterForm.textPattern filterForm)
            && isNull (RegExp_new (FilterForm.textPattern filterForm)) = false) as ->.
    { destruct (JsString.truthy (FilterForm.textPattern filterForm)); [| done].
      by destruct (Hvalid eq_refl) as [? ->]. }
    assert (negb (JsString.truthy (FilterForm.screenName filterForm))
            && negb (JsString.truthy (FilterForm.textPattern filterForm))
            && isNull (FilterForm.isRetweet filterForm)
            && isNull (FilterForm.hasMedia filterForm) = false) as ->.
    { rewrite <- negb_orb, Hsome. done. }
    cbn [whenTruthy]. eexists. split; [reflexivity |].
    rewrite Hscreen, Hpattern, Hretweet, Hmedia. intros post.
    assert (∀ rule', rule' = {| FilterRule.id := newId;
                FilterRule.name := JsString.trim (FilterForm.name filterForm);
                FilterRule.enabled := true;
                FilterRule.screenName := orUndefined "";
                FilterRule.textPattern := orUndefined "";
                FilterRule.isRetweet := None; FilterRule.hasMedia := None |} →
              matchesFilter post rule' = true) as Hall.
    { by intros ? ->. }
    split; [by apply Hall |].
    intros Hfresh. unfold filterPost.
    rewrite bool_decide_eq_false_2 by done. cbn [find].
    by rewrite Hall.
Qed.

End SaveFilterFacts.

(** The further properties, applied on the small platform. *)


Lemma getHeaderValue_letter_case_witness :
  getHeaderValue (Some (lowerCaseNames Sample.capitalHeaders)) "x-rate-limit-limit"
  = getHeaderValue (Some Sample.capitalHeaders) "x-rate-limit-limit"
  ∧ getHeaderValue (Some Sample.capitalHeaders) "X-Rate-Limit-Limit" = None.
Proof.
  split.
  - apply (proj1 (getHeaderValue_letter_case Sample.capitalHeaders
                    "x-rate-limit-limit")).
  - apply (proj2 (getHeaderValue_letter_case Sample.capitalHeaders
                    "X-Rate-Limit-Limit")).
    vm_compute. discriminate.
Defined.

Lemma return_from_excursion_witness :
  effects (run (Trigger <$> [Sample.postView] ++ [Example.homeView])
             (checkUrl Example.homeView initialWatcher))
  = effects (checkUrl Example.homeView initialWatcher).
Proof.
  apply (return_from_excursion (checkUrl Example.homeView initialWatcher)
           "https://x.com/home" [Sample.postView] Example.homeView).
  - vm_compute; reflexivity.
  - repeat constructor. intros currentUrl Hhref. injection Hhref as <-.
    vm_compute; reflexivity.
  - reflexivity.
Defined.

Lemma extracted_name_is_served_from_memory_witness :
  ∃ name,
    effects (checkUrl Example.freshView
               (tryGetName Example.myList
                  (listRetry Example.listUrl "List" 1) initialWatcher))
    = OnUrlChange Example.listUrl name
        :: effects (tryGetName Example.myList
                      (listRetry Example.listUrl "List" 1) initialWatcher).
Proof.
  destruct (extracted_name_is_served_from_memory Example.myList
              (listRetry Example.listUrl "List" 1) initialWatcher "My List"
              [] Example.freshView)
    as (name & _ & Heffects & _).
  - vm_compute; reflexivity.
  - reflexivity.
  - reflexivity.
  - vm_compute. discriminate.
  - vm_compute. discriminate.
  - vm_compute; reflexivity.
  - vm_compute. by eexists.
  - exists name. exact Heffects.
Defined.

Lemma name_retry_schedule_witness :
  ∃ new,
    effects (run (TimerFires 0 <$> [Example.nothingYet] ++ [Sample.profilePage])
               (checkUrl Sample.profileView initialWatcher))
    = new ++ []
    ∧ callsOf new = [(Sample.profileUrl, "@someuser")]
    ∧ timeoutsOf new = [300; 500]%nat.
Proof.
  destruct (name_retry_schedule ProfileName Sample.profileView initialWatcher
              Sample.profileUrl [Example.nothingYet])
    as (_ & Hfound & _).
  - reflexivity.
  - reflexivity.
  - discriminate.
  - discriminate.
  - vm_compute; reflexivity.
  - vm_compute; reflexivity.
  - vm_compute; reflexivity.
  - reflexivity.
  - reflexivity.
  - reflexivity.
  - repeat constructor.
  - destruct (Hfound ltac:(simpl; lia) Sample.profilePage "@someuser"
                ltac:(vm_compute; reflexivity))
      as (new & Heff & Hcalls & _ & _ & _ & Htimeouts).
    exists new. split; [exact Heff | split; [exact Hcalls | exact Htimeouts]].
Defined.

Lemma derived_title_is_stored_witness :
  Column.title
    {| Column.id := "column-2"; Column.title := "Home";
       Column.currentUrl := "https://x.com/home"; Column.isSettings := false |}
  = getTitleFromUrl "https://x.com/home".
Proof.
  apply (proj2 (derived_title_is_stored "https://x.com/home" "https://x.com/home"
                  "column-2" Sample.threeColumns)
           {| Column.id := "column-2"; Column.title := "Home";
              Column.currentUrl := "https://x.com/home";
              Column.isSettings := false |}).
  - vm_compute. right. left.
  - reflexivity.
Defined.

Lemma panel_rows_of_column_witness :
  items "https://x.com/notifications" defaultExcludeCategories None = [].
Proof.
  apply (proj2 (proj2 (proj2 (panel_rows_of_column "https://x.com/notifications"
                                defaultExcludeCategories)))).
  vm_compute. left.
Defined.

Lemma removeColumn_keeps_selection_witness :
  fst (removeColumn "column-1" Sample.threeColumns 1)
    !! Z.to_nat (snd (removeColumn "column-1" Sample.threeColumns 1))
  = Some Sample.listColumn.
Proof.
  assert (distinctIds Sample.threeColumns) as Hdistinct
    by (unfold distinctIds; refine (bool_decide_unpack _ _); vm_compute; exact I).
  assert ("column-1" ∈ Column.id <$> Sample.threeColumns) as Hin
    by (refine (bool_decide_unpack _ _); vm_compute; exact I).
  assert (0 ≤ 1) as Hnonneg by lia.
  apply (proj1 (proj2 (removeColumn_keeps_selection "column-1"
                         Sample.threeColumns 1 Sample.listColumn
                         Hdistinct Hin Hnonneg eq_refl))).
  discriminate.
Defined.

Lemma removeColumn_unknown_id_witness :
  removeColumn "column-9" Sample.threeColumns 1 = (Sample.threeColumns, 0).
Proof.
  apply (removeColumn_unknown_id "column-9" Sample.threeColumns 1).
  refine (bool_decide_unpack _ _); vm_compute; exact I.
Defined.

Lemma handleDragEnd_reorders_witness :
  ∃ newColumns,
    handleDragEnd "column-1" (Some "column-2") Sample.threeColumns
    = Some newColumns
    ∧ newColumns !! 1%nat = Some Sample.homeColumn.
Proof.
  destruct (proj1 (handleDragEnd_reorders "column-1" (Some "column-2")
                     Sample.threeColumns))
    as (newColumns & Hdrag & _ & Hmoved).
  exists newColumns. split; [exact Hdrag |].
  apply (Hmoved "column-2" 0%nat 1%nat Sample.homeColumn).
  - reflexivity.
  - discriminate.
  - vm_compute; reflexivity.
  - vm_compute; reflexivity.
  - reflexivity.
Defined.

Lemma stored_title_round_trip_witness :
  storedTitle ListName
    {| href := href Example.freshView; document := document Example.freshView;
       columnId := Some "column-2";
       columns := handleUrlChange "column-2" Example.listUrl "My List"
                    Sample.threeColumns |}
    Example.listUrl
  = Some "My List".
Proof.
  apply (stored_title_round_trip ListName "column-2" Example.listUrl "My List"
           Sample.threeColumns Example.freshView).
  - reflexivity.
  - refine (bool_decide_unpack _ _); vm_compute; exact I.
  - reflexivity.
  - vm_compute. discriminate.
Defined.


Lemma restoredColumnIndex_in_range_witness :
  restoredColumnIndex (Some 5) Sample.threeColumns = 0
  ∧ restoredColumnIndex (Some 1) Sample.threeColumns < 3.
Proof.
  split.
  - apply (proj2 (proj2 (restoredColumnIndex_in_range (Some 5)
                           Sample.threeColumns))
             5 eq_refl).
  - apply (proj1 (restoredColumnIndex_in_range (Some 1) Sample.threeColumns)).
    discriminate.
Defined.

Lemma names_read_from_page_witness :
  (∃ rest, "@someuser" = String "@" rest)
  ∧ noAt "My List" = true.
Proof.
  split.
  - apply (proj2 (names_read_from_page Sample.profilePage "@someuser")).
    vm_compute; reflexivity.
  - apply (proj1 (names_read_from_page Example.myList "My List")).
    left. vm_compute; reflexivity.
Defined.

Lemma detectRateLimitCategory_ignores_case_witness :
  detectRateLimitCategory "https://x.com/i/api/graphql/q/homelatesttimeline"
  = detectRateLimitCategory Example.homeTimelineTarget.
Proof.
  apply (detectRateLimitCategory_ignores_case
           "https://x.com/i/api/graphql/q/homelatesttimeline"
           Example.homeTimelineTarget).
  vm_compute; reflexivity.
Defined.

Lemma overlay_follows_location_witness :
  rootElement
    (foldl onPageEvent (startContentScript false Sample.homeLocation)
       (Mutation <$> [Sample.launchLocation]))
  = true.
Proof.
  apply (overlay_follows_location Sample.homeLocation [Sample.launchLocation]).
  intros l1 l2 H1 H2 Hhref.
  apply elem_of_cons in H1 as [-> | H1];
    [| apply list_elem_of_singleton in H1 as ->];
    (apply elem_of_cons in H2 as [-> | H2];
     [| apply list_elem_of_singleton in H2 as ->]);
    first [reflexivity | discriminate Hhref].
Defined.

Lemma rule_added_by_the_form_witness :
  ∃ rule,
    handleSaveFilter Sample.blankForm None "filter-3" = AddFilter rule
    ∧ ∀ post, matchesFilter post rule = true
        ∧ (Post.processed post ≠ Some "1" →
           Post.display (filterPost [rule] post) = "none").
Proof.
  apply (proj2 (rule_added_by_the_form Sample.blankForm "filter-3")).
  - vm_compute; reflexivity.
  - reflexivity.
  - intros Hpattern. discriminate Hpattern.
  - vm_compute; reflexivity.
  - vm_compute; reflexivity.
  - reflexivity.
  - reflexivity.
Defined.
